(** * Marabunta: the Lua bridge (game/Lua_)

    A shallow embedding of the format-string call marshaler
    (Support.cpp, Helpers.cpp), of the member binding layer (Peer.cpp,
    Arg.cpp) and of the reference-counted boxed setter (Templates.h),
    over a model of the part of the Lua 5.1 C API these files use.

    The stack of the running C function is a list whose head is index 1.
    Collectable objects (tables, closures) live in a heap and values
    refer to them by position, so that two stack slots may alias one
    table. Metatables are not part of the model: every table is plain,
    and indexing a non-table raises the runtime's type error. Stack
    space is unbounded (the sources never call lua_checkstack). *)

From Stdlib Require Import ZArith String Ascii Lia.
From stdpp Require Import base option list gmap strings pretty.

#[local] Open Scope Z_scope.

(** ** Platform: numbers, word size, C strings *)

(** The prefix of a string up to its first NUL: what a [const char *]
    reader sees of a Lua string. *)
Fixpoint c_prefix (s : string) : string :=
  match s with
  | EmptyString => EmptyString
  | String c s' => if Ascii.eqb c zero then EmptyString else String c (c_prefix s')
  end.

(** lua_CFunction: the C functions of these sources by name, any other
    by its address. *)
Inductive lua_CFunction :=
| fn_ErrorFunc
| fn_Index
| fn_NewIndex
| fn_extern (addr : Z).

#[global] Instance lua_CFunction_eq_dec : EqDecision lua_CFunction.
Proof. solve_decision. Defined.

(** [lua_Number] is C's double and [float] its single precision type;
    they stay abstract, with the conversions the sources perform.
    [word_bytes] is sizeof(void * ) = sizeof(ptrdiff_t) (lua_Integer is
    ptrdiff_t); int and long are 32 bits wide (the sources build with
    stdafx.h under Win32 or Win64).  [str_ptr s] is the address of the
    runtime's interned copy of [s] and [c_str p] the C string found at
    address [p], [None] at the null pointer; [code_addr f] is the
    address of the code of [f]. *)
Class Platform := {
  lua_Number : Type;
  float : Type;
  lua_Number_eq_dec :: EqDecision lua_Number;
  float_eq_dec :: EqDecision float;
  word_bytes : Z;
  int2num : Z -> lua_Number;
  num2int : lua_Number -> Z;
  float2num : float -> lua_Number;
  num2float : lua_Number -> float;
  num2str : lua_Number -> string;
  str2num : string -> option lua_Number;
  str_ptr : string -> Z;
  c_str : Z -> option string;
  code_addr : lua_CFunction -> Z;
  word_bytes_4_or_8 : word_bytes = 4 \/ word_bytes = 8;
  num2int_int2num : forall z, - 2 ^ 53 <= z <= 2 ^ 53 -> num2int (int2num z) = z;
  num2float_float2num : forall f, num2float (float2num f) = f;
  c_str_null : c_str 0 = None;
  str_ptr_not_null : forall s, str_ptr s <> 0;
  c_str_str_ptr : forall s, c_str (str_ptr s) = Some (c_prefix s)
}.

(** Two's complement wrap-around of a [bits]-wide integer. *)
Definition wrap_unsigned (bits z : Z) : Z := z mod 2 ^ bits.

Definition wrap_signed (bits z : Z) : Z :=
  let u := z mod 2 ^ bits in
  if u <? 2 ^ (bits - 1) then u else u - 2 ^ bits.

Definition in_signed (bits z : Z) : bool :=
  (- 2 ^ (bits - 1) <=? z) && (z <? 2 ^ (bits - 1)).

(** ** Values and the heap *)

(** What lua_getinfo(L, "Sl", ar) reports of an active function. *)
Record lua_Debug := {
  source : string;
  short_src : string;
  currentline : Z
}.

Section Values.
Context `{Platform}.

Inductive Value :=
| VNil
| VBoolean (b : bool)
| VNumber (n : lua_Number)
| VString (s : string)
| VLightUserdata (p : Z)
| VUserdata (block size : Z)
| VFunction (ref : nat)
| VTable (ref : nat).

#[global] Instance Value_eq_dec : EqDecision Value.
Proof. solve_decision. Defined.

(** A table without metatable: its non-nil fields. *)
Definition Table := list (Value * Value).

Record Closure := {
  cl_fn : lua_CFunction;
  cl_upvalues : list Value
}.

(** One cell of native memory: a byte of an integer or pointer, or the
    [i]-th byte of a stored float or double (kept opaque). *)
Inductive memval :=
| MByte (b : Z)
| MFloat (f : float) (i : nat)
| MDouble (d : lua_Number) (i : nat).

#[global] Instance memval_eq_dec : EqDecision memval.
Proof. solve_decision. Defined.

Record Heap := {
  tables : list Table;
  closures : list Closure;
  registry : nat;
  globals : nat;
  memory : gmap Z memval
}.

(** The state a C function sees: the shared heap, its own stack frame
    and upvalues, its environment, the active callers (levels 1, 2, ...
    of lua_getstack), and a ghost log of the calls it has made. *)
Record lua_State := {
  heap : Heap;
  stack : list Value;
  upvalues : list Value;
  environ : Value;
  callers : list lua_Debug;
  calls : list (Value * list Value)
}.

Definition set_heap (h : Heap) (L : lua_State) : lua_State :=
  {| heap := h; stack := stack L; upvalues := upvalues L; environ := environ L;
     callers := callers L; calls := calls L |}.

Definition set_stack (s : list Value) (L : lua_State) : lua_State :=
  {| heap := heap L; stack := s; upvalues := upvalues L; environ := environ L;
     callers := callers L; calls := calls L |}.

Definition log_call (f : Value) (args : list Value) (L : lua_State) : lua_State :=
  {| heap := heap L; stack := stack L; upvalues := upvalues L; environ := environ L;
     callers := callers L; calls := calls L ++ [(f, args)] |}.

Definition set_tables (t : list Table) (h : Heap) : Heap :=
  {| tables := t; closures := closures h; registry := registry h;
     globals := globals h; memory := memory h |}.

Definition set_closures (c : list Closure) (h : Heap) : Heap :=
  {| tables := tables h; closures := c; registry := registry h;
     globals := globals h; memory := memory h |}.

Definition set_memory (m : gmap Z memval) (h : Heap) : Heap :=
  {| tables := tables h; closures := closures h; registry := registry h;
     globals := globals h; memory := m |}.

(** How a call ends when it fails: with a message of the runtime's own,
    or with the value some active function passed to lua_error; that
    function is then level 1 for the message handler. *)
Inductive Failure :=
| RuntimeError (msg : string) (active : list lua_Debug)
| ErrorCall (e : Value) (thrower : lua_Debug) (active : list lua_Debug).

Inductive CallResult :=
| CallOk (results : list Value) (h : Heap)
| CallErr (f : Failure) (h : Heap).

(** Outcome of a piece of C or C++ code on a state [S]:
    normal return, a Lua error (lua_error unwinding through the code),
    undefined behaviour of the C level (a wild pointer, an API
    precondition broken, a mismatched va_arg), or fuel exhausted. *)
Inductive Outcome (S A : Type) :=
| Ok (a : A) (s : S)
| Raise (e : Value) (s : S)
| Fault (why : string)
| OutOfFuel.

End Values.

Arguments Ok {_ _ _} a s.
Arguments Raise {_ _ _} e s.
Arguments Fault {_ _ _} why.
Arguments OutOfFuel {_ _ _}.

(** The callables the sources do not define (Lua functions, foreign C
    functions): what calling a value with arguments does. *)
Class Interp `{Platform} := {
  run_callable : Heap -> Value -> list Value -> CallResult;
  run_handler : Heap -> Value -> Value -> Value * Heap
}.

(** ** The state and error monad *)

Section Monad.
Context `{Platform}.

Definition M (S A : Type) : Type := S -> Outcome S A.

Definition ret {S A} (a : A) : M S A := fun s => Ok a s.

Definition bind {S A B} (m : M S A) (k : A -> M S B) : M S B :=
  fun s =>
    match m s with
    | Ok a s' => k a s'
    | Raise e s' => Raise e s'
    | Fault why => Fault why
    | OutOfFuel => OutOfFuel
    end.

Definition get {S} : M S S := fun s => Ok s s.
Definition put {S} (s : S) : M S unit := fun _ => Ok tt s.
Definition modify {S} (f : S -> S) : M S unit := fun s => Ok tt (f s).
Definition raise {S A} (e : Value) : M S A := fun s => Raise e s.
Definition fault {S A} (why : string) : M S A := fun _ => Fault why.

(** Runs [m] on the component [proj s] of a larger state. *)
Definition zoom {S T A} (proj : S -> T) (inj : T -> S -> S) (m : M T A) : M S A :=
  fun s =>
    match m (proj s) with
    | Ok a t => Ok a (inj t s)
    | Raise e t => Raise e (inj t s)
    | Fault why => Fault why
    | OutOfFuel => OutOfFuel
    end.

End Monad.

Notation "'let!' x ':=' m 'in' k" := (bind m (fun x => k))
  (at level 10, x name, m at level 100, k at level 200).

(** ** The Lua 5.1 C API, as far as the sources use it *)

Section LuaAPI.
Context `{Interp}.

Definition LUA_REGISTRYINDEX : Z := -10000.
Definition LUA_ENVIRONINDEX : Z := -10001.
Definition LUA_GLOBALSINDEX : Z := -10002.
Definition lua_upvalueindex (i : Z) : Z := LUA_GLOBALSINDEX - i.
Definition LUA_MULTRET : Z := -1.
Definition LUA_ERRRUN : Z := 2.
Definition LUAI_MAXCCALLS : nat := 200.

Definition lua_gettop (L : lua_State) : Z := Z.of_nat (length (stack L)).

(** The position (from 0) of a valid stack index. *)
Definition stack_slot (L : lua_State) (idx : Z) : option nat :=
  if 0 <? idx then
    if idx <=? lua_gettop L then Some (Z.to_nat (idx - 1)) else None
  else if (LUA_REGISTRYINDEX <? idx) && (idx <? 0) && (- lua_gettop L <=? idx) then
    Some (Z.to_nat (lua_gettop L + idx))
  else None.

(** index2adr: [None] is the runtime's "none" (an empty acceptable
    index, or an upvalue the closure does not have). *)
Definition index2adr (L : lua_State) (idx : Z) : option Value :=
  if LUA_REGISTRYINDEX <? idx then
    match stack_slot L idx with
    | Some i => stack L !! i
    | None => None
    end
  else if idx =? LUA_REGISTRYINDEX then Some (VTable (registry (heap L)))
  else if idx =? LUA_ENVIRONINDEX then Some (environ L)
  else if idx =? LUA_GLOBALSINDEX then Some (VTable (globals (heap L)))
  else upvalues L !! Z.to_nat (LUA_GLOBALSINDEX - idx - 1).

Definition value_at (L : lua_State) (idx : Z) : Value :=
  default VNil (index2adr L idx).

Definition lua_isnil (L : lua_State) (idx : Z) : bool :=
  match index2adr L idx with Some VNil => true | _ => false end.

Definition lua_isnoneornil (L : lua_State) (idx : Z) : bool :=
  match index2adr L idx with Some VNil | None => true | _ => false end.

Definition lua_toboolean (L : lua_State) (idx : Z) : bool :=
  match index2adr L idx with
  | None | Some VNil | Some (VBoolean false) => false
  | _ => true
  end.

Definition lua_isuserdata (L : lua_State) (idx : Z) : bool :=
  match index2adr L idx with
  | Some (VUserdata _ _) | Some (VLightUserdata _) => true
  | _ => false
  end.

Definition lua_touserdata (L : lua_State) (idx : Z) : Z :=
  match index2adr L idx with
  | Some (VUserdata block _) => block
  | Some (VLightUserdata p) => p
  | _ => 0
  end.

Definition typename (v : option Value) : string :=
  match v with
  | None => "no value"
  | Some VNil => "nil"
  | Some (VBoolean _) => "boolean"
  | Some (VNumber _) => "number"
  | Some (VString _) => "string"
  | Some (VLightUserdata _) | Some (VUserdata _ _) => "userdata"
  | Some (VFunction _) => "function"
  | Some (VTable _) => "table"
  end.

(** *** Pushing and moving stack slots *)

Definition push (v : Value) (L : lua_State) : lua_State :=
  set_stack (stack L ++ [v]) L.

Definition lua_pushnil : lua_State -> lua_State := push VNil.
Definition lua_pushboolean (b : bool) : lua_State -> lua_State := push (VBoolean b).
Definition lua_pushinteger (n : Z) : lua_State -> lua_State := push (VNumber (int2num n)).
Definition lua_pushnumber (n : lua_Number) : lua_State -> lua_State := push (VNumber n).
Definition lua_pushlightuserdata (p : Z) : lua_State -> lua_State := push (VLightUserdata p).

(** lua_pushstring pushes nil for the null pointer. *)
Definition lua_pushstring (s : option string) : lua_State -> lua_State :=
  match s with
  | Some str => push (VString str)
  | None => push VNil
  end.

Definition lua_pushvalue (idx : Z) (L : lua_State) : lua_State :=
  push (value_at L idx) L.

Definition resize (n : nat) (l : list Value) : list Value :=
  take n l ++ replicate (n - length l)%nat VNil.

Definition lua_settop (idx : Z) : M lua_State unit := fun L =>
  if 0 <=? idx then Ok tt (set_stack (resize (Z.to_nat idx) (stack L)) L)
  else if - (idx + 1) <=? lua_gettop L then
    Ok tt (set_stack (take (Z.to_nat (lua_gettop L + idx + 1)) (stack L)) L)
  else Fault "lua_settop: invalid new top".

Definition lua_pop (n : Z) : M lua_State unit := lua_settop (- n - 1).

Definition top_value (L : lua_State) : option Value := last (stack L).

Definition lua_insert (idx : Z) : M lua_State unit := fun L =>
  match stack_slot L idx, top_value L with
  | Some p, Some v =>
      let below := removelast (stack L) in
      Ok tt (set_stack (take p below ++ v :: drop p below) L)
  | _, _ => Fault "lua_insert: invalid index"
  end.

Definition lua_remove (idx : Z) : M lua_State unit := fun L =>
  match stack_slot L idx with
  | Some p => Ok tt (set_stack (take p (stack L) ++ drop (S p) (stack L)) L)
  | None => Fault "lua_remove: invalid index"
  end.

Definition lua_replace (idx : Z) : M lua_State unit := fun L =>
  match stack_slot L idx, top_value L with
  | Some p, Some v => Ok tt (set_stack (removelast (<[p := v]> (stack L))) L)
  | _, _ => Fault "lua_replace: invalid index"
  end.

(** *** Tables *)

Fixpoint tbl_get (t : Table) (k : Value) : Value :=
  match t with
  | [] => VNil
  | (k', v) :: t' => if decide (k = k') then v else tbl_get t' k
  end.

Fixpoint tbl_remove (t : Table) (k : Value) : Table :=
  match t with
  | [] => []
  | (k', v) :: t' => if decide (k = k') then tbl_remove t' k else (k', v) :: tbl_remove t' k
  end.

Definition tbl_set (t : Table) (k v : Value) : Table :=
  match v with
  | VNil => tbl_remove t k
  | _ => (k, v) :: tbl_remove t k
  end.

(** luaH_getn: a border of the table; here the least one, which is the
    only one when the array part has no hole. *)
Fixpoint border_from (t : Table) (fuel : nat) (n : Z) : Z :=
  match fuel with
  | O => n
  | S fuel' =>
      match tbl_get t (VNumber (int2num (n + 1))) with
      | VNil => n
      | _ => border_from t fuel' (n + 1)
      end
  end.

Definition luaH_getn (t : Table) : Z := border_from t (length t) 0.

Definition table_at (L : lua_State) (idx : Z) : option (nat * Table) :=
  match index2adr L idx with
  | Some (VTable ref) =>
      match tables (heap L) !! ref with
      | Some t => Some (ref, t)
      | None => None
      end
  | _ => None
  end.

Definition store_table (ref : nat) (t : Table) (L : lua_State) : lua_State :=
  set_heap (set_tables (<[ref := t]> (tables (heap L))) (heap L)) L.

Definition pop1 (L : lua_State) : lua_State := set_stack (removelast (stack L)) L.

Definition lua_createtable (L : lua_State) : lua_State :=
  let ref := length (tables (heap L)) in
  push (VTable ref) (set_heap (set_tables (tables (heap L) ++ [[]]) (heap L)) L).

Definition lua_newtable : lua_State -> lua_State := lua_createtable.

Definition index_error {A} (v : option Value) : M lua_State A :=
  raise (VString ("attempt to index a " +:+ typename v +:+ " value")).

Definition lua_rawgeti (idx n : Z) : M lua_State unit := fun L =>
  match table_at L idx with
  | Some (_, t) => Ok tt (push (tbl_get t (VNumber (int2num n))) L)
  | None => Fault "lua_rawgeti: table expected"
  end.

Definition lua_rawseti (idx n : Z) : M lua_State unit := fun L =>
  match table_at L idx, top_value L with
  | Some (ref, t), Some v =>
      Ok tt (pop1 (store_table ref (tbl_set t (VNumber (int2num n)) v) L))
  | _, _ => Fault "lua_rawseti: table expected"
  end.

Definition lua_rawget (idx : Z) : M lua_State unit := fun L =>
  match table_at L idx, top_value L with
  | Some (_, t), Some k => Ok tt (push (tbl_get t k) (pop1 L))
  | _, _ => Fault "lua_rawget: table expected"
  end.

Definition set_field (ref : nat) (t : Table) (k v : Value) (pops : nat) : M lua_State unit :=
  fun L =>
    match k with
    | VNil => Raise (VString "table index is nil") L
    | _ => Ok tt (Nat.iter pops pop1 (store_table ref (tbl_set t k v) L))
    end.

Definition lua_rawset (idx : Z) : M lua_State unit := fun L =>
  match table_at L idx, top_value (pop1 L), top_value L with
  | Some (ref, t), Some k, Some v => set_field ref t k v 2 L
  | _, _, _ => Fault "lua_rawset: table expected"
  end.

Definition lua_gettable (idx : Z) : M lua_State unit := fun L =>
  match top_value L with
  | None => Fault "lua_gettable: no key"
  | Some k =>
      match table_at L idx with
      | Some (_, t) => Ok tt (push (tbl_get t k) (pop1 L))
      | None => index_error (index2adr L idx) L
      end
  end.

Definition lua_settable (idx : Z) : M lua_State unit := fun L =>
  match top_value (pop1 L), top_value L with
  | Some k, Some v =>
      match table_at L idx with
      | Some (ref, t) => set_field ref t k v 2 L
      | None => index_error (index2adr L idx) L
      end
  | _, _ => Fault "lua_settable: no key and value"
  end.

Definition lua_getfield (idx : Z) (k : string) : M lua_State unit := fun L =>
  match table_at L idx with
  | Some (_, t) => Ok tt (push (tbl_get t (VString k)) L)
  | None => index_error (index2adr L idx) L
  end.

Definition lua_setfield (idx : Z) (k : string) : M lua_State unit := fun L =>
  match top_value L with
  | None => Fault "lua_setfield: no value"
  | Some v =>
      match table_at L idx with
      | Some (ref, t) => set_field ref t (VString k) v 1 L
      | None => index_error (index2adr L idx) L
      end
  end.

Definition lua_objlen (L : lua_State) (idx : Z) : Z :=
  match index2adr L idx with
  | Some (VString s) => Z.of_nat (String.length s)
  | Some (VNumber n) => Z.of_nat (String.length (num2str n))
  | Some (VUserdata _ size) => size
  | Some (VTable ref) =>
      match tables (heap L) !! ref with
      | Some t => luaH_getn t
      | None => 0
      end
  | _ => 0
  end.

(** *** Closures *)

Definition lua_pushcclosure (fn : lua_CFunction) (n : nat) : M lua_State unit := fun L =>
  if (length (stack L) <? n)%nat then Fault "lua_pushcclosure: not enough upvalues"
  else
    let keep := (length (stack L) - n)%nat in
    let cl := {| cl_fn := fn; cl_upvalues := drop keep (stack L) |} in
    let ref := length (closures (heap L)) in
    Ok tt (push (VFunction ref)
             (set_stack (take keep (stack L))
                (set_heap (set_closures (closures (heap L) ++ [cl]) (heap L)) L))).

Definition lua_pushcfunction (fn : lua_CFunction) : M lua_State unit :=
  lua_pushcclosure fn 0.

(** *** Errors and conversions of the auxiliary library *)

(** luaL_where(L, 1): the position prefix of the level 1 function. *)
Definition luaL_where (L : lua_State) : string :=
  match callers L with
  | ar :: _ =>
      if 0 <? currentline ar
      then short_src ar +:+ ":" +:+ pretty (currentline ar) +:+ ": "
      else ""
  | [] => ""
  end.

Definition luaL_error {A} (msg : string) : M lua_State A := fun L =>
  Raise (VString (luaL_where L +:+ msg)) L.

Definition luaL_typerror {A} (narg : Z) (tname : string) : M lua_State A := fun L =>
  luaL_error ("bad argument #" +:+ pretty narg +:+ " (" +:+ tname +:+ " expected, got "
              +:+ typename (index2adr L narg) +:+ ")") L.

(** lua_tonumber: numbers, and strings that read as numbers. *)
Definition lua_tonumber (L : lua_State) (idx : Z) : option lua_Number :=
  match index2adr L idx with
  | Some (VNumber n) => Some n
  | Some (VString s) => str2num s
  | _ => None
  end.

Definition luaL_checknumber (narg : Z) : M lua_State lua_Number := fun L =>
  match lua_tonumber L narg with
  | Some n => Ok n L
  | None => luaL_typerror narg "number" L
  end.

(** lua_number2integer is defined only when the truncated value fits
    lua_Integer (ptrdiff_t). *)
Definition luaL_checkinteger (narg : Z) : M lua_State Z := fun L =>
  match lua_tonumber L narg with
  | Some n =>
      if in_signed (8 * word_bytes) (num2int n) then Ok (num2int n) L
      else Fault "lua_number2integer: value out of range"
  | None => luaL_typerror narg "number" L
  end.

(** luaL_checkint: (int)luaL_checkinteger. *)
Definition luaL_checkint (narg : Z) : M lua_State Z :=
  let! d := luaL_checkinteger narg in ret (wrap_signed 32 d).

(** lua_tolstring turns a number into a string in its stack slot. *)
Definition lua_tolstring (idx : Z) : M lua_State (option string) := fun L =>
  match index2adr L idx with
  | Some (VString s) => Ok (Some s) L
  | Some (VNumber n) =>
      match stack_slot L idx with
      | Some p => Ok (Some (num2str n)) (set_stack (<[p := VString (num2str n)]> (stack L)) L)
      | None => Ok (Some (num2str n)) L
      end
  | _ => Ok None L
  end.

Definition luaL_checkstring (narg : Z) : M lua_State string :=
  let! s := lua_tolstring narg in
  match s with
  | Some str => ret str
  | None => luaL_typerror narg "string"
  end.

Definition luaL_optstring (narg : Z) (def : string) : M lua_State string := fun L =>
  if lua_isnoneornil L narg then Ok def L else luaL_checkstring narg L.

(** luaL_checktype(L, narg, LUA_TBOOLEAN), then lua_toboolean. *)
Definition luaL_checkboolean (narg : Z) : M lua_State bool := fun L =>
  match index2adr L narg with
  | Some (VBoolean b) => Ok b L
  | _ => luaL_typerror narg "boolean" L
  end.

(** luaL_register(L, NULL, l): every function of [l] becomes a field of
    the table on top of the stack. *)
Fixpoint luaL_register (l : list (string * lua_CFunction)) : M lua_State unit :=
  match l with
  | [] => ret tt
  | (name, fn) :: l' =>
      let! _ := lua_pushcclosure fn 0 in
      let! _ := lua_setfield (-2) name in
      luaL_register l'
  end.

(** *** Calls *)

Definition adjust (nresults : Z) (results : list Value) : list Value :=
  if nresults =? LUA_MULTRET then results else resize (Z.to_nat nresults) results.

Definition raw_error (f : Failure) : Value :=
  match f with
  | RuntimeError msg _ => VString msg
  | ErrorCall e _ _ => e
  end.

(** The function slot and the arguments of a call with [nargs]
    arguments on top of the stack. *)
Definition call_frame (L : lua_State) (nargs : Z) : option (nat * Value * list Value) :=
  if (0 <=? nargs) && (nargs + 1 <=? lua_gettop L) then
    let base := Z.to_nat (lua_gettop L - nargs - 1) in
    match stack L !! base with
    | Some f => Some (base, f, drop (S base) (stack L))
    | None => None
    end
  else None.

Definition lua_call (nargs nresults : Z) : M lua_State unit := fun L =>
  match call_frame L nargs with
  | None => Fault "lua_call: function and arguments expected"
  | Some (base, f, args) =>
      let L1 := log_call f args L in
      match run_callable (heap L) f args with
      | CallOk results h =>
          Ok tt (set_stack (take base (stack L) ++ adjust nresults results) (set_heap h L1))
      | CallErr fl h => Raise (raw_error fl) (set_heap h L1)
      end
  end.

End LuaAPI.

(** ** Helpers.cpp *)

Section Helpers.
Context `{Interp}.

(** IndexAbsolute (Helpers.h): absolutizes acceptable indices. *)
Definition IndexAbsolute (L : lua_State) (index : Z) : Z :=
  let top := lua_gettop L in
  if (index <? 0) && (- top <=? index) then index + top + 1 else index.

(** GetN: int(lua_objlen(L, index)). *)
Definition GetN (L : lua_State) (index : Z) : Z :=
  wrap_signed 32 (lua_objlen L index).

(** Push: pushes the top stack element onto the end of a table. *)
Definition Push (index : Z) : M lua_State unit := fun L =>
  lua_rawseti index (GetN L index + 1) L.

(** GetGlobal: the loop over strchr(name, '.'), one character at a
    time; [level] is the part of the name read since the last dot. *)
Fixpoint GetGlobal_path (level name : string) : M lua_State unit :=
  match name with
  | EmptyString =>
      let! _ := lua_getfield (-1) level in
      lua_replace (-2)
  | String c name' =>
      if Ascii.eqb c "." then
        let! _ := modify (lua_pushstring (Some level)) in
        let! _ := lua_gettable (-2) in
        let! _ := lua_replace (-2) in
        GetGlobal_path EmptyString name'
      else GetGlobal_path (level +:+ String c EmptyString) name'
  end.

Definition GetGlobal (name : option string) : M lua_State unit :=
  match name with
  | None => fault "GetGlobal: strchr on the null pointer"
  | Some n =>
      let! _ := modify (lua_pushvalue LUA_GLOBALSINDEX) in
      GetGlobal_path EmptyString n
  end.

(** CacheAndGet(L, func): gets a function, cached after the first use. *)
Definition CacheAndGet (func : lua_CFunction) : M lua_State unit :=
  let! _ := modify (lua_pushlightuserdata (code_addr func)) in
  let! _ := lua_rawget LUA_REGISTRYINDEX in
  let! L := get in
  if lua_isnil L (-1) then
    let! _ := lua_pop 1 in
    let! _ := modify (lua_pushlightuserdata (code_addr func)) in
    let! _ := lua_pushcfunction func in
    let! _ := modify (lua_pushvalue (-1)) in
    let! _ := lua_insert (-3) in
    lua_rawset LUA_REGISTRYINDEX
  else ret tt.

(** lua_concat(L, 2). *)
Definition tostring (v : Value) : option string :=
  match v with
  | VString s => Some s
  | VNumber n => Some (num2str n)
  | _ => None
  end.

Definition concat_error {A} (v : Value) : M lua_State A :=
  raise (VString ("attempt to concatenate a " +:+ typename (Some v) +:+ " value")).

Definition lua_concat2 : M lua_State unit := fun L =>
  match top_value (pop1 L), top_value L with
  | Some a, Some b =>
      match tostring a, tostring b with
      | Some sa, Some sb => Ok tt (push (VString (sa +:+ sb)) (pop1 (pop1 L)))
      | None, _ => concat_error a L
      | Some _, None => concat_error b L
      end
  | _, _ => Fault "lua_concat: two values expected"
  end.

Definition newline : string := String (ascii_of_nat 10) EmptyString.

(** The text ErrorFunc formats for one active function. *)
Definition about (ar : lua_Debug) : string :=
  if currentline ar =? -1 then newline +:+ source ar
  else newline +:+ source ar +:+ ":" +:+ pretty (currentline ar).

(** ErrorFunc: the message augmented with a traceback; the loop over
    lua_getstack(L, i, &ar), i = 1, 2, ... *)
Fixpoint ErrorFunc_levels (active : list lua_Debug) : M lua_State unit :=
  match active with
  | [] => ret tt
  | ar :: active' =>
      let! _ := modify (lua_pushstring (Some (about ar))) in
      let! _ := lua_concat2 in
      ErrorFunc_levels active'
  end.

Definition ErrorFunc : M lua_State Z := fun L =>
  (let! _ := ErrorFunc_levels (callers L) in ret 1) L.

Definition C_function_info : lua_Debug :=
  {| source := "=[C]"; short_src := "[C]"; currentline := -1 |}.

(** luaG_errormsg: the runtime hands the error value to the message
    handler and takes its result as the error value. An error raised
    inside the handler goes to the handler again, which then is itself
    an active function; after too many nested calls the runtime gives
    up with a message of its own. *)
Fixpoint luaG_errormsg (fuel : nat) (h : Heap) (handler e : Value)
    (active : list lua_Debug) : Value * Heap :=
  match fuel with
  | O => (VString "error in error handling", h)
  | S fuel' =>
      match handler with
      | VFunction ref =>
          match closures h !! ref with
          | Some cl =>
              match cl_fn cl with
              | fn_ErrorFunc =>
                  match ErrorFunc {| heap := h; stack := [e]; upvalues := cl_upvalues cl;
                                     environ := VTable (globals h); callers := active;
                                     calls := [] |} with
                  | Ok _ L' => (value_at L' (-1), heap L')
                  | Raise e' L' => luaG_errormsg fuel' (heap L') handler e' (C_function_info :: active)
                  | _ => (VString "error in error handling", h)
                  end
              | _ => run_handler h handler e
              end
          | None => (VString "error in error handling", h)
          end
      | _ => (VString "error in error handling", h)
      end
  end.

Definition active_at (f : Failure) : list lua_Debug :=
  match f with
  | RuntimeError _ active => active
  | ErrorCall _ thrower active => thrower :: active
  end.

(** lua_pcall with a message handler at stack index [errfunc]. *)
Definition lua_pcall (nargs nresults errfunc : Z) : M lua_State Z := fun L =>
  match call_frame L nargs, stack_slot L errfunc with
  | Some (base, f, args), Some p =>
      let L1 := log_call f args L in
      match run_callable (heap L) f args with
      | CallOk results h =>
          Ok 0 (set_stack (take base (stack L) ++ adjust nresults results) (set_heap h L1))
      | CallErr fl h =>
          let '(msg, h') :=
            luaG_errormsg LUAI_MAXCCALLS h (default VNil (stack L !! p)) (raw_error fl)
              (active_at fl) in
          Ok LUA_ERRRUN (set_stack (take base (stack L) ++ [msg]) (set_heap h' L1))
      end
  | _, _ => Fault "lua_pcall: function, arguments and handler expected"
  end.

(** PCall_EF: a protected call with the error function installed. *)
Definition PCall_EF (argc retc : Z) : M lua_State Z :=
  let! _ := CacheAndGet fn_ErrorFunc in
  let! L := get in
  let err := IndexAbsolute L (- (argc + 2)) in
  let! _ := lua_insert err in
  let! result := lua_pcall argc retc err in
  let! _ := lua_remove err in
  ret result.

End Helpers.

(** ** Support.cpp: the Reader and CallCore *)

Section Support.
Context `{Interp}.

(** One argument of the va_list, with the type it was passed as. *)
Inductive va_value :=
| va_int (i : Z)
| va_bool (b : bool)
| va_double (n : lua_Number)
| va_string (str : option string)
| va_pointer (ud : Z)
| va_function (func : lua_CFunction).

(** struct Reader. [mParams] is the rest of the parameter list from
    the cursor on; the empty string is the terminating NUL. *)
Record Reader := {
  mArgs : list va_value;
  mL : lua_State;
  mError : option string;
  mParams : string;
  mHeight : Z;
  mTop : Z;
  mInKey : bool;
  mInValue : bool;
  mShouldSkip : bool
}.

Definition set_mArgs (a : list va_value) (r : Reader) : Reader :=
  {| mArgs := a; mL := mL r; mError := mError r; mParams := mParams r;
     mHeight := mHeight r; mTop := mTop r; mInKey := mInKey r;
     mInValue := mInValue r; mShouldSkip := mShouldSkip r |}.

Definition set_mL (L : lua_State) (r : Reader) : Reader :=
  {| mArgs := mArgs r; mL := L; mError := mError r; mParams := mParams r;
     mHeight := mHeight r; mTop := mTop r; mInKey := mInKey r;
     mInValue := mInValue r; mShouldSkip := mShouldSkip r |}.

Definition set_mError (e : option string) (r : Reader) : Reader :=
  {| mArgs := mArgs r; mL := mL r; mError := e; mParams := mParams r;
     mHeight := mHeight r; mTop := mTop r; mInKey := mInKey r;
     mInValue := mInValue r; mShouldSkip := mShouldSkip r |}.

Definition set_mParams (p : string) (r : Reader) : Reader :=
  {| mArgs := mArgs r; mL := mL r; mError := mError r; mParams := p;
     mHeight := mHeight r; mTop := mTop r; mInKey := mInKey r;
     mInValue := mInValue r; mShouldSkip := mShouldSkip r |}.

Definition set_mHeight (h : Z) (r : Reader) : Reader :=
  {| mArgs := mArgs r; mL := mL r; mError := mError r; mParams := mParams r;
     mHeight := h; mTop := mTop r; mInKey := mInKey r;
     mInValue := mInValue r; mShouldSkip := mShouldSkip r |}.

Definition set_mInKey (b : bool) (r : Reader) : Reader :=
  {| mArgs := mArgs r; mL := mL r; mError := mError r; mParams := mParams r;
     mHeight := mHeight r; mTop := mTop r; mInKey := b;
     mInValue := mInValue r; mShouldSkip := mShouldSkip r |}.

Definition set_mInValue (b : bool) (r : Reader) : Reader :=
  {| mArgs := mArgs r; mL := mL r; mError := mError r; mParams := mParams r;
     mHeight := mHeight r; mTop := mTop r; mInKey := mInKey r;
     mInValue := b; mShouldSkip := mShouldSkip r |}.

Definition set_mShouldSkip (b : bool) (r : Reader) : Reader :=
  {| mArgs := mArgs r; mL := mL r; mError := mError r; mParams := mParams r;
     mHeight := mHeight r; mTop := mTop r; mInKey := mInKey r;
     mInValue := mInValue r; mShouldSkip := b |}.

(** Reader(args, L, params, top). *)
Definition new_Reader (args : list va_value) (L : lua_State) (params : string)
    (top : Z) : Reader :=
  {| mArgs := args; mL := L; mError := None; mParams := params; mHeight := 0;
     mTop := top; mInKey := false; mInValue := false; mShouldSkip := false |}.

(** *mParams, the NUL at the end of the list. *)
Definition peek (r : Reader) : ascii :=
  match mParams r with
  | EmptyString => zero
  | String c _ => c
  end.

(** ++mParams. *)
Definition next_param (r : Reader) : Reader :=
  match mParams r with
  | EmptyString => r
  | String _ rest => set_mParams rest r
  end.

Definition onL {A} (m : M lua_State A) : M Reader A := zoom mL set_mL m.

(** Pushes unless the element is being skipped. *)
Definition push_unless_skipped (f : lua_State -> lua_State) : M Reader unit :=
  modify (fun r => if mShouldSkip r then r else set_mL (f (mL r)) r).

(** Error: passes an error down; the first one is kept. *)
Definition Error (error : string) : M Reader bool := fun r =>
  Ok false (match mError r with None => set_mError (Some error) r | Some _ => r end).

(** va_arg(mArgs, T) for the types the Reader asks for. *)
Definition va_arg {A} (as_type : va_value -> option A) : M Reader A := fun r =>
  match mArgs r with
  | v :: rest =>
      match as_type v with
      | Some a => Ok a (set_mArgs rest r)
      | None => Fault "va_arg: type mismatch"
      end
  | [] => Fault "va_arg: no argument left"
  end.

Definition as_int (v : va_value) : option Z :=
  match v with va_int i => Some i | _ => None end.
Definition as_bool (v : va_value) : option bool :=
  match v with va_bool b => Some b | _ => None end.
Definition as_double (v : va_value) : option lua_Number :=
  match v with va_double n => Some n | _ => None end.
Definition as_string (v : va_value) : option (option string) :=
  match v with va_string s => Some s | _ => None end.
Definition as_pointer (v : va_value) : option Z :=
  match v with va_pointer p => Some p | _ => None end.
Definition as_function (v : va_value) : option lua_CFunction :=
  match v with va_function f => Some f | _ => None end.

Definition is_pseudo (arg : Z) : bool :=
  (lua_upvalueindex 256 <=? arg) && (arg <=? LUA_REGISTRYINDEX).

(** The index [_a] works with: a negative one is taken relative to
    [mTop] under 'a' and to the current top under 'r'. *)
Definition resolve_index (r : Reader) (arg : Z) : Z :=
  if is_pseudo arg then arg
  else if arg <? 0 then
    arg + (if Ascii.eqb (peek r) "a" then mTop r else lua_gettop (mL r) + 1)
  else arg.

(** _a: loads a value from the stack. *)
Definition _a : M Reader bool :=
  let! arg0 := va_arg as_int in
  let! r := get in
  let arg := resolve_index r arg0 in
  if negb (is_pseudo arg0) && ((arg <=? 0) || (lua_gettop (mL r) <? arg)) then
    Error "Bad index"
  else if mInKey r && lua_isnil (mL r) arg then Error "Null key"
  else
    let! _ := push_unless_skipped (lua_pushvalue arg) in
    ret true.

(** _b: loads a boolean. *)
Definition _b : M Reader unit :=
  let! r := get in
  let! bArg := (if Ascii.eqb (peek r) "b" then va_arg as_bool
                else ret (Ascii.eqb (peek r) "T")) in
  push_unless_skipped (lua_pushboolean bArg).

(** _f: loads a function. *)
Definition _f : M Reader unit :=
  let! func := va_arg as_function in
  let! r := get in
  if mShouldSkip r then ret tt else onL (lua_pushcfunction func).

(** _i: loads an integer. *)
Definition _i : M Reader unit :=
  let! i := va_arg as_int in
  push_unless_skipped (lua_pushinteger i).

(** _n: loads a number. *)
Definition _n : M Reader unit :=
  let! n := va_arg as_double in
  push_unless_skipped (lua_pushnumber n).

(** _s: loads a string. *)
Definition _s : M Reader unit :=
  let! str := va_arg as_string in
  push_unless_skipped (lua_pushstring str).

(** _u: loads a userdata. *)
Definition _u : M Reader bool :=
  let! ud := va_arg as_pointer in
  let! r := get in
  if mShouldSkip r then ret true
  else if ud =? 0 then
    if Ascii.eqb (peek r) "U" then Error "Null userdata"
    else
      let! _ := modify (fun r => set_mL (lua_pushnil (mL r)) r) in
      ret true
  else
    let! _ := modify (fun r => set_mL (lua_pushlightuserdata ud (mL r)) r) in
    ret true.

(** _0: loads a nil. *)
Definition _0 : M Reader bool :=
  let! r := get in
  if mInKey r then Error "Null key"
  else
    let! _ := push_unless_skipped lua_pushnil in
    ret true.

(** _G: loads a global. *)
Definition _G : M Reader unit :=
  let! name := va_arg as_string in
  let! r := get in
  if mShouldSkip r then ret tt else onL (GetGlobal name).

(** The for loop of _table, one pass per unit of fuel. *)
Fixpoint _table_loop (ReadElement : M Reader bool) (fuel : nat) : M Reader bool :=
  match fuel with
  | O => fun _ => OutOfFuel
  | S fuel' =>
      let! r0 := get in
      let top := lua_gettop (mL r0) in
      let! more := ReadElement in
      if negb more then Error "Unclosed table"
      else
        let! r := get in
        if top <? lua_gettop (mL r) then
          let! _ := onL (Push (-2)) in
          let! _ := modify next_param in
          _table_loop ReadElement fuel'
        else if Ascii.eqb (peek r) "}" then
          let! _ := modify (set_mHeight (mHeight r - 1)) in
          ret true
        else
          let! _ := modify next_param in
          _table_loop ReadElement fuel'
  end.

(** _table: loads a table. *)
Definition _table (ReadElement : M Reader bool) (fuel : nat) : M Reader bool :=
  let! _ := modify (fun r => set_mHeight (mHeight r + 1) r) in
  let! _ := push_unless_skipped lua_newtable in
  let! _ := modify next_param in
  _table_loop ReadElement fuel.

(** _C: processes a conditional. *)
Definition _C (ReadElement : M Reader bool) : M Reader bool :=
  let! r := get in
  if mInKey r then Error "Conditional key"
  else if mInValue r then Error "Conditional value"
  else
    let! _ := modify next_param in
    let bSkipSave := mShouldSkip r in
    let! arg := va_arg as_bool in
    let bDoSkip := negb arg in
    let! _ := modify (fun r => if mShouldSkip r then r else set_mShouldSkip bDoSkip r) in
    let! more := ReadElement in
    if negb more then Error "Unfinished condition"
    else
      let! _ := modify (set_mShouldSkip bSkipSave) in
      ret true.

(** _K: processes a key. *)
Definition _K (ReadElement : M Reader bool) : M Reader bool :=
  let! _ := modify next_param in
  let! _ := modify (set_mInKey true) in
  let! more := ReadElement in
  if negb more then Error "Missing key"
  else
    let! _ := modify next_param in
    let! _ := modify (set_mInKey false) in
    let! _ := modify (set_mInValue true) in
    let! more := ReadElement in
    if negb more then Error "Missing value"
    else
      let! _ := modify (set_mInValue false) in
      let! r := get in
      let! _ := (if mShouldSkip r then ret tt else onL (lua_settable (-3))) in
      ret true.

Definition isspace (c : ascii) : bool :=
  let n := nat_of_ascii c in
  (n =? 32)%nat || ((9 <=? n)%nat && (n <=? 13)%nat).

(** while (isspace( *mParams)) ++mParams. *)
Fixpoint skip_spaces (p : string) : string :=
  match p with
  | EmptyString => EmptyString
  | String c rest => if isspace c then skip_spaces rest else p
  end.

Definition done (m : M Reader unit) : M Reader bool :=
  let! _ := m in ret true.

(** ReadElement: reads an element from the parameter set; the result
    tells whether parameters remain. Every nested call spends one unit
    of fuel. *)
Fixpoint ReadElement (fuel : nat) : M Reader bool :=
  match fuel with
  | O => fun _ => OutOfFuel
  | S fuel' =>
      let! _ := modify (fun r => set_mParams (skip_spaces (mParams r)) r) in
      let! r := get in
      match mParams r with
      | EmptyString => ret false
      | String c _ =>
          if Ascii.eqb c "a" || Ascii.eqb c "r" then _a
          else if Ascii.eqb c "b" || Ascii.eqb c "T" || Ascii.eqb c "F" then done _b
          else if Ascii.eqb c "f" then done _f
          else if Ascii.eqb c "i" then done _i
          else if Ascii.eqb c "n" then done _n
          else if Ascii.eqb c "s" then done _s
          else if Ascii.eqb c "u" || Ascii.eqb c "U" then _u
          else if Ascii.eqb c "0" then _0
          else if Ascii.eqb c "g" then done _G
          else if Ascii.eqb c "{" then _table (ReadElement fuel') fuel'
          else if Ascii.eqb c "}" then
            if mHeight r =? 0 then Error "Unopened table" else ret true
          else if Ascii.eqb c "C" then _C (ReadElement fuel')
          else if Ascii.eqb c "K" then
            if mHeight r =? 0 then Error "Key outside table"
            else _K (ReadElement fuel')
          else Error "Bad type"
      end
  end.

(** while (r.ReadElement()) ++r.mParams. *)
Fixpoint read_all (fuel : nat) : M Reader unit :=
  match fuel with
  | O => fun _ => OutOfFuel
  | S fuel' =>
      let! more := ReadElement (S fuel') in
      if more then
        let! _ := modify next_param in
        read_all fuel'
      else ret tt
  end.

(** How a call of CallCore ends for its C++ caller: it returns a
    result count, throws a Types::LuaString, or is left by a Lua error
    raised with lua_error. *)
Inductive Completion :=
| Returned (results : Z) (L : lua_State)
| Thrown (error : string) (L : lua_State)
| Raised (e : Value) (L : lua_State)
| Undefined (why : string)
| Exhausted.

Definition complete (o : Outcome lua_State Completion) : Completion :=
  match o with
  | Ok c _ => c
  | Raise e L => Raised e L
  | Fault why => Undefined why
  | OutOfFuel => Exhausted
  end.

(** The parse of CallCore: the Reader after the loop, and the new
    count. *)
Definition marshal (L : lua_State) (count : Z) (params : string)
    (args : list va_value) : Outcome Reader Z :=
  let top := lua_gettop L in
  let r := new_Reader args L params (top - count) in
  match params with
  | EmptyString => Ok count r
  | _ =>
      (let! _ := read_all (S (String.length params)) in
       let! r' := get in
       ret (count + (lua_gettop (mL r') - top))) r
  end.

(** The invocation of CallCore, from "int after" on. *)
Definition invoke (r : Reader) (count retc : Z) (bProtected : bool) : Completion :=
  let L := mL r in
  let after := lua_gettop L - count - 1 in
  if bProtected then
    match mError r with
    | Some error =>
        complete ((let! _ := lua_settop after in
                   let! L' := get in ret (Thrown error L')) L)
    | None =>
        complete ((let! status := PCall_EF count retc in
                   if negb (status =? 0) then
                     let! error := luaL_optstring (-1) "Caught non-string error" in
                     let! _ := lua_settop after in
                     let! L' := get in ret (Thrown error L')
                   else
                     let! L' := get in ret (Returned (lua_gettop L' - after) L')) L)
    end
  else
    complete ((let! _ := lua_call count retc in
               let! L' := get in ret (Returned (lua_gettop L' - after) L')) L).

(** CallCore: the core operation for calls made from the C++ end. *)
Definition CallCore (L : lua_State) (count retc : Z) (params : string)
    (args : list va_value) (bProtected : bool) : Completion :=
  match marshal L count params args with
  | Ok count' r =>
      match mError r with
      | Some error =>
          if negb bProtected then complete (luaL_error error (mL r))
          else invoke r count' retc bProtected
      | None => invoke r count' retc bProtected
      end
  | Raise e r => Raised e (mL r)
  | Fault why => Undefined why
  | OutOfFuel => Exhausted
  end.

End Support.

(** ** Native memory *)

Section Memory.
Context `{Platform}.

(** The [n] cells from address [a] on, when all are allocated. *)
Fixpoint load_cells (m : gmap Z memval) (a : Z) (n : nat) : option (list memval) :=
  match n with
  | O => Some []
  | S n' =>
      match m !! a, load_cells m (a + 1) n' with
      | Some c, Some cells => Some (c :: cells)
      | _, _ => None
      end
  end.

(** A store faults unless every cell it writes is allocated. *)
Fixpoint write_cells (m : gmap Z memval) (a : Z) (cells : list memval) : gmap Z memval :=
  match cells with
  | [] => m
  | c :: cells' => write_cells (<[a := c]> m) (a + 1) cells'
  end.

Definition store_cells (m : gmap Z memval) (a : Z) (cells : list memval)
    : option (gmap Z memval) :=
  match load_cells m a (length cells) with
  | Some _ => Some (write_cells m a cells)
  | None => None
  end.

(** Little-endian integers of [n] bytes. *)
Fixpoint le_encode (n : nat) (z : Z) : list memval :=
  match n with
  | O => []
  | S n' => MByte (z mod 256) :: le_encode n' (z / 256)
  end.

Fixpoint le_decode (cells : list memval) : option Z :=
  match cells with
  | [] => Some 0
  | MByte b :: cells' =>
      match le_decode cells' with
      | Some z => Some (b + 256 * z)
      | None => None
      end
  | _ => None
  end.

Definition load_unsigned (m : gmap Z memval) (a : Z) (n : nat) : option Z :=
  match load_cells m a n with
  | Some cells => le_decode cells
  | None => None
  end.

Definition load_signed (m : gmap Z memval) (a : Z) (n : nat) : option Z :=
  match load_unsigned m a n with
  | Some z => Some (wrap_signed (8 * Z.of_nat n) z)
  | None => None
  end.

Definition store_int (m : gmap Z memval) (a : Z) (n : nat) (z : Z)
    : option (gmap Z memval) :=
  store_cells m a (le_encode n z).

Definition float_cells (f : float) : list memval := MFloat f <$> seq 0 4.
Definition double_cells (d : lua_Number) : list memval := MDouble d <$> seq 0 8.

Definition load_float (m : gmap Z memval) (a : Z) : option float :=
  match load_cells m a 4 with
  | Some (MFloat f 0 :: rest) =>
      if decide (MFloat f 0 :: rest = float_cells f) then Some f else None
  | _ => None
  end.

Definition load_double (m : gmap Z memval) (a : Z) : option lua_Number :=
  match load_cells m a 8 with
  | Some (MDouble d 0 :: rest) =>
      if decide (MDouble d 0 :: rest = double_cells d) then Some d else None
  | _ => None
  end.

Definition word_size : nat := Z.to_nat word_bytes.

Definition load_pointer (m : gmap Z memval) (a : Z) : option Z :=
  load_unsigned m a word_size.

Definition store_pointer (m : gmap Z memval) (a p : Z) : option (gmap Z memval) :=
  store_int m a word_size p.

End Memory.

(** ** Arg.cpp: validated access to stack arguments *)

Module Arg.
Section Access.
Context `{Platform}.

(** Signed access: (signed char)luaL_checkint(L, index), and so on;
    long is as wide as int. *)
Definition sC (index : Z) : M lua_State Z :=
  let! i := luaL_checkint index in ret (wrap_signed 8 i).
Definition sS (index : Z) : M lua_State Z :=
  let! i := luaL_checkint index in ret (wrap_signed 16 i).
Definition sL (index : Z) : M lua_State Z :=
  let! i := luaL_checkint index in ret (wrap_signed 32 i).
Definition sI (index : Z) : M lua_State Z :=
  let! i := luaL_checkint index in ret (wrap_signed 32 i).

(** Unsigned access. *)
Definition uC (index : Z) : M lua_State Z :=
  let! i := luaL_checkint index in ret (wrap_unsigned 8 i).
Definition uS (index : Z) : M lua_State Z :=
  let! i := luaL_checkint index in ret (wrap_unsigned 16 i).
Definition uL (index : Z) : M lua_State Z :=
  let! i := luaL_checkint index in ret (wrap_unsigned 32 i).
Definition uI (index : Z) : M lua_State Z :=
  let! i := luaL_checkint index in ret (wrap_unsigned 32 i).

(** Floating point access. *)
Definition F (index : Z) : M lua_State float :=
  let! n := luaL_checknumber index in ret (num2float n).
Definition D (index : Z) : M lua_State lua_Number :=
  luaL_checknumber index.

(** Boolean access: luaL_checktype(L, index, LUA_TBOOLEAN), then
    lua_toboolean. *)
Definition B (index : Z) : M lua_State bool :=
  luaL_checkboolean index.

(** Memory access. *)
Definition UD (index : Z) : M lua_State Z := fun L =>
  if lua_isuserdata L index then Ok (lua_touserdata L index) L
  else luaL_error ("Argument " +:+ pretty index +:+ " is not a userdata") L.

(** String access: the const char * of the runtime's copy. *)
Definition S (index : Z) : M lua_State Z :=
  let! str := luaL_checkstring index in ret (str_ptr str).

End Access.
End Arg.

(** ** Peer.h, Peer.cpp: member binding *)

Section Peer.
Context `{Interp}.

(** Member_Reg::Type, in the order of the enumeration. *)
Inductive MemberType :=
| ePointer
| eSChar | eSShort | eSLong | eSInt
| eUChar | eUShort | eULong | eUInt
| eString
| eBoolean
| eFloat | eDouble.

Definition type_code (t : MemberType) : Z :=
  match t with
  | ePointer => 0
  | eSChar => 1 | eSShort => 2 | eSLong => 3 | eSInt => 4
  | eUChar => 5 | eUShort => 6 | eULong => 7 | eUInt => 8
  | eString => 9
  | eBoolean => 10
  | eFloat => 11 | eDouble => 12
  end.

Definition all_types : list MemberType :=
  [ePointer; eSChar; eSShort; eSLong; eSInt; eUChar; eUShort; eULong; eUInt;
   eString; eBoolean; eFloat; eDouble].

Definition type_of_code (code : Z) : option MemberType :=
  if (0 <=? code) then all_types !! Z.to_nat code else None.

(** struct Member_Reg. *)
Record Member_Reg := {
  mOffset : Z;
  mName : string;
  mType : MemberType
}.

(** Data indices and descriptor indices. *)
Definition eDescriptors : Z := 1.
Definition eBoxed : Z := 2.
Definition eDOffset : Z := 1.
Definition eDName : Z := 2.
Definition eDType : Z := 3.

(** A value of an integer type passed as lua_Integer (ptrdiff_t). *)
Definition as_lua_Integer (z : Z) : Z := wrap_signed (8 * word_bytes) z.

Definition read {A} (o : option A) : M lua_State A :=
  match o with
  | Some a => ret a
  | None => fault "read of memory that is unallocated or holds another type"
  end.

Definition write (o : option (gmap Z memval)) : M lua_State unit :=
  match o with
  | Some m => modify (fun L => set_heap (set_memory m (heap L)) L)
  | None => fault "write to unallocated memory"
  end.

(** GetFields: gets member fields; the result points to field memory. *)
Definition GetFields : M lua_State Z :=
  let! _ := lua_rawgeti (-1) eDOffset in
  let! _ := lua_rawgeti (-2) eDType in
  let! ud := Arg.UD 1 in
  let! offset := Arg.uI (-2) in
  ret (ud + offset).

(** IndexMember: indexes a member. *)
Definition IndexMember : M lua_State unit :=
  let! pData := GetFields in
  let! code := Arg.uI 6 in
  let! L := get in
  let m := memory (heap L) in
  match type_of_code code with
  | Some ePointer =>
      let! p := read (load_pointer m pData) in modify (lua_pushlightuserdata p)
  | Some eSChar =>
      let! i := read (load_signed m pData 1) in modify (lua_pushinteger (as_lua_Integer i))
  | Some eSShort =>
      let! i := read (load_signed m pData 2) in modify (lua_pushinteger (as_lua_Integer i))
  | Some eSLong =>
      let! i := read (load_signed m pData 4) in modify (lua_pushinteger (as_lua_Integer i))
  | Some eSInt =>
      let! i := read (load_signed m pData 4) in modify (lua_pushinteger (as_lua_Integer i))
  | Some eUChar =>
      let! i := read (load_unsigned m pData 1) in modify (lua_pushinteger (as_lua_Integer i))
  | Some eUShort =>
      let! i := read (load_unsigned m pData 2) in modify (lua_pushinteger (as_lua_Integer i))
  | Some eULong =>
      let! i := read (load_unsigned m pData 4) in modify (lua_pushinteger (as_lua_Integer i))
  | Some eUInt =>
      let! i := read (load_unsigned m pData 4) in modify (lua_pushinteger (as_lua_Integer i))
  | Some eFloat =>
      let! f := read (load_float m pData) in modify (lua_pushnumber (float2num f))
  | Some eDouble =>
      let! d := read (load_double m pData) in modify (lua_pushnumber d)
  | Some eString =>
      let! p := read (load_pointer m pData) in modify (lua_pushstring (c_str p))
  | Some eBoolean =>
      let! b := read (load_unsigned m pData 1) in modify (lua_pushboolean (negb (b =? 0)))
  | None => luaL_error "Member __index: Bad type"
  end.

(** Set: *(T * )pData = func(L, 3), for an integer type of [n] bytes. *)
Definition Set_int (pData : Z) (n : nat) (func : Z -> M lua_State Z) : M lua_State unit :=
  let! v := func 3 in
  let! L := get in
  write (store_int (memory (heap L)) pData n v).

(** NewIndexMember: assigns to a member. *)
Definition NewIndexMember : M lua_State unit :=
  let! pData := GetFields in
  let! code := Arg.uI 7 in
  match type_of_code code with
  | Some ePointer => Set_int pData word_size Arg.UD
  | Some eSChar => Set_int pData 1 Arg.sC
  | Some eSShort => Set_int pData 2 Arg.sS
  | Some eSLong => Set_int pData 4 Arg.sL
  | Some eSInt => Set_int pData 4 Arg.sI
  | Some eUChar => Set_int pData 1 Arg.uC
  | Some eUShort => Set_int pData 2 Arg.uS
  | Some eULong => Set_int pData 4 Arg.uL
  | Some eUInt => Set_int pData 4 Arg.uI
  | Some eFloat =>
      let! f := Arg.F 3 in
      let! L := get in
      write (store_cells (memory (heap L)) pData (float_cells f))
  | Some eDouble =>
      let! d := Arg.D 3 in
      let! L := get in
      write (store_cells (memory (heap L)) pData (double_cells d))
  | Some eString => Set_int pData word_size Arg.S
  | Some eBoolean =>
      Set_int pData 1 (fun index => let! b := Arg.B index in ret (if b then 1 else 0))
  | None => luaL_error "Member __newindex: Bad type"
  end.

(** Lookup: looks up member data. Upvalue 1 holds the boxed boolean. *)
Definition Lookup : M lua_State unit :=
  let! _ := lua_rawgeti (lua_upvalueindex 1) eBoxed in
  let! L := get in
  let bBoxed := lua_toboolean L (-1) in
  let! _ := lua_pop 1 in
  if bBoxed then
    let! ud := Arg.UD 1 in
    let! L := get in
    let! p := read (load_pointer (memory (heap L)) ud) in
    modify (lua_pushlightuserdata p)
  else modify (lua_pushvalue 1).

(** Index: the __index closure. Upvalue 1: member descriptors and
    boxed boolean; upvalue 2: member getter table. *)
Definition Index : M lua_State Z :=
  let! _ := Lookup in
  let! _ := modify (lua_pushvalue 2) in
  let! _ := lua_gettable (lua_upvalueindex 2) in
  let! L := get in
  if negb (lua_isnil L 4) then
    let! _ := lua_insert 1 in
    let! _ := lua_call 3 1 in
    ret 1
  else
    let! _ := lua_pop 1 in
    let! _ := lua_replace 1 in
    let! _ := lua_rawgeti (lua_upvalueindex 1) eDescriptors in
    let! _ := modify (lua_pushvalue 2) in
    let! _ := lua_gettable 3 in
    let! L := get in
    let! _ := (if negb (lua_isnil L 4) then IndexMember else ret tt) in
    ret 1.

(** NewIndex: the __newindex closure. Upvalue 2: member setter table. *)
Definition NewIndex : M lua_State Z :=
  let! _ := Lookup in
  let! _ := modify (lua_pushvalue 2) in
  let! _ := lua_gettable (lua_upvalueindex 2) in
  let! L := get in
  if negb (lua_isnil L 5) then
    let! _ := lua_insert 1 in
    let! _ := lua_call 4 0 in
    ret 0
  else
    let! _ := lua_pop 1 in
    let! _ := lua_replace 1 in
    let! _ := lua_rawgeti (lua_upvalueindex 1) eDescriptors in
    let! _ := modify (lua_pushvalue 2) in
    let! _ := lua_gettable 4 in
    let! L := get in
    let! _ := (if negb (lua_isnil L 5) then NewIndexMember else ret tt) in
    ret 0.

(** The loop of BindPeer that builds up member data. *)
Fixpoint BindPeer_members (members : list Member_Reg) : M lua_State unit :=
  match members with
  | [] => ret tt
  | member :: members' =>
      let! _ := modify (lua_pushstring (Some (mName member))) in
      let! _ := modify lua_createtable in
      let! _ := modify (lua_pushinteger (as_lua_Integer (mOffset member))) in
      let! _ := modify (lua_pushinteger (type_code (mType member))) in
      let! _ := lua_rawseti (-3) eDType in
      let! _ := lua_rawseti (-2) eDOffset in
      let! _ := lua_settable (-3) in
      BindPeer_members members'
  end.

Definition register_if_given (funcs : option (list (string * lua_CFunction)))
    : M lua_State unit :=
  match funcs with
  | Some l => luaL_register l
  | None => ret tt
  end.

(** BindPeer: pushes the __index and __newindex member binding
    closures onto the stack. [members] stands for the array and its
    count; a failed assert is the end of the program. *)
Definition BindPeer (getters setters : option (list (string * lua_CFunction)))
    (members : option (list Member_Reg)) (bBoxed : bool) : M lua_State unit :=
  if negb (bool_decide (is_Some getters) || bool_decide (is_Some setters)
           || match members with Some (_ :: _) => true | _ => false end)
  then fault "assert(getters != 0 || setters != 0 || (members != 0 && count > 0))"
  else
    let! _ := modify lua_createtable in
    let! _ := modify lua_createtable in
    let! _ := BindPeer_members (default [] members) in
    let! _ := lua_rawseti (-2) eDescriptors in
    let! _ := modify (lua_pushboolean bBoxed) in
    let! _ := lua_rawseti (-2) eBoxed in
    let! _ := modify (lua_pushvalue (-1)) in
    let! _ := modify lua_newtable in
    let! _ := register_if_given getters in
    let! _ := lua_pushcclosure fn_Index 2 in
    let! _ := lua_insert (-2) in
    let! _ := modify lua_newtable in
    let! _ := register_if_given setters in
    lua_pushcclosure fn_NewIndex 2.

(** The frame the runtime gives a C closure when it calls it. *)
Definition enter (h : Heap) (cl : Closure) (args : list Value)
    (active : list lua_Debug) : lua_State :=
  {| heap := h; stack := args; upvalues := cl_upvalues cl;
     environ := VTable (globals h); callers := active; calls := [] |}.

End Peer.

(** ** Templates.h: the reference-counted boxed setter *)

Section Templates.
Context `{Platform}.

Inductive RefEvent :=
| AddRef_called (object : Z)
| Release_called (object : Z)
| destroyed (object : Z).

(** Modelled from the spec: the reference-counted class T that
    luaT_boxed_set_ref is instantiated with. Its AddRef and Release are
    not in the sources; by the spec AddRef increments the count of the
    object by 1, Release decrements it by 1 and frees the object at 0.
    [counts] holds the live objects by address; [history] logs the
    calls in order. *)
Record Refs := {
  counts : gmap Z nat;
  history : list RefEvent
}.

Record TState := {
  tL : lua_State;
  tRefs : Refs
}.

Definition set_tL (L : lua_State) (t : TState) : TState :=
  {| tL := L; tRefs := tRefs t |}.

Definition onState {A} (m : M lua_State A) : M TState A := zoom tL set_tL m.

(** Modelled from the spec: value->AddRef(). *)
Definition AddRef (object : Z) : M TState unit := fun t =>
  match counts (tRefs t) !! object with
  | Some c =>
      Ok tt {| tL := tL t;
               tRefs := {| counts := <[object := S c]> (counts (tRefs t));
                           history := history (tRefs t) ++ [AddRef_called object] |} |}
  | None => Fault "AddRef on an object that is not alive"
  end.

(** Modelled from the spec: ( *target)->Release(). *)
Definition Release (object : Z) : M TState unit := fun t =>
  match counts (tRefs t) !! object with
  | Some (S (S c)) =>
      Ok tt {| tL := tL t;
               tRefs := {| counts := <[object := S c]> (counts (tRefs t));
                           history := history (tRefs t) ++ [Release_called object] |} |}
  | Some 1%nat =>
      Ok tt {| tL := tL t;
               tRefs := {| counts := delete object (counts (tRefs t));
                           history := history (tRefs t)
                                      ++ [Release_called object; destroyed object] |} |}
  | _ => Fault "Release on an object that holds no reference"
  end.

(** luaT_boxed_set_ref(L, dest, value, bCheckTarget): the boxed member
    direct set, reference count version. *)
Definition luaT_boxed_set_ref (dest value : Z) (bCheckTarget : bool) : M TState Z :=
  let! target := onState (Arg.UD dest) in
  let! _ := (if negb (value =? 0) then AddRef value else ret tt) in
  let! _ := (if bCheckTarget then
               let! t := get in
               let! old := onState (read (load_pointer (memory (heap (tL t))) target)) in
               if negb (old =? 0) then Release old else ret tt
             else ret tt) in
  let! t := get in
  let! _ := onState (write (store_pointer (memory (heap (tL t))) target value)) in
  ret 0.

End Templates.

(** ** An example platform and runtime

    Numbers are the integers (a double holds every integer the examples
    use), a float is an integer as well, and the interned copy of a
    string sits at the address that encodes it. *)

#[refine] Instance example_platform (bytes : Z) (Hbytes : bytes = 4 \/ bytes = 8)
    : Platform := {|
  lua_Number := Z;
  float := Z;
  word_bytes := bytes;
  int2num z := z;
  num2int z := z;
  float2num z := z;
  num2float z := z;
  num2str z := pretty z;
  str2num _ := None;
  str_ptr s := Zpos (encode s);
  c_str p := match p with Zpos q => c_prefix <$> decode q | _ => None end;
  code_addr f :=
    match f with
    | fn_ErrorFunc => 4096
    | fn_Index => 4352
    | fn_NewIndex => 4608
    | fn_extern addr => addr
    end
|}.
Proof.
  - exact Hbytes.
  - reflexivity.
  - reflexivity.
  - reflexivity.
  - discriminate.
  - intros s. change (c_prefix <$> decode (encode s) = Some (c_prefix s)).
    rewrite decode_encode. reflexivity.
Defined.

Definition win32 : Platform := example_platform 4 (or_introl eq_refl).
Definition win64 : Platform := example_platform 8 (or_intror eq_refl).

Definition example_frame : lua_Debug :=
  {| source := "@boot.lua"; short_src := "boot.lua"; currentline := 7 |}.

(** The foreign functions of the examples, by address: 1 returns its
    arguments, 2 raises the string "boom", 3 raises a table, 4 returns
    nothing. Any other value cannot be called. *)
Definition example_run `{Platform} (h : Heap) (f : Value) (args : list Value) : CallResult :=
  match f with
  | VFunction ref =>
      match cl_fn <$> closures h !! ref with
      | Some (fn_extern 1) => CallOk args h
      | Some (fn_extern 2) => CallErr (ErrorCall (VString "boom") example_frame []) h
      | Some (fn_extern 3) => CallErr (ErrorCall (VTable 0) example_frame []) h
      | Some (fn_extern 4) => CallOk [] h
      | _ => CallErr (RuntimeError "attempt to call a function value" []) h
      end
  | _ =>
      CallErr (RuntimeError ("attempt to call a " +:+ typename (Some f) +:+ " value") []) h
  end.

Definition example_interp (P : Platform) : @Interp P :=
  {| run_callable := example_run; run_handler h f e := (e, h) |}.

Definition example_heap `{Platform} : Heap :=
  {| tables := [[]; []];
     closures := [ {| cl_fn := fn_extern 1; cl_upvalues := [] |};
                   {| cl_fn := fn_extern 2; cl_upvalues := [] |};
                   {| cl_fn := fn_extern 3; cl_upvalues := [] |};
                   {| cl_fn := fn_extern 4; cl_upvalues := [] |} ];
     registry := 0%nat;
     globals := 1%nat;
     memory := ∅ |}.

Definition example_state `{Platform} (s : list Value) : lua_State :=
  {| heap := example_heap; stack := s; upvalues := []; environ := VTable 1;
     callers := []; calls := [] |}.

(** ** The inputs of the examples (32-bit platform) *)

Section ExampleDefs.
#[local] Existing Instance win32 | 0.

Definition win32_interp : @Interp win32 := example_interp win32.
#[local] Existing Instance win32_interp | 0.

(** A number of the example platform. *)
Definition num (z : Z) : @Value win32 := VNumber z.

(** The states CallCore is entered in: the callable on top of one
    slot, and the callable with one argument pushed after it. *)
Definition echo_state : lua_State := example_state [num 5; VFunction 0].
Definition boom_state : lua_State := example_state [num 5; VFunction 1; num 6].
Definition three_slots : lua_State := example_state [num 5; VFunction 0; num 9].

(** A struct of two members, bound with one getter and one setter. *)
Definition example_members : list Member_Reg :=
  [ {| mOffset := 0; mName := "x"; mType := eSInt |};
    {| mOffset := 4; mName := "mass"; mType := eUInt |} ].

Definition example_bound (boxed : bool) : lua_State :=
  match BindPeer (Some [("name", fn_extern 1)]) (Some [("name", fn_extern 4)])
          (Some example_members) boxed (example_state []) with
  | Ok _ L => L
  | _ => example_state []
  end.

(** The struct lies at address 8192; the box at 8448 points to it. *)
Definition example_memory : gmap Z memval :=
  write_cells (write_cells ∅ 8192 (replicate 8 (MByte 0))) 8448 (le_encode 4 8192).

Definition example_bridge (boxed : bool) : Heap :=
  set_memory example_memory (heap (example_bound boxed)).

Definition example_closure (h : Heap) (ref : nat) : Closure :=
  default {| cl_fn := fn_extern 0; cl_upvalues := [] |} (closures h !! ref).

Definition example_table (h : Heap) (ref : nat) : Table := default [] (tables h !! ref).

Definition example_reader : Reader :=
  {| mArgs := [va_int 1]; mL := example_state [num 5; VFunction 0; VTable 0];
     mError := None; mParams := "K 0 i }"; mHeight := 1; mTop := 2;
     mInKey := false; mInValue := false; mShouldSkip := false |}.

Definition example_refs : TState :=
  {| tL := {| heap := example_bridge true; stack := [VUserdata 8448 4]; upvalues := [];
              environ := VTable 1; callers := []; calls := [] |};
     tRefs := {| counts := {[ 8192 := 1%nat; 12288 := 1%nat ]}; history := [] |} |}.
End ExampleDefs.

(** * Vocabulary of the properties *)

Section Vocabulary.
Context `{Interp}.

(** [quiet m]: [m] ends without fuel trouble and logs no call. *)
Definition quiet {A} (m : M lua_State A) : Prop :=
  forall L,
    match m L with
    | Ok _ L' | Raise _ L' => calls L' = calls L
    | Fault _ => True
    | OutOfFuel => False
    end.

(** [ends m]: [m] never runs out of fuel. *)
Definition ends {S A} (m : M S A) : Prop := forall s, m s <> OutOfFuel.

(** What reading leaves as it is: the base of 'a' indices and the log
    of calls; the cursor only moves forward. *)
Definition stays (r r' : Reader) : Prop :=
  mTop r' = mTop r /\ calls (mL r') = calls (mL r)
  /\ (String.length (mParams r') <= String.length (mParams r))%nat.

(** A step that keeps the cursor where it is. *)
Definition steady {A} (m : M Reader A) : Prop :=
  forall r,
    match m r with
    | Ok _ r' =>
        mTop r' = mTop r /\ calls (mL r') = calls (mL r) /\ mParams r' = mParams r
    | Raise _ _ | Fault _ => True
    | OutOfFuel => False
    end.

(** What a call of ReadElement guarantees: it ends, and when it says
    that parameters remain the cursor is on a character. *)
Definition read_ok (r : Reader) (o : Outcome Reader bool) : Prop :=
  match o with
  | Ok more r' => stays r r' /\ (more = true -> (0 < String.length (mParams r'))%nat)
  | Raise _ _ | Fault _ => True
  | OutOfFuel => False
  end.

(** [height_by m d]: when [m] returns, the stack is [d] slots higher. *)
Definition height_by {A} (m : M lua_State A) (d : Z) : Prop :=
  forall L,
    match m L with
    | Ok _ L' => lua_gettop L' = lua_gettop L + d
    | _ => True
    end.

(** The key of a K directive is nil: it is the directive 0, or an a or
    r directive whose index is acceptable and names a slot holding nil. *)
Definition nil_key (r : Reader) (c : ascii) (q : string) : Prop :=
  c = "0"%char
  \/ ((c = "a"%char \/ c = "r"%char)
      /\ exists arg0 args,
           mArgs r = va_int arg0 :: args
           /\ let arg := resolve_index (set_mParams (String c q) r) arg0 in
              (is_pseudo arg0 = true \/ 1 <= arg <= lua_gettop (mL r))
              /\ lua_isnil (mL r) arg = true).

(** ** The error function of protected calls *)

(** The key under which CacheAndGet keeps ErrorFunc in the registry. *)
Definition ErrorFunc_key : Value := VLightUserdata (code_addr fn_ErrorFunc).

Definition is_ErrorFunc (h : Heap) (v : Value) : Prop :=
  exists ref cl, v = VFunction ref /\ closures h !! ref = Some cl /\ cl_fn cl = fn_ErrorFunc.

(** The registry is a table, and its entry for ErrorFunc is empty or
    the closure CacheAndGet stored there. *)
Definition handler_intact (h : Heap) : Prop :=
  exists reg,
    tables h !! registry h = Some reg
    /\ (tbl_get reg ErrorFunc_key = VNil \/ is_ErrorFunc h (tbl_get reg ErrorFunc_key)).

(** The state in which PCall_EF makes its call: ErrorFunc is cached in
    the registry; the stack is that of [L]. *)
Definition with_handler (L : lua_State) : lua_State :=
  match CacheAndGet fn_ErrorFunc L with
  | Ok _ L1 => set_stack (stack L) L1
  | _ => L
  end.

(** A failing call leaves the closures that exist as they are. *)
Definition closures_kept : Prop :=
  forall h f args fl h' ref cl,
    run_callable h f args = CallErr fl h' ->
    closures h !! ref = Some cl -> closures h' !! ref = Some cl.

(** A value lua_concat and luaL_optstring take for a string. *)
Definition stringy (v : Value) : Prop := is_Some (tostring v).

(** ** Peer bindings and native memory *)

(** The upvalues of a closure BindPeer built, in heap [h]: the data
    table with the boxed boolean, and the table of overrides. *)
Definition bridge_data (h : Heap) (cl : Closure) (boxed : bool) (overrides : Table) : Prop :=
  exists d o dt,
    cl_upvalues cl = [VTable d; VTable o]
    /\ tables h !! d = Some dt
    /\ tbl_get dt (VNumber (int2num eBoxed)) = VBoolean boxed
    /\ tables h !! o = Some overrides.

(** The descriptor table of the closure. *)
Definition bridge_descriptors (h : Heap) (cl : Closure) (descriptors : Table) : Prop :=
  exists d dt m,
    cl_upvalues cl !! 0%nat = Some (VTable d)
    /\ tables h !! d = Some dt
    /\ tbl_get dt (VNumber (int2num eDescriptors)) = VTable m
    /\ tables h !! m = Some descriptors.

(** The address a handle stands for. *)
Definition handle_address (object : Value) : option Z :=
  match object with
  | VUserdata block _ => Some block
  | VLightUserdata p => Some p
  | _ => None
  end.

(** The data value Lookup pushes: the boxed pointer as a light
    userdata, or the object itself. *)
Definition base_value (h : Heap) (boxed : bool) (object : Value) : option Value :=
  if boxed then
    match handle_address object with
    | Some a =>
        match load_pointer (memory h) a with
        | Some p => Some (VLightUserdata p)
        | None => None
        end
    | None => None
    end
  else Some object.

(** The address of the struct a handle stands for. *)
Definition struct_address (h : Heap) (boxed : bool) (object : Value) : option Z :=
  match handle_address object with
  | Some a => if boxed then load_pointer (memory h) a else Some a
  | None => None
  end.

(** The entry of one member in the descriptor table. *)
Definition descriptor (h : Heap) (descriptors : Table) (key : Value) (offset : Z)
    (ty : MemberType) : Prop :=
  exists k kt,
    tbl_get descriptors key = VTable k
    /\ tables h !! k = Some kt
    /\ tbl_get kt (VNumber (int2num eDOffset)) = VNumber (int2num offset)
    /\ tbl_get kt (VNumber (int2num eDType)) = VNumber (int2num (type_code ty)).

(** sizeof of the member's type. *)
Definition type_size (ty : MemberType) : nat :=
  match ty with
  | ePointer | eString => word_size
  | eSChar | eUChar | eBoolean => 1
  | eSShort | eUShort => 2
  | eSLong | eSInt | eULong | eUInt | eFloat => 4
  | eDouble => 8
  end.

(** The Lua values that stand for a value of the member's type: an
    integer of the type's range, a float widened to a number, any
    number for a double, a light userdata for a pointer, a string
    without NUL for a C string, a boolean. *)
Definition member_value (ty : MemberType) (v : Value) : Prop :=
  match ty with
  | ePointer => exists p, v = VLightUserdata p /\ 0 <= p < 2 ^ (8 * word_bytes)
  | eSChar => exists z, v = VNumber (int2num z) /\ - 2 ^ 7 <= z < 2 ^ 7
  | eSShort => exists z, v = VNumber (int2num z) /\ - 2 ^ 15 <= z < 2 ^ 15
  | eSLong | eSInt => exists z, v = VNumber (int2num z) /\ - 2 ^ 31 <= z < 2 ^ 31
  | eUChar => exists z, v = VNumber (int2num z) /\ 0 <= z < 2 ^ 8
  | eUShort => exists z, v = VNumber (int2num z) /\ 0 <= z < 2 ^ 16
  | eULong | eUInt => exists z, v = VNumber (int2num z) /\ 0 <= z < 2 ^ 32
  | eFloat => exists f, v = VNumber (float2num f)
  | eDouble => exists d, v = VNumber d
  | eString =>
      exists s, v = VString s /\ c_prefix s = s /\ 0 <= str_ptr s < 2 ^ (8 * word_bytes)
  | eBoolean => exists b, v = VBoolean b
  end.

(** The same, with the integer of an unsigned int or long member held
    by lua_Integer (ptrdiff_t) as well: this leaves out the upper half of
    their range when lua_Integer is 32 bits wide. *)
Definition fits (ty : MemberType) (v : Value) : Prop :=
  match ty with
  | eULong | eUInt =>
      exists z, v = VNumber (int2num z) /\ 0 <= z < 2 ^ 32 /\ z < 2 ^ (8 * word_bytes - 1)
  | _ => member_value ty v
  end.

(** The cells of native memory that hold a member's value. *)
Definition member_cells (ty : MemberType) (v : Value) : list memval :=
  match ty, v with
  | ePointer, VLightUserdata p => le_encode word_size p
  | eString, VString s => le_encode word_size (str_ptr s)
  | eBoolean, VBoolean b => le_encode 1 (if b then 1 else 0)
  | eFloat, VNumber n => float_cells (num2float n)
  | eDouble, VNumber n => double_cells n
  | _, VNumber n => le_encode (type_size ty) (num2int n)
  | _, _ => []
  end.

(** ** Reference counts *)

(** The calls luaT_boxed_set_ref makes for a new value and an old one. *)
Definition retained (value : Z) : list RefEvent :=
  if value =? 0 then [] else [AddRef_called value].

Definition released (old : Z) (count : nat) : list RefEvent :=
  if old =? 0 then []
  else if (count =? 1)%nat then [Release_called old; destroyed old]
  else [Release_called old].

End Vocabulary.

(** * More of the bridge: definitions *)

Section MoreHelpers.
Context `{Interp}.

(** Pop: pops the last element from a table. The int arithmetic of
    these helpers is exact (overflow is undefined in C). *)
Definition Pop (index : Z) (bPutOnStack : bool) : M lua_State unit := fun L =>
  let index := IndexAbsolute L index in
  let top := GetN L index in
  (let! _ := (if bPutOnStack then lua_rawgeti index top else ret tt) in
   let! _ := modify lua_pushnil in
   lua_rawseti index top) L.

(** Top: pushes the top table element onto the stack. *)
Definition Top (index : Z) : M lua_State unit := fun L =>
  lua_rawgeti index (GetN L index) L.

(** for (int i = start; i <= end; ++i) lua_rawgeti(L, source, i), with
    [n] passes left. *)
Fixpoint Unpack_loop (source i : Z) (n : nat) : M lua_State unit :=
  match n with
  | O => ret tt
  | S n' => let! _ := lua_rawgeti source i in Unpack_loop source (i + 1) n'
  end.

(** Unpack: gets a series of indexed elements from a source. *)
Definition Unpack (source start end_ : Z) : M lua_State unit := fun L =>
  let source := IndexAbsolute L source in
  if (start <? 0) || (end_ <? 0) then
    let count := GetN L source in
    let start' := if start <? 0 then count + start + 1 else start in
    let end' := if end_ <? 0 then count + end_ + 1 else end_ in
    if start' <=? end' then Unpack_loop source start' (Z.to_nat (end' - start' + 1)) L
    else Fault "assert(start <= end)"
  else Unpack_loop source start (Z.to_nat (end_ - start + 1)) L.

(** The integer key [i] of a table. *)
Definition key (i : Z) : Value := VNumber (int2num i).

(** [t] is a list of length [n]: of the keys 1, 2, ... exactly 1 to [n]
    hold a value, so that [n] is its only border. *)
Definition sequence (t : Table) (n : Z) : Prop :=
  0 <= n /\ forall i, 1 <= i <= 2 ^ 53 -> (tbl_get t (key i) <> VNil <-> i <= n).

(** The elements [first], ..., [last] of [t]. *)
Definition elements (t : Table) (first last : Z) : list Value :=
  (fun i => tbl_get t (key i)) <$> seqZ first (last - first + 1).

End MoreHelpers.

Section MoreGlobals.
Context `{Interp}.

(** SetGlobal: the loop over strchr(name, '.'), as in GetGlobal, then
    the assignment of the value below the table. *)
Fixpoint SetGlobal_path (level name : string) : M lua_State unit :=
  match name with
  | EmptyString =>
      let! _ := lua_insert (-2) in
      let! _ := lua_setfield (-2) level in
      lua_pop 1
  | String c name' =>
      if Ascii.eqb c "." then
        let! _ := modify (lua_pushstring (Some level)) in
        let! _ := lua_gettable (-2) in
        let! _ := lua_replace (-2) in
        SetGlobal_path EmptyString name'
      else SetGlobal_path (level +:+ String c EmptyString) name'
  end.

(** SetGlobal: sets a global variable, allowing nested paths; the
    value to assign is on top of the stack. *)
Definition SetGlobal (name : option string) : M lua_State unit :=
  match name with
  | None => fault "SetGlobal: strchr on the null pointer"
  | Some n =>
      let! _ := modify (lua_pushvalue LUA_GLOBALSINDEX) in
      SetGlobal_path EmptyString n
  end.

(** CacheAndGet(L, name, key): gets a value, cached after the first
    use under the address [key]. *)
Definition CacheAndGet_name (name : option string) (key : Z) : M lua_State unit :=
  let! _ := modify (lua_pushlightuserdata key) in
  let! _ := lua_rawget LUA_REGISTRYINDEX in
  let! L := get in
  if lua_isnil L (-1) then
    let! _ := lua_pop 1 in
    let! _ := modify (lua_pushlightuserdata key) in
    let! _ := GetGlobal name in
    let! _ := modify (lua_pushvalue (-1)) in
    let! _ := lua_insert (-3) in
    lua_rawset LUA_REGISTRYINDEX
  else ret tt.

(** A name without a dot. *)
Fixpoint no_dot (s : string) : bool :=
  match s with
  | EmptyString => true
  | String c s' => negb (Ascii.eqb c ".") && no_dot s'
  end.

(** The name level1.level2. ... .last. *)
Definition dotted (levels : list string) (last : string) : string :=
  fold_right (fun level rest => level +:+ "." +:+ rest) last levels.

(** The table reached from table [ref] through the fields [levels]. *)
Fixpoint descend (h : Heap) (ref : nat) (levels : list string) : option nat :=
  match levels with
  | [] => Some ref
  | level :: levels' =>
      match tables h !! ref with
      | Some t =>
          match tbl_get t (VString level) with
          | VTable ref' => descend h ref' levels'
          | _ => None
          end
      | None => None
      end
  end.

End MoreGlobals.

Section MoreTemplates.
Context `{Interp}.

(** luaT_boxed_get: the pointer in the box at stack index [source]. *)
Definition luaT_boxed_get (source : Z) : M lua_State Z :=
  let! p := Arg.UD source in
  let! L := get in
  read (load_pointer (memory (heap L)) p).

(** luaT_boxed_set(L, dest, value): templated boxed member direct set. *)
Definition luaT_boxed_set (dest value : Z) : M lua_State Z :=
  let! p := Arg.UD dest in
  let! L := get in
  let! _ := write (store_pointer (memory (heap L)) p value) in
  ret 0.

(** luaT_gc_ref: the __gc metamethod, reference count version. *)
Definition luaT_gc_ref : M TState Z := luaT_boxed_set_ref 1 0 true.

(** luaT_cons_set_ref(L, value): the constructor set helper; the box
    is at index 1 and its old content is not looked at. *)
Definition luaT_cons_set_ref (value : Z) : M TState Z := luaT_boxed_set_ref 1 value false.

(** A value the accessor of a member's type raises an error for. *)
Definition rejects (ty : MemberType) (v : Value) : Prop :=
  match ty with
  | ePointer => forall p b sz, v <> VLightUserdata p /\ v <> VUserdata b sz
  | eString => forall s n, v <> VString s /\ v <> VNumber n
  | eBoolean => forall b, v <> VBoolean b
  | _ => (forall n, v <> VNumber n) /\ (forall s, v = VString s -> str2num s = None)
  end.

End MoreTemplates.

Section FormatVocabulary.
Context `{Interp}.

(** The directives that push one value made from their own argument:
    i, n, s, b, T, F, u and 0. *)
Inductive simple :=
| e_int (i : Z)
| e_number (n : lua_Number)
| e_string (s : option string)
| e_bool (b : bool)
| e_true
| e_false
| e_userdata (p : Z)
| e_nil.

Definition directive (e : simple) : ascii :=
  match e with
  | e_int _ => "i" | e_number _ => "n" | e_string _ => "s" | e_bool _ => "b"
  | e_true => "T" | e_false => "F" | e_userdata _ => "u" | e_nil => "0"
  end.

(** The arguments the caller passes for the directive. *)
Definition arguments (e : simple) : list va_value :=
  match e with
  | e_int i => [va_int i]
  | e_number n => [va_double n]
  | e_string s => [va_string s]
  | e_bool b => [va_bool b]
  | e_userdata p => [va_pointer p]
  | e_true | e_false | e_nil => []
  end.

(** The value the directive stands for. *)
Definition value_of (e : simple) : Value :=
  match e with
  | e_int i => VNumber (int2num i)
  | e_number n => VNumber n
  | e_string (Some s) => VString s
  | e_string None => VNil
  | e_bool b => VBoolean b
  | e_true => VBoolean true
  | e_false => VBoolean false
  | e_userdata p => if p =? 0 then VNil else VLightUserdata p
  | e_nil => VNil
  end.

(** An element of a flat format: a simple directive, or a simple
    directive under a condition (C, white space, the directive). *)
Inductive element :=
| plain (e : simple)
| conditional (b : bool) (ws : string) (e : simple).

Fixpoint spaces (ws : string) : bool :=
  match ws with
  | EmptyString => true
  | String c ws' => isspace c && spaces ws'
  end.

Definition element_params (x : element) (rest : string) : string :=
  match x with
  | plain e => String (directive e) rest
  | conditional _ ws e => String "C" (ws +:+ String (directive e) rest)
  end.

Definition element_args (x : element) : list va_value :=
  match x with
  | plain e => arguments e
  | conditional b _ e => va_bool b :: arguments e
  end.

Definition element_values (x : element) : list Value :=
  match x with
  | plain e => [value_of e]
  | conditional b _ e => if b then [value_of e] else []
  end.

Definition element_spaces (x : element) : bool :=
  match x with
  | plain _ => true
  | conditional _ ws _ => spaces ws
  end.

(** The format of the elements, each after its white space, with white
    space at the end. *)
Definition flat_params (items : list (string * element)) (tail : string) : string :=
  fold_right (fun item rest => item.1 +:+ element_params item.2 rest) tail items.

Definition flat_args (items : list (string * element)) : list va_value :=
  items ≫= (fun item => element_args item.2).

Definition flat_values (items : list (string * element)) : list Value :=
  items ≫= (fun item => element_values item.2).

Definition flat_spaces (items : list (string * element)) : bool :=
  forallb (fun item => spaces item.1 && element_spaces item.2) items.

End FormatVocabulary.

Section TableVocabulary.
Context `{Interp}.

(** An entry of a table literal: an element of a flat format, added at
    the end of the list, or a pair K s <simple directive> with a
    string key. *)
Inductive entry :=
| positional (x : element)
| keyed (ws1 : string) (k : string) (ws2 : string) (e : simple).

Definition entry_params (en : entry) (rest : string) : string :=
  match en with
  | positional x => element_params x rest
  | keyed ws1 _ ws2 e => String "K" (ws1 +:+ String "s" (ws2 +:+ String (directive e) rest))
  end.

Definition entry_args (en : entry) : list va_value :=
  match en with
  | positional x => element_args x
  | keyed _ k _ e => va_string (Some k) :: arguments e
  end.

Definition entry_spaces (en : entry) : bool :=
  match en with
  | positional x => element_spaces x
  | keyed ws1 _ ws2 _ => spaces ws1 && spaces ws2
  end.

Definition body_params (entries : list (string * entry)) (rest : string) : string :=
  fold_right (fun item rest => item.1 +:+ entry_params item.2 rest) rest entries.

Definition body_args (entries : list (string * entry)) : list va_value :=
  entries ≫= (fun item => entry_args item.2).

Definition body_spaces (entries : list (string * entry)) : bool :=
  forallb (fun item => spaces item.1 && entry_spaces item.2) entries.

(** The table literal: the brace, the entries, white space, the brace. *)
Definition table_params (entries : list (string * entry)) (tail rest : string) : string :=
  String "{" (body_params entries (tail +:+ String "}" rest)).

(** What an entry does to the table [t] whose list part is [n] long. *)
Definition add_value (tn : Table * Z) (v : Value) : Table * Z :=
  (tbl_set tn.1 (key (tn.2 + 1)) v, if decide (v = VNil) then tn.2 else tn.2 + 1).

Definition add_entry (tn : Table * Z) (en : entry) : Table * Z :=
  match en with
  | positional x => fold_left add_value (element_values x) tn
  | keyed _ k _ e => (tbl_set tn.1 (VString k) (value_of e), tn.2)
  end.

Definition build (entries : list (string * entry)) (tn : Table * Z) : Table * Z :=
  fold_left (fun tn item => add_entry tn item.2) entries tn.

(** The table a literal builds. *)
Definition literal_table (entries : list (string * entry)) : Table :=
  (build entries ([], 0)).1.

End TableVocabulary.

Section TracebackVocabulary.
Context `{Interp}.

(** The lines ErrorFunc adds for the active functions, innermost
    first. *)
Definition traceback (active : list lua_Debug) : string :=
  fold_right (fun ar rest => about ar +:+ rest) EmptyString active.

(** The message ErrorFunc leaves for the error value [v]. *)
Definition with_traceback (v : Value) (active : list lua_Debug) : option Value :=
  match active with
  | [] => Some v
  | _ => m ← tostring v; Some (VString (m +:+ traceback active))
  end.

End TracebackVocabulary.

Section BindVocabulary.
Context `{Interp}.

(** The state [L] with another stack, other tables and other closures. *)
Definition reheap (s : list Value) (ts : list Table) (cs : list Closure)
    (L : lua_State) : lua_State :=
  set_stack s (set_heap (set_closures cs (set_tables ts (heap L))) L).

(** The descriptor BindPeer builds for a member. *)
Definition member_table (x : Member_Reg) : Table :=
  tbl_set (tbl_set [] (key eDType) (VNumber (int2num (type_code (mType x)))))
    (key eDOffset) (VNumber (int2num (as_lua_Integer (mOffset x)))).

(** The tables after the loop over the members; [m] is the table of
    the descriptors. *)
Fixpoint members_tables (ts : list Table) (m : nat) (members : list Member_Reg)
    : list Table :=
  match members with
  | [] => ts
  | x :: members' =>
      members_tables
        (<[m := tbl_set (match ts !! m with Some mt => mt | None => [] end)
                   (VString (mName x)) (VTable (length ts))]>
           (ts ++ [member_table x]))
        m members'
  end.

(** The table [o] and the closures after luaL_register. *)
Fixpoint registered (ot : Table) (cs : list Closure)
    (l : list (string * lua_CFunction)) : Table * list Closure :=
  match l with
  | [] => (ot, cs)
  | (name, fn) :: l' =>
      registered (tbl_set ot (VString name) (VFunction (length cs)))
        (cs ++ [{| cl_fn := fn; cl_upvalues := [] |}]) l'
  end.

End BindVocabulary.

Section MoreExampleDefs.
#[local] Existing Instance win32 | 0.
#[local] Existing Instance win32_interp | 0.

(** A list of two strings. *)
Definition example_list : Table := [(num 2, VString "b"); (num 1, VString "a")].

(** A heap in which the global game.list is that list (table 3), the
    registry caches it under the address 100, and ErrorFunc is cached
    as closure 4. *)
Definition list_heap : Heap :=
  {| tables := [ [(VLightUserdata 100, VTable 3); (VLightUserdata 4096, VFunction 4)];
                 [(VString "game", VTable 2)];
                 [(VString "list", VTable 3)];
                 example_list ];
     closures := closures example_heap ++ [ {| cl_fn := fn_ErrorFunc; cl_upvalues := [] |} ];
     registry := 0%nat;
     globals := 1%nat;
     memory := ∅ |}.

Definition list_state (s : list Value) : lua_State :=
  {| heap := list_heap; stack := s; upvalues := []; environ := VTable 1;
     callers := [example_frame]; calls := [] |}.

(** The format that pushes 3 and true, with an element switched
    off in between. *)
Definition example_items : list (string * element) :=
  [ (" ", plain (e_int 3));
    (" ", conditional false " " (e_string (Some "x")));
    (" ", plain e_true) ].

(** The entries 10, k = true, 20 of a table literal. *)
Definition example_entries : list (string * entry) :=
  [ (" ", positional (plain (e_int 10)));
    (" ", keyed " " "k" " " e_true);
    (" ", positional (plain (e_int 20))) ].

End MoreExampleDefs.

(** * Properties *)

(** ** The API: calls logged, fuel, stack heights *)

Section LuaFacts.
Context `{Interp}.

Lemma quiet_ret {A} (a : A) : quiet (ret a).
Proof. intros L. reflexivity. Qed.

Lemma quiet_bind {A B} (m : M lua_State A) (k : A -> M lua_State B) :
  quiet m -> (forall a, quiet (k a)) -> quiet (bind m k).
Proof.
  intros Hm Hk L. unfold bind. specialize (Hm L).
  destruct (m L) as [a L1|e L1| |]; try done.
  specialize (Hk a L1). destruct (k a L1); congruence.
Qed.

Lemma quiet_modify (f : lua_State -> lua_State) :
  (forall L, calls (f L) = calls L) -> quiet (modify f).
Proof. intros Hf L. apply Hf. Qed.

Lemma quiet_get : quiet get.
Proof. intros L. reflexivity. Qed.

Lemma quiet_fault {A} why : quiet (@fault _ _ A why).
Proof. intros L. exact I. Qed.

Ltac quiet_prim :=
  let L := fresh "L" in
  intros L; cbv beta delta
    [lua_settop lua_pop lua_insert lua_remove lua_replace lua_rawgeti lua_rawseti
     lua_rawget lua_rawset lua_gettable lua_settable lua_getfield lua_setfield
     lua_pushcclosure lua_pushcfunction set_field index_error raise luaL_error
     luaL_typerror Push];
  repeat case_match; simplify_eq/=; try done.

Lemma calls_iter_pop1 n L : calls (Nat.iter n pop1 L) = calls L.
Proof. induction n; simpl; auto. Qed.

Lemma quiet_lua_settop idx : quiet (lua_settop idx).
Proof. quiet_prim. Qed.
Lemma quiet_lua_pop n : quiet (lua_pop n).
Proof. quiet_prim. Qed.
Lemma quiet_lua_insert idx : quiet (lua_insert idx).
Proof. quiet_prim. Qed.
Lemma quiet_lua_remove idx : quiet (lua_remove idx).
Proof. quiet_prim. Qed.
Lemma quiet_lua_replace idx : quiet (lua_replace idx).
Proof. quiet_prim. Qed.
Lemma quiet_lua_rawseti idx n : quiet (lua_rawseti idx n).
Proof. quiet_prim. Qed.
Lemma quiet_lua_rawget idx : quiet (lua_rawget idx).
Proof. quiet_prim. Qed.
Lemma quiet_set_field ref t k v n : quiet (set_field ref t k v n).
Proof. quiet_prim; by rewrite calls_iter_pop1. Qed.
Lemma quiet_lua_rawset idx : quiet (lua_rawset idx).
Proof.
  intros L. unfold lua_rawset. repeat case_match; simplify_eq/=; try done;
    match goal with Hx : set_field ?r ?t ?k ?v ?n ?L = _ |- _ => pose proof (quiet_set_field r t k v n L) as Hq; rewrite Hx in Hq; exact Hq end.
Qed.
Lemma quiet_lua_gettable idx : quiet (lua_gettable idx).
Proof. quiet_prim. Qed.
Lemma quiet_lua_settable idx : quiet (lua_settable idx).
Proof.
  intros L. unfold lua_settable, index_error, raise. repeat case_match; simplify_eq/=; try done;
    match goal with Hx : set_field ?r ?t ?k ?v ?n ?L = _ |- _ => pose proof (quiet_set_field r t k v n L) as Hq; rewrite Hx in Hq; exact Hq end.
Qed.
Lemma quiet_lua_getfield idx k : quiet (lua_getfield idx k).
Proof. quiet_prim. Qed.
Lemma quiet_lua_pushcclosure fn n : quiet (lua_pushcclosure fn n).
Proof. quiet_prim. Qed.
Lemma quiet_Push idx : quiet (Push idx).
Proof. intros L. unfold Push. apply quiet_lua_rawseti. Qed.

Lemma quiet_GetGlobal_path name : forall level, quiet (GetGlobal_path level name).
Proof.
  induction name as [|c name IH]; intros level; simpl.
  - apply quiet_bind; [apply quiet_lua_getfield | intros; apply quiet_lua_replace].
  - destruct (Ascii.eqb c "."); [|apply IH].
    apply quiet_bind; [by apply quiet_modify|intros _].
    apply quiet_bind; [apply quiet_lua_gettable|intros _].
    apply quiet_bind; [apply quiet_lua_replace|intros _]. apply IH.
Qed.

Lemma quiet_GetGlobal name : quiet (GetGlobal name).
Proof.
  destruct name; simpl; [|apply quiet_fault].
  apply quiet_bind; [by apply quiet_modify | intros _; apply quiet_GetGlobal_path].
Qed.

Lemma quiet_lua_pushcfunction fn : quiet (lua_pushcfunction fn).
Proof. apply quiet_lua_pushcclosure. Qed.

Lemma quiet_CacheAndGet func : quiet (CacheAndGet func).
Proof.
  unfold CacheAndGet.
  repeat first
    [ apply quiet_bind; [|intros ?]
    | apply quiet_lua_rawget | apply quiet_lua_rawset | apply quiet_lua_pop
    | apply quiet_lua_insert | apply quiet_lua_pushcfunction | apply quiet_get
    | apply quiet_ret | by apply quiet_modify
    | case_match ].
Qed.

Lemma quiet_luaL_optstring narg def : quiet (luaL_optstring narg def).
Proof.
  intros L. unfold luaL_optstring, luaL_checkstring, bind, lua_tolstring, ret,
    luaL_typerror, luaL_error.
  repeat case_match; by simplify_eq/=.
Qed.

Lemma ends_quiet {A} (m : M lua_State A) : quiet m -> ends m.
Proof. intros Hm L HL. specialize (Hm L). by rewrite HL in Hm. Qed.

Lemma ends_bind {S A B} (m : M S A) (k : A -> M S B) :
  ends m -> (forall a, ends (k a)) -> ends (bind m k).
Proof.
  intros Hm Hk s. unfold bind. specialize (Hm s).
  destruct (m s) as [a s1|e s1| |]; try done. apply Hk.
Qed.

Lemma ends_lua_pcall nargs nresults errfunc : ends (lua_pcall nargs nresults errfunc).
Proof. intros L. unfold lua_pcall. by repeat case_match. Qed.

Lemma ends_lua_call nargs nresults : ends (lua_call nargs nresults).
Proof. intros L. unfold lua_call. by repeat case_match. Qed.

Lemma ends_PCall_EF argc retc : ends (PCall_EF argc retc).
Proof.
  unfold PCall_EF.
  apply ends_bind; [apply ends_quiet, quiet_CacheAndGet|intros _].
  apply ends_bind; [apply ends_quiet, quiet_get|intros L].
  apply ends_bind; [apply ends_quiet, quiet_lua_insert|intros _].
  apply ends_bind; [apply ends_lua_pcall|intros status].
  apply ends_bind; [apply ends_quiet, quiet_lua_remove|intros _].
  apply ends_quiet, quiet_ret.
Qed.

End LuaFacts.

Section ReaderFacts.
Context `{Interp}.

Lemma stays_refl r : stays r r.
Proof. by repeat split. Qed.

Lemma stays_trans r1 r2 r3 : stays r1 r2 -> stays r2 r3 -> stays r1 r3.
Proof. unfold stays. intros (? & ? & ?) (? & ? & ?). repeat split; [congruence..|lia]. Qed.

Lemma steady_ret {A} (a : A) : steady (ret a).
Proof. by intros r. Qed.

Lemma steady_get : steady get.
Proof. by intros r. Qed.

Lemma steady_bind {A B} (m : M Reader A) (k : A -> M Reader B) :
  steady m -> (forall a, steady (k a)) -> steady (bind m k).
Proof.
  intros Hm Hk r. unfold bind. specialize (Hm r).
  destruct (m r) as [a r1|e r1| |]; try done.
  specialize (Hk a r1). destruct (k a r1); try done.
  destruct Hm as (? & ? & ?), Hk as (? & ? & ?). repeat split; congruence.
Qed.

Lemma steady_modify (f : Reader -> Reader) :
  (forall r, mTop (f r) = mTop r /\ calls (mL (f r)) = calls (mL r)
             /\ mParams (f r) = mParams r) ->
  steady (modify f).
Proof. intros Hf r. apply Hf. Qed.

Lemma steady_va_arg {A} (as_type : va_value -> option A) : steady (va_arg as_type).
Proof. intros r. unfold va_arg. repeat case_match; by simplify_eq/=. Qed.

Lemma steady_Error error : steady (Error error).
Proof. intros r. unfold Error. by case_match; simplify_eq/=. Qed.

Lemma steady_onL {A} (m : M lua_State A) : quiet m -> steady (onL m).
Proof.
  intros Hm r. unfold onL, zoom. specialize (Hm (mL r)).
  by destruct (m (mL r)).
Qed.

Lemma steady_push_unless_skipped f :
  (forall L, calls (f L) = calls L) -> steady (push_unless_skipped f).
Proof.
  intros Hf. apply steady_modify. intros r. destruct (mShouldSkip r); simpl; auto.
Qed.

Lemma steady_if {A} (b : bool) (m1 m2 : M Reader A) :
  steady m1 -> steady m2 -> steady (if b then m1 else m2).
Proof. by destruct b. Qed.

Ltac steady_steps :=
  repeat first
    [ exact (steady_ret _) | exact steady_get | exact (steady_va_arg _)
    | exact (steady_Error _)
    | simple apply steady_bind; [|intros ?]
    | simple apply steady_if
    | simple apply steady_push_unless_skipped; intros ?; reflexivity
    | simple apply steady_modify; intros ?; by repeat split ].

Lemma steady__a : steady _a.
Proof. unfold _a. steady_steps. Qed.

Lemma steady__b : steady _b.
Proof. unfold _b. steady_steps. Qed.

Lemma steady__f : steady _f.
Proof.
  unfold _f. simple apply steady_bind; [exact (steady_va_arg _)|intros func].
  simple apply steady_bind; [exact steady_get|intros r].
  simple apply steady_if; [exact (steady_ret _)|].
  apply steady_onL, quiet_lua_pushcclosure.
Qed.

Lemma steady__i : steady _i.
Proof. unfold _i. steady_steps. Qed.

Lemma steady__n : steady _n.
Proof. unfold _n. steady_steps. Qed.

Lemma steady__s : steady _s.
Proof.
  unfold _s. steady_steps. apply steady_push_unless_skipped.
  intros L. by destruct a.
Qed.

Lemma steady__u : steady _u.
Proof. unfold _u. steady_steps. Qed.

Lemma steady__0 : steady _0.
Proof. unfold _0. steady_steps. Qed.

Lemma steady__G : steady _G.
Proof. unfold _G. steady_steps. apply steady_onL, quiet_GetGlobal. Qed.

Lemma steady_done m : steady m -> steady (done m).
Proof. intros Hm. unfold done. steady_steps. exact Hm. Qed.

Lemma read_ok_steady (m : M Reader bool) r :
  steady m -> (0 < String.length (mParams r))%nat -> read_ok r (m r).
Proof.
  intros Hm Hr. specialize (Hm r). unfold read_ok. destruct (m r); try done.
  destruct Hm as (? & ? & Hp). split; [|rewrite Hp; done].
  repeat split; try done. by rewrite Hp.
Qed.

Lemma read_ok_stays r0 r o : stays r0 r -> read_ok r o -> read_ok r0 o.
Proof.
  intros Hs. unfold read_ok. destruct o; try done.
  intros [? ?]. split; [by eapply stays_trans|done].
Qed.

Lemma skip_spaces_length p : (String.length (skip_spaces p) <= String.length p)%nat.
Proof. induction p as [|c p IH]; simpl; [lia|]. destruct (isspace c); simpl; lia. Qed.

Lemma next_param_length r c rest :
  mParams r = String c rest -> mParams (next_param r) = rest.
Proof. intros Hp. unfold next_param. by rewrite Hp. Qed.

Lemma next_param_stays r : stays r (next_param r).
Proof.
  unfold next_param, stays. destruct (mParams r) eqn:E; simpl; rewrite ?E; simpl; repeat split; lia.
Qed.

Section Nested.
Variable rd : M Reader bool.
Variable n : nat.
Hypothesis Hrd : forall r, (String.length (mParams r) < n)%nat -> read_ok r (rd r).

Lemma read_ok_Error r error : read_ok r (Error error r).
Proof. unfold Error. simpl. split; [|done]. destruct (mError r); by repeat split. Qed.

Lemma read_ok_Error_after r r' error : stays r r' -> read_ok r (Error error r').
Proof. intros Hs. eapply read_ok_stays; [exact Hs|apply read_ok_Error]. Qed.

Lemma _C_ok r c rest :
  mParams r = String c rest -> (String.length rest < n)%nat -> read_ok r (_C rd r).
Proof.
  intros Hp Hlen. unfold _C, bind, get, modify, va_arg, ret.
  destruct (mInKey r); [apply read_ok_Error|].
  destruct (mInValue r); [apply read_ok_Error|].
  destruct (mArgs (next_param r)) as [|v args] eqn:Ha; [done|].
  destruct (as_bool v) as [arg|]; [|done].
  set (r1 := if mShouldSkip _ then _ else _).
  assert (Hs1 : stays r r1 /\ mParams r1 = rest).
  { pose proof (next_param_stays r) as (? & ? & ?).
    pose proof (next_param_length r c rest Hp).
    subst r1. destruct (mShouldSkip _); simpl; repeat split; try done; lia. }
  destruct Hs1 as [Hs1 Hp1].
  pose proof (Hrd r1) as Hr. rewrite Hp1 in Hr. specialize (Hr Hlen).
  destruct (rd r1) as [[|] r2|e r2| |]; cbn [negb]; try done.
  - destruct Hr as [Hs2 Hpos]. split; [|intros _; by apply Hpos].
    eapply stays_trans; [exact Hs1|]. eapply stays_trans; [exact Hs2|]. by repeat split.
  - apply read_ok_Error_after. eapply stays_trans; [exact Hs1|]. apply Hr.
Qed.

Lemma _K_ok r c rest :
  mParams r = String c rest -> (String.length rest < n)%nat -> read_ok r (_K rd r).
Proof.
  intros Hp Hlen. unfold _K, bind, get, modify, ret.
  set (r1 := set_mInKey true (next_param r)).
  assert (Hs1 : stays r r1 /\ mParams r1 = rest).
  { pose proof (next_param_stays r) as (? & ? & ?).
    pose proof (next_param_length r c rest Hp). by repeat split. }
  destruct Hs1 as [Hs1 Hp1].
  pose proof (Hrd r1) as Hr. rewrite Hp1 in Hr. specialize (Hr Hlen).
  destruct (rd r1) as [[|] r2|e r2| |]; cbn [negb]; try done; cycle 1.
  { apply read_ok_Error_after. eapply stays_trans; [exact Hs1|]. apply Hr. }
  destruct Hr as [Hs2 Hpos]. specialize (Hpos eq_refl).
  set (r3 := set_mInValue true _).
  assert (Hs3 : stays r2 r3 /\ (String.length (mParams r3) < String.length (mParams r2))%nat).
  { subst r3. simpl. unfold next_param. destruct (mParams r2) eqn:E; simpl in *; [lia|].
    split; [|lia]. unfold stays. simpl. rewrite E. simpl. repeat split; lia. }
  destruct Hs3 as [Hs3 Hlt3].
  assert (Hs13 : stays r r3).
  { eapply stays_trans; [exact Hs1|]. eapply stays_trans; [exact Hs2|]. exact Hs3. }
  pose proof (Hrd r3) as Hr3.
  assert (Hlen3 : (String.length (mParams r3) < n)%nat).
  { destruct Hs2 as (_ & _ & ?). rewrite Hp1 in *. lia. }
  specialize (Hr3 Hlen3).
  destruct (rd r3) as [[|] r4|e r4| |]; cbn [negb]; try done; cycle 1.
  { apply read_ok_Error_after. eapply stays_trans; [exact Hs13|]. apply Hr3. }
  destruct Hr3 as [Hs4 Hpos4]. specialize (Hpos4 eq_refl).
  cbn [mShouldSkip set_mInValue].
  destruct (mShouldSkip r4).
  - split; [|done]. eapply stays_trans; [exact Hs13|]. eapply stays_trans; [exact Hs4|].
    by repeat split.
  - unfold onL, zoom. cbn [mL set_mInValue].
    pose proof (quiet_lua_settable (-3) (mL r4)) as Hq.
    destruct (lua_settable (-3) (mL r4)); try done.
    split; [|done]. eapply stays_trans; [exact Hs13|]. eapply stays_trans; [exact Hs4|].
    by repeat split.
Qed.

Lemma _table_loop_ok k : forall r,
  (String.length (mParams r) < k)%nat -> (k <= n)%nat -> read_ok r (_table_loop rd k r).
Proof.
  induction k as [|k IH]; intros r Hlen Hk; [lia|].
  cbn [_table_loop]. unfold bind, get, modify, ret.
  pose proof (Hrd r) as Hr. specialize (Hr ltac:(lia)).
  destruct (rd r) as [[|] r1|e r1| |]; cbn [negb]; try done; cycle 1.
  { apply read_ok_Error_after. apply Hr. }
  destruct Hr as [Hs1 Hpos]. specialize (Hpos eq_refl).
  assert (Hnext : forall r', stays r1 r' -> mParams r' = mParams r1 ->
                    read_ok r (_table_loop rd k (next_param r'))).
  { intros r' Hs' Hp'. eapply read_ok_stays.
    - eapply stays_trans; [exact Hs1|]. eapply stays_trans; [exact Hs'|apply next_param_stays].
    - apply IH; [|lia]. unfold next_param. rewrite Hp'.
      destruct Hs1 as (_ & _ & ?). destruct (mParams r1) eqn:E; simpl in *; lia. }
  destruct (_ <? _).
  - unfold onL, zoom.
    pose proof (quiet_Push (-2) (mL r1)) as Hq.
    destruct (Push (-2) (mL r1)) as [[] L2|e L2| |]; try done.
    apply Hnext; by repeat split.
  - destruct (Ascii.eqb (peek r1) "}").
    + split; [|done]. eapply stays_trans; [exact Hs1|]. by repeat split.
    + apply Hnext; [apply stays_refl|done].
Qed.

Lemma _table_ok r c rest :
  mParams r = String c rest -> (String.length rest < n)%nat -> read_ok r (_table rd n r).
Proof.
  intros Hp Hlen. unfold _table, push_unless_skipped, bind, get, modify, ret.
  set (r1 := next_param _).
  assert (Hs1 : stays r r1 /\ mParams r1 = rest).
  { subst r1. unfold next_param. destruct (mShouldSkip _); simpl; rewrite Hp; simpl;
      repeat split; simpl; rewrite ?Hp; simpl; lia. }
  destruct Hs1 as [Hs1 Hp1]. eapply read_ok_stays; [exact Hs1|].
  apply _table_loop_ok; [by rewrite Hp1|lia].
Qed.

End Nested.

Lemma ReadElement_ok fuel : forall r,
  (String.length (mParams r) < fuel)%nat -> read_ok r (ReadElement fuel r).
Proof.
  induction fuel as [|fuel IH]; intros r Hlen; [lia|].
  cbn [ReadElement]. unfold bind at 1, modify at 1. unfold bind at 1, get at 1.
  set (r1 := set_mParams _ r).
  assert (Hs1 : stays r r1).
  { subst r1. repeat split. simpl. apply skip_spaces_length. }
  eapply read_ok_stays; [exact Hs1|].
  destruct (mParams r1) as [|c rest] eqn:Hp1.
  { simpl. split; [apply stays_refl|done]. }
  assert (Hpos : (0 < String.length (mParams r1))%nat) by (rewrite Hp1; simpl; lia).
  assert (Hrest : (String.length rest < fuel)%nat).
  { destruct Hs1 as (_ & _ & Hl). rewrite Hp1 in Hl. simpl in Hl. lia. }
  repeat
    (match goal with
     | |- read_ok _ ((if ?b then _ else _) _) => destruct b
     end;
     [first [ apply read_ok_steady; [|exact Hpos];
              first [exact steady__a | exact steady__u | exact steady__0
                    | apply steady_done; first [exact steady__b | exact steady__f
                        | exact steady__i | exact steady__n | exact steady__s
                        | exact steady__G]]
            | eapply _table_ok; eauto
            | eapply _C_ok; eauto
            | idtac ]| ]).
  all: first [ apply read_ok_Error
             | eapply _K_ok; by eauto
             | split; [apply stays_refl|done] ].
Qed.

End ReaderFacts.

Section Heights.
Context `{Interp}.

Lemma height_by_ret {A} (a : A) : height_by (ret a) 0.
Proof. intros L. simpl. lia. Qed.

Lemma height_by_get : height_by get 0.
Proof. intros L. simpl. lia. Qed.

Lemma height_by_bind {A B} (m : M lua_State A) (k : A -> M lua_State B) d1 d2 d :
  height_by m d1 -> (forall a, height_by (k a) d2) -> d = d1 + d2 ->
  height_by (bind m k) d.
Proof.
  intros Hm Hk -> L. unfold bind. specialize (Hm L).
  destruct (m L) as [a L1|e L1| |]; try done.
  specialize (Hk a L1). destruct (k a L1); try done. lia.
Qed.

Lemma gettop_push v L : lua_gettop (push v L) = lua_gettop L + 1.
Proof. unfold lua_gettop, push. simpl. rewrite length_app. simpl. lia. Qed.

Lemma height_by_push v : height_by (modify (push v)) 1.
Proof. intros L. apply gettop_push. Qed.

Lemma length_removelast {A} (l : list A) : length (removelast l) = (length l - 1)%nat.
Proof.
  induction l as [|x l _] using rev_ind; [done|].
  rewrite removelast_last, length_app. simpl. lia.
Qed.

Lemma last_Some_length {A} (l : list A) v : list.last l = Some v -> (1 <= length l)%nat.
Proof. intros [l' ->]%last_Some. rewrite length_app. simpl. lia. Qed.

Lemma gettop_pop1 L v : top_value L = Some v -> lua_gettop (pop1 L) = lua_gettop L - 1.
Proof.
  intros Hv. apply last_Some_length in Hv. unfold lua_gettop, pop1. simpl.
  rewrite length_removelast. lia.
Qed.

Lemma gettop_store_table ref t L : lua_gettop (store_table ref t L) = lua_gettop L.
Proof. reflexivity. Qed.

Lemma top_value_store_table ref t L : top_value (store_table ref t L) = top_value L.
Proof. reflexivity. Qed.

Lemma length_resize n l : length (resize n l) = n.
Proof. unfold resize. rewrite length_app, length_take, length_replicate. lia. Qed.

Lemma lua_settop_height idx L :
  0 <= idx ->
  exists L', lua_settop idx L = Ok tt L' /\ lua_gettop L' = idx /\ calls L' = calls L
             /\ heap L' = heap L.
Proof.
  intros Hidx. unfold lua_settop. destruct (0 <=? idx) eqn:E; [|lia].
  eexists. split; [reflexivity|]. repeat split.
  unfold lua_gettop. simpl. rewrite length_resize. lia.
Qed.

Lemma height_by_lua_pop1 : height_by (lua_pop 1) (-1).
Proof.
  intros L. unfold lua_pop, lua_settop. simpl.
  destruct (_ <=? _) eqn:E; [|done]. unfold lua_gettop in *. simpl.
  rewrite length_take. lia.
Qed.

Lemma stack_slot_lt L idx p : stack_slot L idx = Some p -> (p < length (stack L))%nat.
Proof.
  unfold stack_slot, lua_gettop. intros Hp. repeat case_match; simplify_eq; lia.
Qed.

Lemma height_by_lua_insert idx : height_by (lua_insert idx) 0.
Proof.
  intros L. unfold lua_insert.
  destruct (stack_slot L idx) as [p|] eqn:Hp; [|done].
  destruct (top_value L) as [v|] eqn:Hv; [|done].
  apply stack_slot_lt in Hp. apply last_Some_length in Hv.
  unfold lua_gettop. simpl.
  rewrite length_app, length_take. simpl. rewrite length_drop, length_removelast. lia.
Qed.

Lemma height_by_lua_remove idx : height_by (lua_remove idx) (-1).
Proof.
  intros L. unfold lua_remove.
  destruct (stack_slot L idx) as [p|] eqn:Hp; [|done].
  apply stack_slot_lt in Hp. unfold lua_gettop. simpl.
  rewrite length_app, length_take, length_drop. lia.
Qed.

Lemma height_by_lua_rawget idx : height_by (lua_rawget idx) 0.
Proof.
  intros L. unfold lua_rawget. destruct (table_at L idx) as [[ref t]|]; [|done].
  destruct (top_value L) as [k|] eqn:Hk; [|done].
  rewrite gettop_push, (gettop_pop1 _ _ Hk). lia.
Qed.

Lemma height_by_lua_rawset idx : height_by (lua_rawset idx) (-2).
Proof.
  intros L. unfold lua_rawset. destruct (table_at L idx) as [[ref t]|]; [|done].
  destruct (top_value (pop1 L)) as [k|] eqn:Hk; [|done].
  destruct (top_value L) as [v|] eqn:Hv; [|done].
  unfold set_field. destruct k; try done; simpl;
    (erewrite gettop_pop1; [erewrite gettop_pop1; [rewrite gettop_store_table; lia|]|]);
    try (rewrite top_value_store_table; exact Hv);
    exact Hk.
Qed.

Lemma height_by_lua_pushcfunction fn : height_by (lua_pushcfunction fn) 1.
Proof.
  intros L. unfold lua_pushcfunction, lua_pushcclosure. simpl.
  rewrite gettop_push. unfold lua_gettop. simpl. rewrite length_take. lia.
Qed.

Lemma height_by_CacheAndGet func : height_by (CacheAndGet func) 1.
Proof.
  unfold CacheAndGet.
  eapply (height_by_bind _ _ 1 0); [apply height_by_push|intros _|reflexivity].
  eapply (height_by_bind _ _ 0 0); [apply height_by_lua_rawget|intros _|reflexivity].
  eapply (height_by_bind _ _ 0 0); [apply height_by_get|intros L|reflexivity].
  destruct (lua_isnil L (-1)); [|apply height_by_ret].
  eapply (height_by_bind _ _ (-1) 1); [apply height_by_lua_pop1|intros _|reflexivity].
  eapply (height_by_bind _ _ 1 0); [apply height_by_push|intros _|reflexivity].
  eapply (height_by_bind _ _ 1 (-1)); [apply height_by_lua_pushcfunction|intros _|reflexivity].
  eapply (height_by_bind _ _ 1 (-2)); [|intros _|reflexivity].
  { intros L'. apply gettop_push. }
  eapply (height_by_bind _ _ 0 (-2)); [apply height_by_lua_insert|intros _|reflexivity].
  apply height_by_lua_rawset.
Qed.

Lemma length_adjust nresults results :
  nresults = LUA_MULTRET \/ 0 <= nresults ->
  (0 <= Z.of_nat (length (adjust nresults results))).
Proof. lia. Qed.

(** lua_pcall leaves the results, or one error value, where the
    function and its arguments were. *)
Lemma lua_pcall_height nargs nresults errfunc L :
  match lua_pcall nargs nresults errfunc L with
  | Ok status L' =>
      (status = 0 /\ exists n, 0 <= n /\ lua_gettop L' = lua_gettop L - nargs - 1 + n)
      \/ (status <> 0 /\ lua_gettop L' = lua_gettop L - nargs)
  | _ => True
  end.
Proof.
  unfold lua_pcall, call_frame.
  destruct (_ && _) eqn:Hc; [|done].
  apply andb_prop in Hc as [Hn Ht]. apply Z.leb_le in Hn, Ht.
  destruct (stack L !! _) as [f|] eqn:Hf; [|done].
  destruct (stack_slot L errfunc) as [p|]; [|done].
  destruct (run_callable _ _ _) as [results h|fl h].
  - left. split; [done|]. exists (Z.of_nat (length (adjust nresults results))).
    split; [lia|]. unfold lua_gettop in *. simpl. rewrite length_app, length_take. lia.
  - destruct (luaG_errormsg _ _ _ _ _) as [msg h']. right. split; [done|].
    unfold lua_gettop in *. simpl. rewrite length_app, length_take. simpl. lia.
Qed.

Lemma PCall_EF_height argc retc L :
  match PCall_EF argc retc L with
  | Ok status L' =>
      (status = 0 /\ exists n, 0 <= n /\ lua_gettop L' = lua_gettop L - argc - 1 + n)
      \/ (status <> 0 /\ lua_gettop L' = lua_gettop L - argc)
  | _ => True
  end.
Proof.
  unfold PCall_EF, bind, get, ret.
  pose proof (height_by_CacheAndGet fn_ErrorFunc L) as H1.
  destruct (CacheAndGet fn_ErrorFunc L) as [[] L1|?| |]; try done.
  set (err := IndexAbsolute L1 _).
  pose proof (height_by_lua_insert err L1) as H2.
  destruct (lua_insert err L1) as [[] L2|?| |]; try done.
  pose proof (lua_pcall_height argc retc err L2) as H3.
  destruct (lua_pcall argc retc err L2) as [status L3|?| |]; try done.
  pose proof (height_by_lua_remove err L3) as H4.
  destruct (lua_remove err L3) as [[] L4|?| |]; try done.
  destruct H3 as [[-> (n & Hn & H3)]|[Hs H3]]; [left|right]; (split; [done|]).
  - exists n. split; [done|]. lia.
  - lia.
Qed.

Lemma height_by_luaL_optstring narg def : height_by (luaL_optstring narg def) 0.
Proof.
  intros L. unfold luaL_optstring. destruct (lua_isnoneornil L narg); [simpl; lia|].
  unfold luaL_checkstring, bind, lua_tolstring, ret, luaL_typerror, luaL_error.
  repeat case_match; simplify_eq/=; try done; try lia.
  unfold lua_gettop. simpl. rewrite length_insert. lia.
Qed.

End Heights.

Section CallCoreFacts.
Context `{Interp}.

Lemma read_all_ok fuel : forall r,
  (String.length (mParams r) < fuel)%nat ->
  match read_all fuel r with
  | Ok _ r' => stays r r'
  | Raise _ _ | Fault _ => True
  | OutOfFuel => False
  end.
Proof.
  induction fuel as [|fuel IH]; intros r Hlen; [lia|].
  cbn [read_all]. unfold bind.
  pose proof (ReadElement_ok (S fuel) r Hlen) as Hr.
  destruct (ReadElement (S fuel) r) as [[|] r1|e r1| |]; try done.
  - destruct Hr as [Hs Hpos]. specialize (Hpos eq_refl).
    unfold modify. 
    assert (Hlt : (String.length (mParams (next_param r1)) < fuel)%nat).
    { destruct Hs as (_ & _ & ?). unfold next_param.
      destruct (mParams r1); simpl in *; lia. }
    specialize (IH (next_param r1) Hlt).
    destruct (read_all fuel (next_param r1)); try done.
    eapply stays_trans; [exact Hs|]. eapply stays_trans; [apply next_param_stays|exact IH].
  - apply Hr.
Qed.

(** The parse ends; it logs no call, and the count it yields is as
    much above the old one as the stack is above its old top. *)
Lemma marshal_ok L count params args :
  match marshal L count params args with
  | Ok count' r =>
      calls (mL r) = calls L /\ mTop r = lua_gettop L - count
      /\ lua_gettop (mL r) - count' = lua_gettop L - count
      /\ (params = EmptyString -> mError r = None)
  | Raise _ _ | Fault _ => True
  | OutOfFuel => False
  end.
Proof.
  unfold marshal. destruct params as [|c params]; [simpl; repeat split; lia|].
  set (r0 := new_Reader _ _ _ _).
  pose proof (read_all_ok (S (String.length (String c params))) r0 ltac:(simpl; lia)) as Hr.
  unfold bind, get, ret.
  destruct (read_all _ r0) as [[] r1|e r1| |]; try done.
  destruct Hr as (Ht & Hc & _). repeat split; [done|done|lia|done].
Qed.

(** The invocation of a protected CallCore, given that the callable
    and [count] arguments lie on the stack. *)
Lemma invoke_protected_height r count retc :
  0 <= lua_gettop (mL r) - count - 1 ->
  match invoke r count retc true with
  | Thrown _ L' => lua_gettop L' = lua_gettop (mL r) - count - 1
  | Returned n L' => 0 <= n /\ lua_gettop L' = lua_gettop (mL r) - count - 1 + n
  | Raised _ _ | Undefined _ => True
  | Exhausted => False
  end.
Proof.
  intros Hafter. unfold invoke. set (after := lua_gettop (mL r) - count - 1) in *.
  destruct (mError r) as [error|].
  - destruct (lua_settop_height after (mL r) Hafter) as (L' & HL' & Htop & _).
    unfold bind, get, ret. rewrite HL'. simpl. exact Htop.
  - unfold bind, get, ret.
    pose proof (PCall_EF_height count retc (mL r)) as Hp.
    pose proof (ends_PCall_EF count retc (mL r)) as Hfuel.
    destruct (PCall_EF count retc (mL r)) as [status L1|e L1| |]; try done.
    destruct Hp as [[-> (n & Hn & Hp)]|[Hs Hp]].
    + simpl. subst after. split; lia.
    + destruct (status =? 0) eqn:E; [lia|]. simpl.
      pose proof (height_by_luaL_optstring (-1) "Caught non-string error" L1) as Ho.
      pose proof (ends_quiet _ (quiet_luaL_optstring (-1) "Caught non-string error") L1)
        as Hof.
      destruct (luaL_optstring _ _ L1) as [error L2|e L2| |]; try done.
      destruct (lua_settop_height after L2 Hafter) as (L' & HL' & Htop & _).
      rewrite HL'. simpl. exact Htop.
Qed.

End CallCoreFacts.

(** ** Protected calls run to a throw or a return *)

Section CallOutcomeFacts.
Context `{Interp}.

Lemma stack_slot_top L : (1 <= length (stack L))%nat ->
  stack_slot L (-1) = Some (length (stack L) - 1)%nat.
Proof.
  intros Hl. unfold stack_slot, lua_gettop, LUA_REGISTRYINDEX. simpl.
  destruct (Z.leb_spec (- Z.of_nat (length (stack L))) (-1)); [|lia].
  f_equal. lia.
Qed.

Lemma index2adr_top s v L : stack L = s ++ [v] -> index2adr L (-1) = Some v.
Proof.
  intros Hs. unfold index2adr. change (LUA_REGISTRYINDEX <? -1) with true. cbv iota.
  rewrite stack_slot_top by (rewrite Hs, length_app; simpl; lia).
  rewrite Hs, length_app. simpl. rewrite lookup_app_r by lia.
  replace (length s + 1 - 1 - length s)%nat with 0%nat by lia. done.
Qed.

Lemma top_value_snoc s v L : stack L = s ++ [v] -> top_value L = Some v.
Proof. intros Hs. unfold top_value. rewrite Hs. apply last_snoc. Qed.

Lemma ErrorFunc_levels_stringy active : forall L s0 v,
  stack L = s0 ++ [v] ->
  match ErrorFunc_levels active L with
  | Ok _ L' =>
      heap L' = heap L
      /\ exists v', stack L' = s0 ++ [v'] /\ (stringy v \/ active <> [] -> stringy v')
  | Raise e L' => heap L' = heap L /\ stringy e
  | Fault _ | OutOfFuel => False
  end.
Proof.
  induction active as [|ar active IH]; intros L s0 v Hs.
  - simpl. split; [done|]. exists v. split; [done|]. intros [Hv|Hv]; done.
  - cbn [ErrorFunc_levels]. unfold bind at 1, modify at 1.
    unfold bind at 1. unfold lua_concat2.
    set (L1 := lua_pushstring (Some (about ar)) L).
    assert (Hs1 : stack L1 = (s0 ++ [v]) ++ [VString (about ar)]).
    { unfold L1. simpl. by rewrite Hs. }
    assert (Hp : stack (pop1 L1) = s0 ++ [v]).
    { unfold pop1. simpl. rewrite Hs. by rewrite removelast_last. }
    rewrite (top_value_snoc _ _ _ Hp), (top_value_snoc _ _ _ Hs1).
    cbn [tostring]. destruct (tostring v) as [sa|] eqn:Hv.
    + set (L2 := push _ _).
      assert (Hs2 : stack L2 = s0 ++ [VString (sa +:+ about ar)]).
      { unfold L2, push, pop1. simpl. rewrite Hs. rewrite !removelast_last. done. }
      specialize (IH L2 s0 _ Hs2).
      destruct (ErrorFunc_levels active L2) as [[] L3|e L3| |]; try done.
      destruct IH as (Hh & v' & Hs3 & Hv'). split; [done|].
      exists v'. split; [done|]. intros _. apply Hv'. left. by eexists.
    + unfold concat_error, raise. split; [done|]. by eexists.
Qed.

Lemma luaG_errormsg_stringy fuel : forall h e active ref cl,
  closures h !! ref = Some cl -> cl_fn cl = fn_ErrorFunc ->
  stringy e \/ active <> [] ->
  stringy (luaG_errormsg fuel h (VFunction ref) e active).1.
Proof.
  induction fuel as [|fuel IH]; intros h e active ref cl Hcl Hfn He.
  - simpl. by eexists.
  - cbn [luaG_errormsg]. rewrite Hcl, Hfn. unfold ErrorFunc. unfold bind, ret.
    set (L0 := {| heap := h; stack := [e] |}).
    pose proof (ErrorFunc_levels_stringy active L0 [] e eq_refl) as Hl.
    cbn [callers L0] in *. fold L0.
    destruct (ErrorFunc_levels active L0) as [[] L1|e' L1| |]; try done.
    + destruct Hl as (Hh & v' & Hs & Hv'). simpl.
      unfold value_at. rewrite (index2adr_top [] v' L1 Hs). simpl. by apply Hv'.
    + destruct Hl as [Hh He']. apply (IH _ _ _ ref cl); [by rewrite Hh|done|by left].
Qed.

Lemma failure_stringy fl : stringy (raw_error fl) \/ active_at fl <> [].
Proof. destruct fl; [left; by eexists|right; done]. Qed.

Lemma stack_slot_neg L k :
  Z.of_nat k < 10000 -> (1 <= k <= length (stack L))%nat ->
  stack_slot L (- Z.of_nat k) = Some (length (stack L) - k)%nat.
Proof.
  intros Hb Hk. unfold stack_slot, lua_gettop, LUA_REGISTRYINDEX.
  destruct (Z.ltb_spec 0 (- Z.of_nat k)); [lia|].
  destruct (Z.ltb_spec (-10000) (- Z.of_nat k)); [|lia].
  destruct (Z.ltb_spec (- Z.of_nat k) 0); [|lia].
  destruct (Z.leb_spec (- Z.of_nat (length (stack L))) (- Z.of_nat k)); [|lia].
  simpl. f_equal. lia.
Qed.

Lemma stack_slot_pos L k :
  (1 <= k <= length (stack L))%nat -> stack_slot L (Z.of_nat k) = Some (k - 1)%nat.
Proof.
  intros Hk. unfold stack_slot, lua_gettop.
  destruct (Z.ltb_spec 0 (Z.of_nat k)); [|lia].
  destruct (Z.leb_spec (Z.of_nat k) (Z.of_nat (length (stack L)))); [|lia].
  f_equal. lia.
Qed.

Lemma table_at_registry L reg :
  tables (heap L) !! registry (heap L) = Some reg ->
  table_at L LUA_REGISTRYINDEX = Some (registry (heap L), reg).
Proof. intros Hr. unfold table_at, index2adr. simpl. by rewrite Hr. Qed.

Lemma lua_rawget_registry L s k reg :
  stack L = s ++ [k] ->
  tables (heap L) !! registry (heap L) = Some reg ->
  lua_rawget LUA_REGISTRYINDEX L = Ok tt (set_stack (s ++ [tbl_get reg k]) L).
Proof.
  intros Hs Hr. unfold lua_rawget.
  rewrite (table_at_registry L reg Hr), (top_value_snoc _ _ _ Hs).
  unfold push, pop1. simpl. by rewrite Hs, removelast_last.
Qed.

Lemma lua_pop1_snoc L s v : stack L = s ++ [v] -> lua_pop 1 L = Ok tt (set_stack s L).
Proof.
  intros Hs. change (lua_pop 1) with (lua_settop (-2)). unfold lua_settop, lua_gettop.
  change (0 <=? -2) with false. change (- (-2 + 1)) with 1.
  cbv iota. rewrite Hs, length_app. cbn [length].
  destruct (Z.leb_spec 1 (Z.of_nat (length s + 1))); [|lia].
  replace (Z.to_nat (Z.of_nat (length s + 1) + -2 + 1)) with (length s) by lia.
  by rewrite take_app_length.
Qed.

Lemma lua_pushcfunction_run fn L :
  lua_pushcfunction fn L
  = Ok tt (push (VFunction (length (closures (heap L))))
             (set_heap (set_closures (closures (heap L)
                                      ++ [{| cl_fn := fn; cl_upvalues := [] |}]) (heap L)) L)).
Proof.
  unfold lua_pushcfunction, lua_pushcclosure. simpl.
  rewrite Nat.sub_0_r, firstn_all, skipn_all. by destruct L.
Qed.

Lemma lua_insert_run L s1 s2 v idx :
  stack L = s1 ++ s2 ++ [v] ->
  stack_slot L idx = Some (length s1) ->
  lua_insert idx L = Ok tt (set_stack (s1 ++ v :: s2) L).
Proof.
  intros Hs Hi. unfold lua_insert. rewrite Hi.
  rewrite (top_value_snoc (s1 ++ s2) v L) by (by rewrite Hs, app_assoc).
  rewrite Hs, app_assoc, removelast_last, take_app_length, drop_app_length. done.
Qed.

Lemma lua_remove_run L s1 s2 v idx :
  stack L = s1 ++ v :: s2 ->
  stack_slot L idx = Some (length s1) ->
  lua_remove idx L = Ok tt (set_stack (s1 ++ s2) L).
Proof.
  intros Hs Hi. unfold lua_remove. rewrite Hi, Hs.
  rewrite take_app_length.
  replace (s1 ++ v :: s2) with ((s1 ++ [v]) ++ s2) at 1 by (by rewrite <- app_assoc).
  rewrite (drop_app_length' (s1 ++ [v]) s2) by (rewrite length_app; simpl; lia). done.
Qed.

Lemma lua_rawset_registry L s k v reg :
  stack L = s ++ [k; v] ->
  tables (heap L) !! registry (heap L) = Some reg ->
  k <> VNil ->
  lua_rawset LUA_REGISTRYINDEX L
  = Ok tt (set_stack s (store_table (registry (heap L)) (tbl_set reg k v) L)).
Proof.
  intros Hs Hr Hk. unfold lua_rawset. rewrite (table_at_registry L reg Hr).
  rewrite (top_value_snoc (s ++ [k]) v L) by (by rewrite Hs, <- app_assoc).
  rewrite (top_value_snoc s k (pop1 L)).
  2:{ unfold pop1. simpl. rewrite Hs.
      change (s ++ [k; v]) with (s ++ [k] ++ [v]). by rewrite app_assoc, removelast_last. }
  unfold set_field. destruct k; try done.
  all: simpl; unfold pop1, store_table; simpl; rewrite Hs;
    change (s ++ [?a; v]) with (s ++ [a] ++ [v]);
    rewrite app_assoc, !removelast_last; done.
Qed.

(** CacheAndGet leaves the error function on top of the stack. *)
Lemma CacheAndGet_ErrorFunc L :
  handler_intact (heap L) ->
  exists L1 v,
    CacheAndGet fn_ErrorFunc L = Ok tt L1
    /\ stack L1 = stack L ++ [v]
    /\ is_ErrorFunc (heap L1) v.
Proof.
  intros (reg & Hreg & Hentry).
  unfold CacheAndGet. unfold bind at 1, modify at 1. unfold bind at 1.
  rewrite (lua_rawget_registry _ (stack L) ErrorFunc_key reg) by done.
  unfold bind at 1, get at 1. unfold lua_isnil.
  erewrite index2adr_top by reflexivity.
  destruct Hentry as [Hnil | (ref & cl & Hv & Hcl & Hfn)].
  - rewrite Hnil. unfold bind at 1.
    erewrite lua_pop1_snoc by reflexivity.
    unfold bind at 1, modify at 1. unfold bind at 1.
    rewrite lua_pushcfunction_run.
    unfold bind at 1, modify at 1. unfold bind at 1.
    set (F := VFunction (length (closures (heap L)))).
    erewrite (lua_insert_run _ (stack L) [ErrorFunc_key; F] F).
    2:{ simpl. unfold value_at. erewrite index2adr_top by reflexivity. simpl.
        rewrite <- !app_assoc. reflexivity. }
    2:{ rewrite (stack_slot_neg _ 3) by (simpl; rewrite ?length_app; simpl; lia).
        f_equal. simpl. rewrite !length_app. simpl. lia. }
    erewrite (lua_rawset_registry _ (stack L ++ [F]) ErrorFunc_key F reg).
    2:{ simpl. by rewrite <- app_assoc. }
    2:{ done. }
    2:{ done. }
    eexists _, F. split; [reflexivity|]. split; [done|].
    exists (length (closures (heap L))), {| cl_fn := fn_ErrorFunc; cl_upvalues := [] |}.
    split; [reflexivity|]. simpl. split; [|reflexivity].
    by rewrite lookup_app_r, Nat.sub_diag.
  - rewrite Hv. simpl. eexists _, _. split; [reflexivity|]. split; [done|].
    exists ref, cl. by rewrite <- Hv.
Qed.

Lemma call_frame_run L s f args nargs :
  stack L = s ++ f :: args -> Z.of_nat (length args) = nargs ->
  call_frame L nargs = Some (length s, f, args).
Proof.
  intros Hs Hn. unfold call_frame, lua_gettop. rewrite Hs, length_app. cbn [length].
  destruct (Z.leb_spec 0 nargs); [|lia].
  destruct (Z.leb_spec (nargs + 1) (Z.of_nat (length s + S (length args)))); [|lia].
  cbn [andb].
  replace (Z.to_nat (Z.of_nat (length s + S (length args)) - nargs - 1)) with (length s)
    by lia.
  rewrite lookup_app_r, Nat.sub_diag by lia. cbn [lookup list_lookup].
  replace (s ++ f :: args) with ((s ++ [f]) ++ args) by (by rewrite <- app_assoc).
  rewrite (drop_app_length' (s ++ [f]) args) by (rewrite length_app; simpl; lia). done.
Qed.

(** A protected call under the error function ends; when it fails, the
    value it leaves is a string (or a number). *)
Lemma lua_pcall_run L pre v f args nargs nresults :
  stack L = pre ++ v :: f :: args ->
  Z.of_nat (length args) = nargs ->
  is_ErrorFunc (heap L) v ->
  closures_kept ->
  exists status L' rest,
    lua_pcall nargs nresults (Z.of_nat (length pre) + 1) L = Ok status L'
    /\ stack L' = pre ++ v :: rest
    /\ (status <> 0 -> exists e, rest = [e] /\ stringy e).
Proof.
  intros Hs Hn (ref & cl & -> & Hcl & Hfn) Hkept. unfold lua_pcall.
  rewrite (call_frame_run L (pre ++ [VFunction ref]) f args nargs)
    by (by rewrite ?Hs, <- ?app_assoc).
  replace (Z.of_nat (length pre) + 1) with (Z.of_nat (S (length pre))) by lia.
  rewrite stack_slot_pos by (rewrite Hs, length_app; simpl; lia).
  replace (S (length pre) - 1)%nat with (length pre) by lia.
  assert (Hv : stack L !! length pre = Some (VFunction ref)).
  { rewrite Hs, lookup_app_r, Nat.sub_diag by lia. done. }
  assert (Ht : take (length (pre ++ [VFunction ref])) (stack L) = pre ++ [VFunction ref]).
  { rewrite Hs. replace (pre ++ VFunction ref :: f :: args)
      with ((pre ++ [VFunction ref]) ++ f :: args) by (by rewrite <- app_assoc).
    apply take_app_length. }
  rewrite Hv, Ht. cbn [default].
  destruct (run_callable (heap L) f args) as [results h|fl h] eqn:Hrun.
  - eexists _, _, _. split; [reflexivity|]. cbn [stack set_stack].
    split; [by rewrite <- app_assoc|done].
  - pose proof (luaG_errormsg_stringy LUAI_MAXCCALLS h (raw_error fl) (active_at fl) ref cl
                  (Hkept _ _ _ _ _ _ _ Hrun Hcl) Hfn (failure_stringy fl)) as Hmsg.
    destruct (luaG_errormsg _ _ _ _ _) as [msg h'].
    eexists _, _, _. split; [reflexivity|]. cbn [stack set_stack].
    split; [by rewrite <- app_assoc|]. intros _. by eexists.
Qed.

Lemma IndexAbsolute_neg L k :
  (1 <= k <= length (stack L))%nat ->
  IndexAbsolute L (- Z.of_nat k) = Z.of_nat (length (stack L) - k) + 1.
Proof.
  intros Hk. unfold IndexAbsolute, lua_gettop.
  destruct (Z.ltb_spec (- Z.of_nat k) 0); [|lia].
  destruct (Z.leb_spec (- Z.of_nat (length (stack L))) (- Z.of_nat k)); [|lia].
  simpl. lia.
Qed.

(** PCall_EF on a callable with [argc] arguments on top of [pre]. *)
Lemma PCall_EF_run L pre f args argc retc :
  stack L = pre ++ f :: args ->
  Z.of_nat (length args) = argc ->
  handler_intact (heap L) ->
  closures_kept ->
  exists status L' rest,
    PCall_EF argc retc L = Ok status L'
    /\ stack L' = pre ++ rest
    /\ (status <> 0 -> exists e, rest = [e] /\ stringy e).
Proof.
  intros Hs Hn Hint Hkept.
  destruct (CacheAndGet_ErrorFunc L Hint) as (L1 & v & H1 & Hs1 & Hv).
  unfold PCall_EF. unfold bind at 1. rewrite H1. unfold bind at 1, get at 1.
  assert (Herr : IndexAbsolute L1 (- (argc + 2)) = Z.of_nat (length pre) + 1).
  { replace (- (argc + 2)) with (- Z.of_nat (length args + 2)) by lia.
    rewrite IndexAbsolute_neg by (rewrite Hs1, Hs, !length_app; simpl; lia).
    rewrite Hs1, Hs, !length_app. simpl. lia. }
  rewrite Herr. unfold bind at 1.
  rewrite (lua_insert_run L1 pre (f :: args) v).
  2:{ by rewrite Hs1, Hs, <- app_assoc. }
  2:{ replace (Z.of_nat (length pre) + 1) with (Z.of_nat (S (length pre))) by lia.
      rewrite stack_slot_pos by (rewrite Hs1, Hs, !length_app; simpl; lia).
      f_equal. lia. }
  unfold bind at 1.
  destruct (lua_pcall_run (set_stack (pre ++ v :: f :: args) L1) pre v f args argc retc
              eq_refl Hn Hv Hkept) as (status & L2 & rest & H2 & Hs2 & Hfail).
  rewrite H2. unfold bind at 1.
  rewrite (lua_remove_run L2 pre rest v _ Hs2).
  2:{ replace (Z.of_nat (length pre) + 1) with (Z.of_nat (S (length pre))) by lia.
      rewrite stack_slot_pos by (rewrite Hs2, !length_app; simpl; lia).
      f_equal. lia. }
  eexists _, _, rest. split; [reflexivity|]. split; [done|exact Hfail].
Qed.

Lemma luaL_optstring_stringy L s e def :
  stack L = s ++ [e] -> stringy e ->
  exists str L', luaL_optstring (-1) def L = Ok str L' /\ lua_gettop L' = lua_gettop L.
Proof.
  intros Hs [str He]. unfold luaL_optstring, lua_isnoneornil.
  rewrite (index2adr_top _ _ _ Hs).
  unfold luaL_checkstring, bind, lua_tolstring. rewrite (index2adr_top _ _ _ Hs).
  destruct e; try done.
  - rewrite stack_slot_top by (rewrite Hs, length_app; simpl; lia).
    eexists _, _. split; [reflexivity|]. unfold lua_gettop. simpl.
    by rewrite length_insert.
  - eexists _, _. split; [reflexivity|]. done.
Qed.

(** The invocation of a protected CallCore throws or returns. *)
Lemma invoke_protected_outcome r count retc :
  0 <= count -> count + 1 <= lua_gettop (mL r) ->
  handler_intact (heap (mL r)) -> closures_kept ->
  match invoke r count retc true with
  | Thrown _ _ | Returned _ _ => True
  | Raised _ _ | Undefined _ | Exhausted => False
  end.
Proof.
  intros Hc Htop Hint Hkept. unfold invoke.
  set (after := lua_gettop (mL r) - count - 1).
  assert (Hafter : 0 <= after) by (unfold after; lia).
  destruct (mError r) as [error|].
  - destruct (lua_settop_height after (mL r) Hafter) as (L' & HL' & _).
    unfold bind, get, ret. by rewrite HL'.
  - assert (Hs : stack (mL r)
                 = take (Z.to_nat after) (stack (mL r))
                   ++ default VNil (stack (mL r) !! Z.to_nat after)
                      :: drop (S (Z.to_nat after)) (stack (mL r))).
    { unfold lua_gettop in *.
      destruct (lookup_lt_is_Some_2 (stack (mL r)) (Z.to_nat after)) as [f Hf];
        [unfold after, lua_gettop in *; lia|].
      rewrite Hf. simpl. by rewrite (take_drop_middle _ _ _ Hf). }
    destruct (PCall_EF_run (mL r) _ _ _ count retc Hs) as (status & L1 & rest & H1 & Hs1 & Hf);
      [|done|done|].
    { rewrite length_drop. unfold after, lua_gettop in *. lia. }
    unfold bind at 1. rewrite H1.
    destruct (status =? 0) eqn:E; cbn [negb].
    + unfold bind, get, ret. done.
    + destruct (Hf ltac:(intros ->; done)) as (e & -> & He).
      destruct (luaL_optstring_stringy L1 _ e "Caught non-string error" Hs1 He)
        as (str & L2 & H2 & _).
      unfold bind at 1. rewrite H2.
      destruct (lua_settop_height after L2 Hafter) as (L' & HL' & _).
      unfold bind, get, ret. by rewrite HL'.
Qed.

End CallOutcomeFacts.

Section MarshalerTheorems.
Context `{Interp}.

Lemma CallCore_protected_height L count retc params args :
  count + 1 <= lua_gettop L ->
  match CallCore L count retc params args true with
  | Thrown _ L' => lua_gettop L' = lua_gettop L - count - 1
  | Returned n L' => 0 <= n /\ lua_gettop L' = lua_gettop L - count - 1 + n
  | Raised _ _ | Undefined _ => True
  | Exhausted => False
  end.
Proof.
  intros Hcount. unfold CallCore.
  pose proof (marshal_ok L count params args) as Hm.
  destruct (marshal L count params args) as [count' r|e r| |]; try done.
  destruct Hm as (_ & _ & Hh & _).
  assert (Hafter : 0 <= lua_gettop (mL r) - count' - 1) by lia.
  pose proof (invoke_protected_height r count' retc Hafter) as Hi.
  replace (lua_gettop L - count - 1) with (lua_gettop (mL r) - count' - 1) by lia.
  by destruct (mError r).
Qed.

Lemma CallCore_protected_throws_or_returns L count retc params args count' r :
  count + 1 <= lua_gettop L ->
  marshal L count params args = Ok count' r ->
  0 <= count' ->
  handler_intact (heap (mL r)) ->
  closures_kept ->
  match CallCore L count retc params args true with
  | Thrown _ _ | Returned _ _ => True
  | Raised _ _ | Undefined _ | Exhausted => False
  end.
Proof.
  intros Hcount Hm Hc Hint Hkept. unfold CallCore.
  pose proof (marshal_ok L count params args) as Hok. rewrite Hm in *.
  destruct Hok as (_ & _ & Hh & _).
  assert (Htop : count' + 1 <= lua_gettop (mL r)) by lia.
  pose proof (invoke_protected_outcome r count' retc Hc Htop Hint Hkept) as Hi.
  by destruct (mError r).
Qed.

(** luaL_optstring on a message ErrorFunc left: the string, with the
    stack otherwise as it was. *)
Lemma luaL_optstring_top L s e def :
  stack L = s ++ [e] -> stringy e ->
  exists str e' L',
    luaL_optstring (-1) def L = Ok str L'
    /\ stack L' = s ++ [e'] /\ calls L' = calls L /\ heap L' = heap L.
Proof.
  intros Hs [str He]. unfold luaL_optstring, lua_isnoneornil.
  rewrite (index2adr_top _ _ _ Hs).
  unfold luaL_checkstring, bind, lua_tolstring. rewrite (index2adr_top _ _ _ Hs).
  destruct e; try done.
  - rewrite stack_slot_top by (rewrite Hs, length_app; simpl; lia).
    eexists _, _, _. split; [reflexivity|]. cbn [stack set_stack calls heap].
    split; [|done]. rewrite Hs, length_app. cbn [length].
    replace (length s + 1 - 1)%nat with (length s + 0)%nat by lia.
    rewrite insert_app_r. reflexivity.
  - eexists _, _, _. split; [reflexivity|]. done.
Qed.

(** PCall_EF, by what the call does: the results in the place of the
    function and its arguments, or the handler's message there. *)
Lemma PCall_EF_outcome L pre f args argc retc :
  stack L = pre ++ f :: args ->
  Z.of_nat (length args) = argc ->
  handler_intact (heap L) ->
  closures_kept ->
  calls (with_handler L) = calls L
  /\ match run_callable (heap (with_handler L)) f args with
     | CallOk results h =>
         PCall_EF argc retc L
         = Ok 0 (set_stack (pre ++ adjust retc results)
                   (set_heap h (log_call f args (with_handler L))))
     | CallErr fl h =>
         exists msg h',
           stringy msg
           /\ PCall_EF argc retc L
              = Ok LUA_ERRRUN (set_stack (pre ++ [msg])
                                 (set_heap h' (log_call f args (with_handler L))))
     end.
Proof.
  intros Hs Hn Hint Hkept.
  destruct (CacheAndGet_ErrorFunc L Hint) as (L1 & v & H1 & Hs1 & Hv).
  pose proof (quiet_CacheAndGet fn_ErrorFunc L) as Hq. rewrite H1 in Hq.
  unfold with_handler. rewrite H1. split; [exact Hq|].
  cbn [heap set_stack].
  set (L2 := set_stack (pre ++ v :: f :: args) L1).
  set (err := Z.of_nat (length pre) + 1).
  assert (HP : PCall_EF argc retc L
               = (let! result := lua_pcall argc retc err in
                  let! _ := lua_remove err in
                  ret result) L2).
  { unfold PCall_EF. unfold bind at 1. rewrite H1. unfold bind at 1, get at 1.
    assert (Herr : IndexAbsolute L1 (- (argc + 2)) = err).
    { replace (- (argc + 2)) with (- Z.of_nat (length args + 2)) by lia.
      rewrite IndexAbsolute_neg by (rewrite Hs1, Hs, !length_app; simpl; lia).
      rewrite Hs1, Hs, !length_app. unfold err. simpl. lia. }
    rewrite Herr. unfold bind at 1.
    rewrite (lua_insert_run L1 pre (f :: args) v); [done| |].
    - by rewrite Hs1, Hs, <- app_assoc.
    - unfold err. replace (Z.of_nat (length pre) + 1) with (Z.of_nat (S (length pre))) by lia.
      rewrite stack_slot_pos by (rewrite Hs1, Hs, !length_app; simpl; lia).
      f_equal. lia. }
  assert (Hslot : forall L0 rest, stack L0 = pre ++ v :: rest ->
            stack_slot L0 err = Some (length pre)).
  { intros L0 rest Hst. unfold err.
    replace (Z.of_nat (length pre) + 1) with (Z.of_nat (S (length pre))) by lia.
    rewrite stack_slot_pos by (rewrite Hst, length_app; simpl; lia). f_equal. lia. }
  destruct Hv as (ref & cl & -> & Hcl & Hfn).
  assert (Hframe : call_frame L2 argc = Some (length (pre ++ [VFunction ref]), f, args)).
  { apply call_frame_run; [|done]. cbn [stack L2 set_stack]. by rewrite <- app_assoc. }
  assert (Hl : stack L2 !! length pre = Some (VFunction ref)).
  { cbn [stack L2 set_stack]. by rewrite lookup_app_r, Nat.sub_diag by lia. }
  assert (Ht : take (length (pre ++ [VFunction ref])) (stack L2) = pre ++ [VFunction ref]).
  { cbn [stack L2 set_stack].
    replace (pre ++ VFunction ref :: f :: args)
      with ((pre ++ [VFunction ref]) ++ f :: args) by (by rewrite <- app_assoc).
    apply take_app_length. }
  destruct (run_callable (heap L1) f args) as [results h|fl h] eqn:Hrun.
  - rewrite HP. unfold bind at 1. unfold lua_pcall.
    rewrite Hframe, (Hslot L2 (f :: args) eq_refl).
    replace (heap L2) with (heap L1) by done. rewrite Hrun, Ht.
    unfold bind at 1.
    erewrite (lua_remove_run _ pre (adjust retc results) (VFunction ref)).
    2:{ cbn [stack set_stack set_heap]. by rewrite <- app_assoc. }
    2:{ apply (Hslot _ (adjust retc results)). cbn [stack set_stack set_heap].
        by rewrite <- app_assoc. }
    reflexivity.
  - pose proof (luaG_errormsg_stringy LUAI_MAXCCALLS h (raw_error fl) (active_at fl) ref cl
                  (Hkept _ _ _ _ _ _ _ Hrun Hcl) Hfn (failure_stringy fl)) as Hmsg.
    destruct (luaG_errormsg LUAI_MAXCCALLS h (VFunction ref) (raw_error fl) (active_at fl))
      as [msg h'] eqn:Hmsg'.
    exists msg, h'. split; [exact Hmsg|].
    rewrite HP. unfold bind at 1. unfold lua_pcall.
    rewrite Hframe, (Hslot L2 (f :: args) eq_refl).
    replace (heap L2) with (heap L1) by done. rewrite Hrun, Ht, Hl.
    cbn [default]. unfold id. rewrite Hmsg'.
    unfold bind at 1.
    erewrite (lua_remove_run _ pre [msg] (VFunction ref)).
    2:{ cbn [stack set_stack set_heap]. by rewrite <- app_assoc. }
    2:{ apply (Hslot _ [msg]). cbn [stack set_stack set_heap]. by rewrite <- app_assoc. }
    reflexivity.
Qed.

(** C1, amended: a protected call through CallCore whose format has
    been marshalled without an error of the runtime's own, the parse
    having only pushed values above the callable [f] and the [count]
    arguments that lay on the stack [pre]. When the parse has recorded
    an error, that error is thrown with the stack cut back to [pre],
    the pre-call stack. Otherwise [f] is called once, with the
    arguments and the values pushed: when it fails, a string is thrown
    with the stack cut back to [pre]; when it returns, its results,
    adjusted to [retc], stand on [pre] and CallCore returns their
    number. *)
Theorem CallCore_protected_call_outcome L pre f args0 count retc params args count' r pushed :
  stack L = pre ++ f :: args0 ->
  Z.of_nat (length args0) = count ->
  marshal L count params args = Ok count' r ->
  stack (mL r) = stack L ++ pushed ->
  handler_intact (heap (mL r)) ->
  closures_kept ->
  match mError r with
  | Some error =>
      CallCore L count retc params args true = Thrown error (set_stack pre (mL r))
  | None =>
      match run_callable (heap (with_handler (mL r))) f (args0 ++ pushed) with
      | CallOk results h =>
          CallCore L count retc params args true
          = Returned (Z.of_nat (length (adjust retc results)))
              (set_stack (pre ++ adjust retc results)
                 (set_heap h (log_call f (args0 ++ pushed) (with_handler (mL r)))))
      | CallErr fl h =>
          exists msg L',
            CallCore L count retc params args true = Thrown msg L'
            /\ stack L' = pre
            /\ calls L' = calls L ++ [(f, args0 ++ pushed)]
      end
  end.
Proof.
  intros Hs Hn Hm Hp Hint Hkept. unfold CallCore.
  pose proof (marshal_ok L count params args) as Hok. rewrite Hm in *.
  destruct Hok as (Hcalls & _ & Hh & _).
  assert (Hs' : stack (mL r) = pre ++ f :: (args0 ++ pushed))
    by (by rewrite Hp, Hs, <- app_assoc).
  assert (Hc' : Z.of_nat (length (args0 ++ pushed)) = count').
  { unfold lua_gettop in Hh. rewrite Hs', Hs, !length_app in Hh. cbn [length] in Hh.
    rewrite !length_app in *. lia. }
  assert (Hafter : lua_gettop (mL r) - count' - 1 = Z.of_nat (length pre)).
  { unfold lua_gettop. rewrite Hs', length_app. cbn [length]. lia. }
  assert (Hcut : forall L0 rest, stack L0 = pre ++ rest ->
            lua_settop (Z.of_nat (length pre)) L0 = Ok tt (set_stack pre L0)).
  { intros L0 rest Hst. unfold lua_settop.
    destruct (Z.leb_spec 0 (Z.of_nat (length pre))) as [_|]; [|lia].
    rewrite Nat2Z.id, Hst. unfold resize. rewrite take_app_length, length_app.
    replace (length pre - (length pre + length rest))%nat with 0%nat by lia.
    cbn [replicate]. by rewrite app_nil_r. }
  destruct (mError r) as [error|] eqn:He.
  - cbn [negb]. unfold invoke. rewrite He, Hafter.
    unfold bind at 1. rewrite (Hcut (mL r) _ Hs'). reflexivity.
  - unfold invoke. rewrite He, Hafter.
    destruct (PCall_EF_outcome (mL r) pre f (args0 ++ pushed) count' retc Hs' Hc' Hint Hkept)
      as [Hq Hrun].
    destruct (run_callable (heap (with_handler (mL r))) f (args0 ++ pushed))
      as [results h|fl h].
    + unfold bind at 1. rewrite Hrun. cbn [negb Z.eqb].
      unfold complete, bind, get, ret. f_equal.
      unfold lua_gettop. cbn [stack set_stack]. rewrite length_app. lia.
    + destruct Hrun as (msg & h' & Hstr & Hrun).
      unfold bind at 1. rewrite Hrun. unfold LUA_ERRRUN. cbn [negb Z.eqb].
      destruct (luaL_optstring_top
                  (set_stack (pre ++ [msg])
                     (set_heap h' (log_call f (args0 ++ pushed) (with_handler (mL r)))))
                  pre msg "Caught non-string error" eq_refl Hstr)
        as (str & e' & L2 & H2 & Hs2 & Hc2 & _).
      unfold bind at 1. rewrite H2. unfold bind at 1. rewrite (Hcut L2 [e'] Hs2).
      exists str, (set_stack pre L2). split; [reflexivity|]. split; [reflexivity|].
      cbn [calls set_stack]. rewrite Hc2. cbn [calls set_stack set_heap log_call].
      by rewrite Hq, Hcalls.
Qed.

(** C2, amended: in protected mode, when the parse of the format spec
    has recorded a structural error, the target is not invoked (the log
    of calls is as it was when CallCore started); the stack is cut back
    to the pre-call height and the recorded error is thrown. *)
Theorem CallCore_protected_parse_error_skips_call L count retc params args count' r error :
  count + 1 <= lua_gettop L ->
  marshal L count params args = Ok count' r ->
  mError r = Some error ->
  exists L',
    CallCore L count retc params args true = Thrown error L'
    /\ calls L' = calls L
    /\ heap L' = heap (mL r)
    /\ lua_gettop L' = lua_gettop L - count - 1.
Proof.
  intros Hcount Hm He. unfold CallCore.
  pose proof (marshal_ok L count params args) as Hok. rewrite Hm in *.
  destruct Hok as (Hcalls & _ & Hh & _). rewrite He. simpl.
  unfold invoke. rewrite He.
  destruct (lua_settop_height (lua_gettop (mL r) - count' - 1) (mL r) ltac:(lia))
    as (L' & HL' & Htop & Hc & Hheap).
  exists L'. unfold bind, get, ret. rewrite HL'. simpl.
  repeat split; [congruence|done|lia].
Qed.

End MarshalerTheorems.

Section DirectiveTheorems.
Context `{Interp}.

Lemma ReadElement_at_K fuel r p :
  skip_spaces (mParams r) = String "K" p ->
  ReadElement (S fuel) r
  = (if mHeight r =? 0 then Error "Key outside table" else _K (ReadElement fuel))
      (set_mParams (String "K" p) r).
Proof. intros Hp. cbn [ReadElement]. unfold bind, modify, get. rewrite Hp. reflexivity. Qed.

Lemma ReadElement_at_0 fuel r p :
  skip_spaces (mParams r) = String "0" p ->
  ReadElement (S fuel) r = _0 (set_mParams (String "0" p) r).
Proof. intros Hp. cbn [ReadElement]. unfold bind, modify, get. rewrite Hp. reflexivity. Qed.

Lemma ReadElement_at_a fuel r c p :
  skip_spaces (mParams r) = String c p -> c = "a"%char \/ c = "r"%char ->
  ReadElement (S fuel) r = _a (set_mParams (String c p) r).
Proof.
  intros Hp Hc. cbn [ReadElement]. unfold bind, modify, get. rewrite Hp.
  by destruct Hc as [-> | ->].
Qed.

(** What [_a] does with the index it is given. *)
Lemma _a_unfold r arg0 args :
  mArgs r = va_int arg0 :: args ->
  _a r =
    let r1 := set_mArgs args r in
    let arg := resolve_index r arg0 in
    if negb (is_pseudo arg0) && ((arg <=? 0) || (lua_gettop (mL r) <? arg)) then
      Error "Bad index" r1
    else if mInKey r && lua_isnil (mL r) arg then Error "Null key" r1
    else Ok true (if mShouldSkip r then r1 else set_mL (lua_pushvalue arg (mL r)) r1).
Proof.
  intros Ha. unfold _a, bind, va_arg, get, push_unless_skipped, modify, ret.
  rewrite Ha. cbn [as_int]. cbv zeta.
  change (resolve_index (set_mArgs args r) arg0) with (resolve_index r arg0).
  cbn [mL set_mArgs mInKey mShouldSkip].
  repeat case_match; simplify_eq/=; first [reflexivity | congruence].
Qed.

(** C5: when the key element of a K directive inside a table is the
    directive 0, or an a or r directive naming a stack slot that holds
    nil, reading the K element fails with the error "Null key", and the
    Lua state (the stack, and with it the enclosing table and every
    other table of the heap) is as it was before the K: the table got
    no entry. *)
Theorem K_nil_key_is_rejected fuel r p c q :
  skip_spaces (mParams r) = String "K" p ->
  skip_spaces p = String c q ->
  mHeight r <> 0 ->
  mError r = None ->
  nil_key r c q ->
  exists r',
    ReadElement (S (S fuel)) r = Ok false r'
    /\ mError r' = Some "Null key"
    /\ mL r' = mL r.
Proof.
  intros Hp Hq Hh He Hnil.
  rewrite (ReadElement_at_K _ _ _ Hp). cbn [mHeight set_mParams].
  destruct (mHeight r =? 0) eqn:E; [apply Z.eqb_eq in E; done|].
  unfold _K. unfold bind at 1, modify at 1. unfold bind at 1, modify at 1.
  unfold bind at 1.
  set (rk := set_mInKey true _).
  assert (Hk : skip_spaces (mParams rk) = String c q) by exact Hq.
  destruct Hnil as [-> | [Hc (arg0 & args & Ha & Hidx & Hn)]].
  - rewrite (ReadElement_at_0 _ _ _ Hk). unfold _0, bind, get. cbn [mInKey set_mParams rk set_mInKey].
    unfold Error. cbn [mError set_mParams rk set_mInKey next_param mParams]. rewrite He.
    cbn [negb mError set_mError]. eexists. split; [reflexivity|]. split; reflexivity.
  - rewrite (ReadElement_at_a _ _ _ _ Hk Hc).
    erewrite _a_unfold by exact Ha.
    cbv zeta.
    change (resolve_index (set_mParams (String c q) rk) arg0)
      with (resolve_index (set_mParams (String c q) r) arg0).
    cbn [mL set_mParams rk set_mInKey next_param mParams mInKey].
    assert (Hvalid : negb (is_pseudo arg0)
                     && ((resolve_index (set_mParams (String c q) r) arg0 <=? 0)
                         || (lua_gettop (mL r) <? resolve_index (set_mParams (String c q) r) arg0))
                     = false).
    { destruct Hidx as [-> | Hr]; [done|].
      apply andb_false_intro2, orb_false_intro; [apply Z.leb_gt|apply Z.ltb_ge]; lia. }
    rewrite Hvalid, Hn. cbn [andb].
    unfold Error. cbn [mError set_mParams set_mArgs rk set_mInKey next_param mParams].
    rewrite He. cbn [negb mError set_mError].
    eexists. split; [reflexivity|]. split; reflexivity.
Qed.

(** C6, amended: in any state [r] the parse of CallCore reaches, a
    negative index [arg0] that is no pseudo-index resolves under 'a' to
    [arg0 + (top - count)], where [top] is the stack height when
    CallCore was entered and [count] the number of arguments pushed
    before (so -1 names the slot just below the callable), and under
    'r' to [arg0 + current top + 1]. In both cases an index resolved
    outside [1, current top] gives the error "Bad index", and one
    inside it has its value pushed. *)
Theorem negative_index_resolution L count params args r arg0 rest :
  stays (new_Reader args L params (lua_gettop L - count)) r ->
  mArgs r = va_int arg0 :: rest ->
  arg0 < 0 ->
  is_pseudo arg0 = false ->
  mError r = None ->
  (peek r = "a"%char -> resolve_index r arg0 = arg0 + (lua_gettop L - count))
  /\ (peek r = "r"%char -> resolve_index r arg0 = arg0 + lua_gettop (mL r) + 1)
  /\ (resolve_index r arg0 <= 0 \/ lua_gettop (mL r) < resolve_index r arg0 ->
      _a r = Ok false (set_mError (Some "Bad index") (set_mArgs rest r)))
  /\ (1 <= resolve_index r arg0 <= lua_gettop (mL r) ->
      mInKey r = false -> mShouldSkip r = false ->
      _a r = Ok true (set_mL (lua_pushvalue (resolve_index r arg0) (mL r))
                        (set_mArgs rest r))).
Proof.
  intros (Htop & _ & _) Ha Hneg Hps He. cbn [mTop new_Reader] in Htop.
  assert (Hlt : (arg0 <? 0) = true) by (apply Z.ltb_lt; lia).
  repeat split.
  - intros Hc. unfold resolve_index. rewrite Hps, Hlt, Hc. cbn. lia.
  - intros Hc. unfold resolve_index. rewrite Hps, Hlt, Hc. cbn. lia.
  - intros Hbad. rewrite (_a_unfold _ _ _ Ha). cbv zeta. rewrite Hps. cbn [negb andb].
    assert (Hb : (resolve_index r arg0 <=? 0) || (lua_gettop (mL r) <? resolve_index r arg0)
                 = true).
    { apply orb_true_iff. destruct Hbad; [left; apply Z.leb_le|right; apply Z.ltb_lt]; lia. }
    rewrite Hb. unfold Error. cbn [mError set_mArgs]. by rewrite He.
  - intros Hok Hk Hs. rewrite (_a_unfold _ _ _ Ha). cbv zeta. rewrite Hps, Hk, Hs.
    cbn [negb andb].
    assert (Hb : (resolve_index r arg0 <=? 0) || (lua_gettop (mL r) <? resolve_index r arg0)
                 = false).
    { apply orb_false_intro; [apply Z.leb_gt|apply Z.ltb_ge]; lia. }
    by rewrite Hb.
Qed.

End DirectiveTheorems.


(** ** Native memory and the member bridge *)

Section MemoryFacts.
Context `{Platform}.

Lemma lookup_write_cells cells : forall m a x,
  x < a \/ a + Z.of_nat (length cells) <= x ->
  write_cells m a cells !! x = m !! x.
Proof.
  induction cells as [|c cells IH]; intros m a x Hx; [done|].
  cbn [write_cells length] in *. rewrite IH by lia.
  apply lookup_insert_ne. lia.
Qed.

Lemma load_cells_write_cells cells : forall m a,
  load_cells (write_cells m a cells) a (length cells) = Some cells.
Proof.
  induction cells as [|c cells IH]; intros m a; [done|].
  cbn [write_cells length load_cells].
  rewrite lookup_write_cells by lia. rewrite lookup_insert_eq, IH. done.
Qed.

Lemma load_cells_ext m1 m2 n : forall a,
  (forall x, a <= x < a + Z.of_nat n -> m1 !! x = m2 !! x) ->
  load_cells m1 a n = load_cells m2 a n.
Proof.
  induction n as [|n IH]; intros a Hx; [done|].
  cbn [load_cells]. rewrite (Hx a) by lia. rewrite (IH (a + 1)); [done|].
  intros x ?. apply Hx. lia.
Qed.

Lemma load_cells_write_cells_other cells m a b n :
  b + Z.of_nat n <= a \/ a + Z.of_nat (length cells) <= b ->
  load_cells (write_cells m a cells) b n = load_cells m b n.
Proof.
  intros Hd. apply load_cells_ext. intros x Hx. apply lookup_write_cells. lia.
Qed.

Lemma load_cells_length m n : forall a cells,
  load_cells m a n = Some cells -> length cells = n.
Proof.
  induction n as [|n IH]; intros a cells; cbn [load_cells]; [by intros [= <-]|].
  destruct (m !! a); [|done]. destruct (load_cells m (a + 1) n) eqn:E; [|done].
  intros [= <-]. simpl. f_equal. by eapply IH.
Qed.

Lemma store_cells_Some m a cells :
  is_Some (load_cells m a (length cells)) ->
  store_cells m a cells = Some (write_cells m a cells).
Proof. intros [old Hold]. unfold store_cells. by rewrite Hold. Qed.

Lemma length_le_encode n : forall z, length (le_encode n z) = n.
Proof. induction n as [|n IH]; intros z; simpl; [done|]. by rewrite IH. Qed.

Lemma le_decode_le_encode n : forall z,
  le_decode (le_encode n z) = Some (z mod 2 ^ (8 * Z.of_nat n)).
Proof.
  induction n as [|n IH]; intros z.
  - simpl. by rewrite Z.mod_1_r.
  - cbn [le_encode le_decode]. rewrite IH. f_equal.
    replace (8 * Z.of_nat (S n)) with (8 + 8 * Z.of_nat n) by lia.
    rewrite Z.pow_add_r by lia. change (2 ^ 8) with 256.
    rewrite Z.rem_mul_r; lia.
Qed.

Lemma load_unsigned_store_int m a n z m' :
  store_int m a n z = Some m' ->
  load_unsigned m' a n = Some (z mod 2 ^ (8 * Z.of_nat n)).
Proof.
  unfold store_int, store_cells, load_unsigned. rewrite length_le_encode.
  destruct (load_cells m a n); [|done]. intros [= <-].
  pose proof (load_cells_write_cells (le_encode n z) m a) as Hl.
  rewrite length_le_encode in Hl. rewrite Hl. apply le_decode_le_encode.
Qed.

Lemma store_int_Some m a n z :
  is_Some (load_cells m a n) -> is_Some (store_int m a n z).
Proof.
  intros Hl. unfold store_int. rewrite store_cells_Some; [done|].
  by rewrite length_le_encode.
Qed.

Lemma load_cells_store_int_other m a n z m' b k :
  store_int m a n z = Some m' ->
  b + Z.of_nat k <= a \/ a + Z.of_nat n <= b ->
  load_cells m' b k = load_cells m b k.
Proof.
  unfold store_int, store_cells. rewrite length_le_encode.
  destruct (load_cells m a n); [|done]. intros [= <-] Hd.
  apply load_cells_write_cells_other. by rewrite length_le_encode.
Qed.

Lemma wrap_signed_mod bits z : wrap_signed bits (z mod 2 ^ bits) = wrap_signed bits z.
Proof. unfold wrap_signed. by rewrite Zmod_mod. Qed.

Lemma wrap_signed_id bits z :
  0 < bits -> - 2 ^ (bits - 1) <= z < 2 ^ (bits - 1) -> wrap_signed bits z = z.
Proof.
  intros Hbits Hz. unfold wrap_signed.
  assert (Hp : 2 ^ bits = 2 * 2 ^ (bits - 1)).
  { rewrite <- Z.pow_succ_r by lia. f_equal. lia. }
  assert (0 < 2 ^ (bits - 1)) by (apply Z.pow_pos_nonneg; lia).
  destruct (Z.le_gt_cases 0 z).
  - rewrite Z.mod_small by lia. destruct (_ <? _) eqn:E; [done|]. apply Z.ltb_ge in E. lia.
  - replace (z mod 2 ^ bits) with (z + 2 ^ bits).
    + destruct (_ <? _) eqn:E; [apply Z.ltb_lt in E; lia|lia].
    + symmetry. rewrite <- (Z.mod_add z 1) by lia. rewrite Z.mod_small; lia.
Qed.

Lemma wrap_unsigned_id bits z : 0 <= z < 2 ^ bits -> wrap_unsigned bits z = z.
Proof. intros Hz. unfold wrap_unsigned. by apply Z.mod_small. Qed.

Lemma in_signed_spec bits z :
  in_signed bits z = true <-> - 2 ^ (bits - 1) <= z < 2 ^ (bits - 1).
Proof. unfold in_signed. rewrite andb_true_iff, Z.leb_le, Z.ltb_lt. done. Qed.

End MemoryFacts.


Section PeerFacts.
Context `{Interp}.

Ltac unfold_api :=
  unfold lua_rawgeti, lua_rawseti, lua_gettable, lua_settable, lua_pop, lua_settop,
    lua_insert, lua_replace, lua_remove, lua_toboolean, lua_isnil, lua_isuserdata,
    lua_touserdata, lua_pushvalue, lua_pushlightuserdata, lua_pushinteger,
    lua_pushnumber, lua_pushboolean, lua_pushstring, value_at, table_at, top_value,
    index2adr, stack_slot, lua_gettop, lua_upvalueindex, LUA_GLOBALSINDEX,
    LUA_REGISTRYINDEX, LUA_ENVIRONINDEX, push, pop1, Arg.UD, read, write,
    bind, get, modify, ret, fault.

(** Lookup pushes the data value and changes nothing else. *)
Lemma Lookup_enter h cl boxed overrides object args active base :
  bridge_data h cl boxed overrides ->
  base_value h boxed object = Some base ->
  (length args <= 2)%nat ->
  Lookup (enter h cl (object :: args) active)
  = Ok tt (enter h cl (object :: args ++ [base]) active).
Proof.
  intros (d & o & dt & Hup & Hd & Hb & Ho) Hbase Hlen.
  destruct cl as [fn ups]. cbn in Hup. subst ups.
  unfold Lookup, enter, base_value, handle_address in *.
  destruct args as [|a1 [|a2 [|a3 args]]]; [| | |simpl in Hlen; lia];
    unfold_api; simpl; rewrite Hd; simpl;
    change 2 with eBoxed; rewrite Hb; simpl;
    (destruct boxed; simpl;
      [destruct object; simplify_eq/=;
       destruct (load_pointer (memory h) _); by simplify_eq/=
      |by simplify_eq/=]).
Qed.

Lemma bridge_data_set_memory h cl boxed overrides m :
  bridge_data h cl boxed overrides -> bridge_data (set_memory m h) cl boxed overrides.
Proof. intros (d & o & dt & ?). by exists d, o, dt. Qed.

Lemma in_signed_word z : - 2 ^ 31 <= z < 2 ^ 31 -> in_signed (8 * word_bytes) z = true.
Proof.
  intros Hz. apply in_signed_spec.
  destruct word_bytes_4_or_8 as [-> | ->]; simpl; lia.
Qed.

Lemma wrap_unsigned_signed z : wrap_unsigned 32 (wrap_signed 32 z) = z mod 2 ^ 32.
Proof.
  unfold wrap_unsigned, wrap_signed. destruct (_ <? _).
  - apply Zmod_mod.
  - rewrite <- (Z.mod_add _ 1) by lia.
    replace (z mod 2 ^ 32 - 2 ^ 32 + 1 * 2 ^ 32) with (z mod 2 ^ 32) by lia.
    apply Zmod_mod.
Qed.

Lemma luaL_checkint_run L idx z :
  lua_tonumber L idx = Some (int2num z) ->
  in_signed (8 * word_bytes) z = true ->
  - 2 ^ 53 <= z <= 2 ^ 53 ->
  luaL_checkint idx L = Ok (wrap_signed 32 z) L.
Proof.
  intros Hn Hs Hz. unfold luaL_checkint, luaL_checkinteger, bind, ret.
  rewrite Hn, (num2int_int2num z Hz), Hs. done.
Qed.

(** An unsigned 32-bit value read through uI. *)
Lemma uI_run L idx z :
  lua_tonumber L idx = Some (int2num z) ->
  0 <= z < 2 ^ 32 -> z < 2 ^ (8 * word_bytes - 1) ->
  Arg.uI idx L = Ok z L.
Proof.
  intros Hn Hz Hw. unfold Arg.uI, bind, ret.
  rewrite (luaL_checkint_run _ _ z Hn); [|by apply in_signed_spec; lia|lia].
  by rewrite wrap_unsigned_signed, Z.mod_small.
Qed.

Lemma type_of_code_type_code ty : type_of_code (type_code ty) = Some ty.
Proof. by destruct ty. Qed.

Lemma type_code_range ty : 0 <= type_code ty < 2 ^ 31.
Proof. destruct ty; simpl; lia. Qed.

Lemma word_bound z : z < 2 ^ 31 -> z < 2 ^ (8 * word_bytes - 1).
Proof. destruct word_bytes_4_or_8 as [-> | ->]; simpl; lia. Qed.

Lemma GetFields_write h cl base key value m k kt a offset code active :
  tables h !! k = Some kt ->
  tbl_get kt (VNumber (int2num eDOffset)) = VNumber (int2num offset) ->
  tbl_get kt (VNumber (int2num eDType)) = VNumber (int2num code) ->
  handle_address base = Some a ->
  0 <= offset < 2 ^ 31 ->
  GetFields (enter h cl [base; key; value; VTable m; VTable k] active)
  = Ok (a + offset)
      (enter h cl [base; key; value; VTable m; VTable k;
                   VNumber (int2num offset); VNumber (int2num code)] active).
Proof.
  intros Hk Hoff Hcode Ha Hrange.
  unfold GetFields, enter. unfold eDOffset, eDType in *.
  unfold_api. simpl.
  repeat (first [rewrite Hk | rewrite Hoff | rewrite Hcode]; simpl).
  unfold_api. simpl.
  destruct base; simplify_eq/=;
    (erewrite uI_run; [reflexivity|reflexivity|lia|apply word_bound; lia]).
Qed.

Lemma GetFields_read h cl base key m k kt a offset code active :
  tables h !! k = Some kt ->
  tbl_get kt (VNumber (int2num eDOffset)) = VNumber (int2num offset) ->
  tbl_get kt (VNumber (int2num eDType)) = VNumber (int2num code) ->
  handle_address base = Some a ->
  0 <= offset < 2 ^ 31 ->
  GetFields (enter h cl [base; key; VTable m; VTable k] active)
  = Ok (a + offset)
      (enter h cl [base; key; VTable m; VTable k;
                   VNumber (int2num offset); VNumber (int2num code)] active).
Proof.
  intros Hk Hoff Hcode Ha Hrange.
  unfold GetFields, enter. unfold eDOffset, eDType in *.
  unfold_api. simpl.
  repeat (first [rewrite Hk | rewrite Hoff | rewrite Hcode]; simpl).
  unfold_api. simpl.
  destruct base; simplify_eq/=;
    (erewrite uI_run; [reflexivity|reflexivity|lia|apply word_bound; lia]).
Qed.

Lemma signed_run bits (f : Z -> M lua_State Z) L idx z :
  (forall i, f i = let! x := luaL_checkint i in ret (wrap_signed bits x)) ->
  0 < bits <= 32 ->
  lua_tonumber L idx = Some (int2num z) ->
  - 2 ^ (bits - 1) <= z < 2 ^ (bits - 1) ->
  f idx L = Ok z L.
Proof.
  intros Hf Hbits Hn Hz. rewrite Hf. unfold bind, ret.
  assert (2 ^ (bits - 1) <= 2 ^ 31) by (apply Z.pow_le_mono_r; lia).
  rewrite (luaL_checkint_run _ _ z Hn); [|apply in_signed_word; lia|lia].
  rewrite (wrap_signed_id 32 z) by lia. by rewrite wrap_signed_id by lia.
Qed.

Lemma unsigned_run bits (f : Z -> M lua_State Z) L idx z :
  (forall i, f i = let! x := luaL_checkint i in ret (wrap_unsigned bits x)) ->
  0 < bits <= 16 ->
  lua_tonumber L idx = Some (int2num z) ->
  0 <= z < 2 ^ bits ->
  f idx L = Ok z L.
Proof.
  intros Hf Hbits Hn Hz. rewrite Hf. unfold bind, ret.
  assert (2 ^ bits <= 2 ^ 16) by (apply Z.pow_le_mono_r; lia).
  rewrite (luaL_checkint_run _ _ z Hn); [|apply in_signed_word; lia|lia].
  rewrite (wrap_signed_id 32 z) by lia. by rewrite wrap_unsigned_id by lia.
Qed.

Lemma Set_int_run L pData n (func : Z -> M lua_State Z) v :
  func 3 L = Ok v L ->
  is_Some (load_cells (memory (heap L)) pData n) ->
  Set_int pData n func L
  = Ok tt (set_heap (set_memory (write_cells (memory (heap L)) pData (le_encode n v))
                       (heap L)) L).
Proof.
  intros Hf Ha. unfold Set_int, bind, get. rewrite Hf. unfold store_int.
  rewrite store_cells_Some by (by rewrite length_le_encode). done.
Qed.

(** NewIndexMember stores the cells of the value in the field. *)
Lemma NewIndexMember_run h cl base key value m k kt a offset ty active :
  tables h !! k = Some kt ->
  tbl_get kt (VNumber (int2num eDOffset)) = VNumber (int2num offset) ->
  tbl_get kt (VNumber (int2num eDType)) = VNumber (int2num (type_code ty)) ->
  handle_address base = Some a ->
  0 <= offset < 2 ^ 31 ->
  fits ty value ->
  is_Some (load_cells (memory h) (a + offset) (type_size ty)) ->
  exists L1,
    NewIndexMember (enter h cl [base; key; value; VTable m; VTable k] active) = Ok tt L1
    /\ heap L1 = set_memory (write_cells (memory h) (a + offset) (member_cells ty value)) h
    /\ calls L1 = [].
Proof.
  intros Hk Hoff Hcode Ha Hrange Hfits Halloc.
  unfold NewIndexMember. unfold bind at 1.
  rewrite (GetFields_write _ _ _ _ _ _ _ _ _ _ _ _ Hk Hoff Hcode Ha Hrange).
  unfold bind at 1.
  pose proof (type_code_range ty) as Hc.
  erewrite uI_run; [|reflexivity|lia|apply word_bound; lia].
  rewrite type_of_code_type_code.
  set (L := enter h cl _ active).
  destruct ty; simpl in Hfits;
    [destruct Hfits as (p & -> & Hp)
    |destruct Hfits as (z & -> & Hz)..
    |destruct Hfits as (z & -> & Hz & Hw)
    |destruct Hfits as (z & -> & Hz & Hw)
    |destruct Hfits as (str & -> & Hs & Hp)
    |destruct Hfits as (b & ->)
    |destruct Hfits as (f & ->)
    |destruct Hfits as (d & ->)].
  all: try (erewrite Set_int_run; [eexists; split; [reflexivity|split; [|done]]|..|exact Halloc]).
  all: simpl member_cells; cbn [heap L enter]; rewrite ?num2int_int2num by lia; try reflexivity.
  all: try (eapply (signed_run 8); [done|lia|reflexivity|lia]).
  all: try (eapply (signed_run 16); [done|lia|reflexivity|lia]).
  all: try (eapply (signed_run 32); [done|lia|reflexivity|lia]).
  all: try (eapply (unsigned_run 8); [done|lia|reflexivity|lia]).
  all: try (eapply (unsigned_run 16); [done|lia|reflexivity|lia]).
  all: try (eapply uI_run; [reflexivity|lia|lia]).
  all: unfold Arg.F, Arg.D, luaL_checknumber, bind, get, ret, write, L; simpl;
    rewrite store_cells_Some by exact Halloc;
    eexists; split; [reflexivity|done].
Qed.

Lemma load_float_cells m a f :
  load_cells m a 4 = Some (float_cells f) -> load_float m a = Some f.
Proof.
  intros Hl. unfold load_float. rewrite Hl. unfold float_cells. simpl.
  by rewrite decide_True.
Qed.

Lemma load_double_cells m a d :
  load_cells m a 8 = Some (double_cells d) -> load_double m a = Some d.
Proof.
  intros Hl. unfold load_double. rewrite Hl. unfold double_cells. simpl.
  by rewrite decide_True.
Qed.

Lemma load_unsigned_cells m a n z :
  load_cells m a n = Some (le_encode n z) ->
  load_unsigned m a n = Some (z mod 2 ^ (8 * Z.of_nat n)).
Proof. intros Hl. unfold load_unsigned. rewrite Hl. apply le_decode_le_encode. Qed.

Lemma load_signed_cells m a n z :
  load_cells m a n = Some (le_encode n z) ->
  (0 < n)%nat -> - 2 ^ (8 * Z.of_nat n - 1) <= z < 2 ^ (8 * Z.of_nat n - 1) ->
  load_signed m a n = Some z.
Proof.
  intros Hl Hn Hz. unfold load_signed. rewrite (load_unsigned_cells _ _ _ _ Hl).
  rewrite wrap_signed_mod, wrap_signed_id; [done|lia|done].
Qed.

Lemma as_lua_Integer_id z : - 2 ^ 31 <= z < 2 ^ 31 -> as_lua_Integer z = z.
Proof.
  intros Hz. unfold as_lua_Integer.
  destruct word_bytes_4_or_8 as [-> | ->]; apply wrap_signed_id; simpl; lia.
Qed.

Lemma as_lua_Integer_unsigned z :
  0 <= z < 2 ^ 32 -> z < 2 ^ (8 * word_bytes - 1) -> as_lua_Integer z = z.
Proof.
  intros Hz Hw. unfold as_lua_Integer.
  destruct word_bytes_4_or_8 as [Hb | Hb]; rewrite Hb in *; apply wrap_signed_id;
    simpl in *; lia.
Qed.

Lemma word_size_bits : 8 * Z.of_nat word_size = 8 * word_bytes.
Proof. unfold word_size. destruct word_bytes_4_or_8 as [-> | ->]; done. Qed.

(** IndexMember pushes the value whose cells the field holds. *)
Lemma IndexMember_run h cl base key value m k kt a offset ty active :
  tables h !! k = Some kt ->
  tbl_get kt (VNumber (int2num eDOffset)) = VNumber (int2num offset) ->
  tbl_get kt (VNumber (int2num eDType)) = VNumber (int2num (type_code ty)) ->
  handle_address base = Some a ->
  0 <= offset < 2 ^ 31 ->
  fits ty value ->
  load_cells (memory h) (a + offset) (type_size ty) = Some (member_cells ty value) ->
  exists L2,
    IndexMember (enter h cl [base; key; VTable m; VTable k] active) = Ok tt L2
    /\ value_at L2 (-1) = value
    /\ heap L2 = h
    /\ calls L2 = [].
Proof.
  intros Hk Hoff Hcode Ha Hrange Hfits Hcells.
  unfold IndexMember. unfold bind at 1.
  rewrite (GetFields_read _ _ _ _ _ _ _ _ _ _ _ Hk Hoff Hcode Ha Hrange).
  unfold bind at 1.
  pose proof (type_code_range ty) as Hc.
  erewrite uI_run; [|reflexivity|lia|apply word_bound; lia].
  rewrite type_of_code_type_code. unfold bind at 1, get at 1.
  cbn [heap enter].
  destruct ty; simpl in Hfits;
    [destruct Hfits as (p & -> & Hp)
    |destruct Hfits as (z & -> & Hz)..
    |destruct Hfits as (z & -> & Hz & Hw)
    |destruct Hfits as (z & -> & Hz & Hw)
    |destruct Hfits as (str & -> & Hs & Hp)
    |destruct Hfits as (b & ->)
    |destruct Hfits as (f & ->)
    |destruct Hfits as (d & ->)].
  all: simpl member_cells in Hcells; simpl type_size in Hcells;
    rewrite ?num2int_int2num in Hcells by lia;
    rewrite ?num2float_float2num in Hcells.
  all: unfold load_pointer;
    first
      [ erewrite load_signed_cells; [|exact Hcells|lia|simpl; lia]
      | erewrite load_unsigned_cells; [|exact Hcells]
      | erewrite load_float_cells; [|exact Hcells]
      | erewrite load_double_cells; [|exact Hcells] ].
  all: rewrite ?word_size_bits; rewrite ?Z.mod_small by (simpl; first [lia | by destruct b]).
  all: rewrite ?as_lua_Integer_id by lia; rewrite ?as_lua_Integer_unsigned by lia.
  all: rewrite ?c_str_str_ptr, ?Hs.
  all: unfold bind, read, ret, modify; eexists; (split; [reflexivity|]).
  all: rewrite ?as_lua_Integer_id by lia; rewrite ?as_lua_Integer_unsigned by lia;
    rewrite ?c_str_str_ptr, ?Hs.
  all: split; [|done].
  all: try reflexivity.
  by destruct b.
Qed.

Lemma load_pointer_write_cells_other m a cells ha :
  ha + word_bytes <= a \/ a + Z.of_nat (length cells) <= ha ->
  load_pointer (write_cells m a cells) ha = load_pointer m ha.
Proof.
  intros Hd. unfold load_pointer, load_unsigned.
  rewrite load_cells_write_cells_other; [done|].
  unfold word_size. destruct word_bytes_4_or_8 as [Hb | Hb]; rewrite Hb in *; lia.
Qed.

Lemma length_member_cells ty value : fits ty value -> length (member_cells ty value) = type_size ty.
Proof.
  destruct ty; simpl; intros Hf; destruct Hf as (? & -> & ?) || destruct Hf as (? & ->);
    simpl; by rewrite ?length_le_encode.
Qed.

Lemma adjust_1 (results : list Value) : adjust 1 results = [default VNil (head results)].
Proof. by destruct results as [|v [|w results]]. Qed.

(** C8: a read through the __index closure BindPeer built, for an
    object whose data value is [base]. When the getter table has an
    entry for the key, that getter is called with the object, the key
    and the data value, nothing else is called, and the closure returns
    one value, the first result of the getter (an error of the getter
    is passed on); the descriptor table is not part of the statement.
    When there is no getter and the descriptor table has no entry for
    the key, the closure returns nil, calls nothing and leaves the heap
    as it is. *)
Theorem Index_getter_or_nil h cl boxed getters object key base active :
  bridge_data h cl boxed getters ->
  base_value h boxed object = Some base ->
  (tbl_get getters key <> VNil ->
   match run_callable h (tbl_get getters key) [object; key; base] with
   | CallOk results h' =>
       exists L', Index (enter h cl [object; key] active) = Ok 1 L'
                  /\ stack L' = [default VNil (head results)]
                  /\ heap L' = h'
                  /\ calls L' = [(tbl_get getters key, [object; key; base])]
   | CallErr fl h' =>
       exists L', Index (enter h cl [object; key] active) = Raise (raw_error fl) L'
                  /\ calls L' = [(tbl_get getters key, [object; key; base])]
   end)
  /\ (tbl_get getters key = VNil ->
      forall descriptors,
        bridge_descriptors h cl descriptors ->
        tbl_get descriptors key = VNil ->
        exists L', Index (enter h cl [object; key] active) = Ok 1 L'
                   /\ value_at L' (-1) = VNil
                   /\ heap L' = h
                   /\ calls L' = []).
Proof.
  intros Hdata Hbase. split.
  - intros Hget.
    assert (HI : Index (enter h cl [object; key] active)
                 = (let! _ := lua_call 3 1 in ret 1)
                     (enter h cl [tbl_get getters key; object; key; base] active)).
    { unfold Index. unfold bind at 1.
      rewrite (Lookup_enter _ _ _ _ _ _ _ _ Hdata Hbase) by (simpl; lia).
      destruct Hdata as (d & o & dt & Hup & Hd & Hb & Ho).
      destruct cl as [fn ups]. cbn in Hup. subst ups.
      unfold enter. unfold_api. simpl. rewrite Ho. simpl.
      by destruct (tbl_get getters key). }
    rewrite HI. unfold bind, ret, lua_call, call_frame, lua_gettop, enter. simpl.
    destruct (run_callable _ _ _) as [results h'|fl h']; simpl.
    + rewrite adjust_1. eexists. split; [reflexivity|by repeat split].
    + eexists. split; [reflexivity|done].
  - intros Hget descriptors (d' & dt' & m & Hup' & Hd' & Hm & Hdesc) Hkey.
    unfold Index. unfold bind at 1.
    rewrite (Lookup_enter _ _ _ _ _ _ _ _ Hdata Hbase) by (simpl; lia).
    destruct Hdata as (d & o & dt & Hup & Hd & Hb & Ho).
    destruct cl as [fn ups]. cbn in Hup, Hup'. subst ups. simplify_eq/=.
    unfold enter. unfold_api. simpl. rewrite Ho. simpl. rewrite Hget. simpl.
    rewrite Hd. simpl. change 1 with eDescriptors at 1. rewrite Hm. simpl.
    rewrite Hdesc. simpl. rewrite Hkey. simpl.
    eexists. split; [reflexivity|]. by repeat split.
Qed.

(** C10: a write through the __newindex closure BindPeer built, with
    a key that has no entry in the setter table and none in the
    descriptor table, returns no result, raises no error, calls
    nothing, and leaves native memory and the whole heap as they
    were. *)
Theorem NewIndex_unknown_member_is_dropped h cl boxed setters descriptors
    object key value base active :
  bridge_data h cl boxed setters ->
  bridge_descriptors h cl descriptors ->
  base_value h boxed object = Some base ->
  tbl_get setters key = VNil ->
  tbl_get descriptors key = VNil ->
  exists L',
    NewIndex (enter h cl [object; key; value] active) = Ok 0 L'
    /\ memory (heap L') = memory h
    /\ heap L' = h
    /\ calls L' = [].
Proof.
  intros Hdata (d' & dt' & m & Hup' & Hd' & Hm & Hdesc) Hbase Hset Hkey.
  unfold NewIndex. unfold bind at 1.
  rewrite (Lookup_enter _ _ _ _ _ _ _ _ Hdata Hbase) by (simpl; lia).
  destruct Hdata as (d & o & dt & Hup & Hd & Hb & Ho).
  destruct cl as [fn ups]. cbn in Hup, Hup'. subst ups. simplify_eq/=.
  unfold enter. unfold_api. simpl. rewrite Ho. simpl. rewrite Hset. simpl.
  rewrite Hd. simpl. change 1 with eDescriptors at 1. rewrite Hm. simpl.
  rewrite Hdesc. simpl. rewrite Hkey. simpl.
  eexists. split; [reflexivity|]. by repeat split.
Qed.

Lemma bridge_descriptors_set_memory h cl descriptors m :
  bridge_descriptors h cl descriptors -> bridge_descriptors (set_memory m h) cl descriptors.
Proof. intros (d & dt & t & ?). by exists d, dt, t. Qed.

Lemma NewIndex_to_member h cl boxed setters descriptors object key value base k active :
  bridge_data h cl boxed setters ->
  bridge_descriptors h cl descriptors ->
  base_value h boxed object = Some base ->
  tbl_get setters key = VNil ->
  tbl_get descriptors key = VTable k ->
  exists m,
    NewIndex (enter h cl [object; key; value] active)
    = (let! _ := NewIndexMember in ret 0)
        (enter h cl [base; key; value; VTable m; VTable k] active).
Proof.
  intros Hdata (d' & dt' & m & Hup' & Hd' & Hm & Hdesc) Hbase Hset Hkey.
  exists m. unfold NewIndex. unfold bind at 1.
  rewrite (Lookup_enter _ _ _ _ _ _ _ _ Hdata Hbase) by (simpl; lia).
  destruct Hdata as (d & o & dt & Hup & Hd & Hb & Ho).
  destruct cl as [fn ups]. cbn in Hup, Hup'. subst ups. simplify_eq/=.
  unfold enter. unfold_api. simpl. rewrite Ho. simpl. rewrite Hset. simpl.
  rewrite Hd. simpl. change 1 with eDescriptors at 1. rewrite Hm. simpl.
  rewrite Hdesc. simpl. rewrite Hkey. simpl. reflexivity.
Qed.

Lemma Index_to_member h cl boxed getters descriptors object key base k active :
  bridge_data h cl boxed getters ->
  bridge_descriptors h cl descriptors ->
  base_value h boxed object = Some base ->
  tbl_get getters key = VNil ->
  tbl_get descriptors key = VTable k ->
  exists m,
    Index (enter h cl [object; key] active)
    = (let! _ := IndexMember in ret 1)
        (enter h cl [base; key; VTable m; VTable k] active).
Proof.
  intros Hdata (d' & dt' & m & Hup' & Hd' & Hm & Hdesc) Hbase Hget Hkey.
  exists m. unfold Index. unfold bind at 1.
  rewrite (Lookup_enter _ _ _ _ _ _ _ _ Hdata Hbase) by (simpl; lia).
  destruct Hdata as (d & o & dt & Hup & Hd & Hb & Ho).
  destruct cl as [fn ups]. cbn in Hup, Hup'. subst ups. simplify_eq/=.
  unfold enter. unfold_api. simpl. rewrite Ho. simpl. rewrite Hget. simpl.
  rewrite Hd. simpl. change 1 with eDescriptors at 1. rewrite Hm. simpl.
  rewrite Hdesc. simpl. rewrite Hkey. simpl. reflexivity.
Qed.

Lemma struct_address_base h boxed object a :
  struct_address h boxed object = Some a ->
  exists base, base_value h boxed object = Some base /\ handle_address base = Some a.
Proof.
  unfold struct_address, base_value. destruct (handle_address object) as [ha|] eqn:Hh; [|done].
  destruct boxed.
  - intros ->. by eexists.
  - intros [= <-]. by eexists.
Qed.

(** C7, amended: for every member type and both addressing modes, a
    value of the member's type that lua_Integer can hold as well
    ([fits]: for unsigned int and unsigned long members on a platform
    with a 32-bit lua_Integer this leaves out the values from 2^31 on),
    written through __newindex to a member that is allocated and has
    no setter or getter, is the value read back through __index. In
    boxed mode the cell of the box does not overlap the member. *)
Theorem bridge_round_trip h get_cl set_cl boxed getters setters descriptors
    object key value ty offset a active :
  bridge_data h get_cl boxed getters ->
  bridge_data h set_cl boxed setters ->
  bridge_descriptors h get_cl descriptors ->
  bridge_descriptors h set_cl descriptors ->
  tbl_get getters key = VNil ->
  tbl_get setters key = VNil ->
  descriptor h descriptors key offset ty ->
  0 <= offset < 2 ^ 31 ->
  struct_address h boxed object = Some a ->
  is_Some (load_cells (memory h) (a + offset) (type_size ty)) ->
  (boxed = true ->
   forall ha, handle_address object = Some ha ->
     ha + word_bytes <= a + offset \/ a + offset + Z.of_nat (type_size ty) <= ha) ->
  fits ty value ->
  exists L1 L2,
    NewIndex (enter h set_cl [object; key; value] active) = Ok 0 L1
    /\ Index (enter (heap L1) get_cl [object; key] active) = Ok 1 L2
    /\ value_at L2 (-1) = value.
Proof.
  intros Hget Hset Hgd Hsd Hng Hns (k & kt & Hkey & Hk & Hoff & Hcode) Hrange Haddr
    Halloc Hdisj Hfits.
  destruct (struct_address_base _ _ _ _ Haddr) as (base & Hbase & Hha).
  destruct (NewIndex_to_member _ _ _ _ _ _ _ value _ _ active Hset Hsd Hbase Hns Hkey)
    as (m1 & HN).
  destruct (NewIndexMember_run _ set_cl base key value m1 k kt a offset ty active
              Hk Hoff Hcode Hha Hrange Hfits Halloc) as (L1 & HM & Hheap & _).
  exists L1.
  set (h1 := set_memory (write_cells (memory h) (a + offset) (member_cells ty value)) h)
    in *.
  assert (Hbase1 : base_value h1 boxed object = Some base).
  { unfold base_value in *. destruct boxed; [|done].
    destruct (handle_address object) as [ha|] eqn:Hobj; [|done].
    cbn [h1 memory set_memory]. rewrite load_pointer_write_cells_other; [done|].
    rewrite (length_member_cells _ _ Hfits). by apply Hdisj. }
  destruct (Index_to_member h1 get_cl boxed getters descriptors object key base k active
              (bridge_data_set_memory _ _ _ _ _ Hget)
              (bridge_descriptors_set_memory _ _ _ _ Hgd) Hbase1 Hng Hkey) as (m2 & HI).
  assert (Hcells : load_cells (memory h1) (a + offset) (type_size ty)
                   = Some (member_cells ty value)).
  { cbn [h1 memory set_memory]. rewrite <- (length_member_cells _ _ Hfits).
    apply load_cells_write_cells. }
  destruct (IndexMember_run h1 get_cl base key value m2 k kt a offset ty active
              Hk Hoff Hcode Hha Hrange Hfits Hcells) as (L2 & HR & Hv & _).
  exists L2. rewrite HN, Hheap, HI. unfold bind, ret. rewrite HM, HR. done.
Qed.

End PeerFacts.


(** ** The reference-counted setter *)

Section TemplatesFacts.
Context `{Platform}.

Lemma load_pointer_store_pointer m a p m' :
  store_pointer m a p = Some m' -> 0 <= p < 2 ^ (8 * word_bytes) ->
  load_pointer m' a = Some p.
Proof.
  intros Hs Hp. unfold load_pointer. rewrite (load_unsigned_store_int _ _ _ _ _ Hs).
  by rewrite word_size_bits, Z.mod_small.
Qed.

Lemma load_pointer_allocated m a p :
  load_pointer m a = Some p -> is_Some (load_cells m a word_size).
Proof.
  unfold load_pointer, load_unsigned. destruct (load_cells m a word_size); [eauto|done].
Qed.

Lemma load_pointer_write_pointer m a p :
  0 <= p < 2 ^ (8 * word_bytes) ->
  load_pointer (write_cells m a (le_encode word_size p)) a = Some p.
Proof.
  intros Hp. unfold load_pointer, load_unsigned.
  pose proof (load_cells_write_cells (le_encode word_size p) m a) as Hl.
  rewrite length_le_encode in Hl. rewrite Hl, le_decode_le_encode.
  by rewrite word_size_bits, Z.mod_small.
Qed.

(** C9: luaT_boxed_set_ref with target checking, on a userdata whose
    cell holds [old]. A new value that is not null has AddRef called
    first, which takes its count from [cv] to [cv + 1]; then an old
    value that is not null has Release called, which takes its count
    from [co + 1] to [co] and destroys it at 0; a null new value has
    only the Release made. The cell ends holding the new value. When
    old and new value are the same object its count is left as it
    was. (AddRef and Release are modelled from the spec.) *)
Theorem luaT_boxed_set_ref_counts t dest value target old cv co :
  lua_isuserdata (tL t) dest = true ->
  lua_touserdata (tL t) dest = target ->
  load_pointer (memory (heap (tL t))) target = Some old ->
  0 <= value < 2 ^ (8 * word_bytes) ->
  (value <> 0 -> counts (tRefs t) !! value = Some cv) ->
  (old <> 0 -> counts (tRefs t) !! old = Some (S co)) ->
  exists t',
    luaT_boxed_set_ref dest value true t = Ok 0 t'
    /\ load_pointer (memory (heap (tL t'))) target = Some value
    /\ history (tRefs t')
       = history (tRefs t) ++ retained value
         ++ released old (if decide (old = value) then S (S co) else S co)
    /\ (value <> 0 -> value <> old -> counts (tRefs t') !! value = Some (S cv))
    /\ (old <> 0 -> old <> value ->
        counts (tRefs t') !! old = if (co =? 0)%nat then None else Some co)
    /\ (value <> 0 -> value = old -> counts (tRefs t') !! value = Some cv)
    /\ (forall p, p <> value -> p <> old -> counts (tRefs t') !! p = counts (tRefs t) !! p).
Proof.
  intros Hud Htarget Hold Hrange Hcv Hco.
  destruct (load_pointer_allocated _ _ _ Hold) as [cells Hcells].
  destruct t as [L [cnt hist]]. cbn [tL tRefs counts history set_tL] in *.
  assert (Hstore :
    store_cells (memory (heap L)) target (le_encode word_size value)
    = Some (write_cells (memory (heap L)) target (le_encode word_size value))).
  { apply store_cells_Some. rewrite length_le_encode. eauto. }
  unfold luaT_boxed_set_ref, retained, released.
  unfold onState, zoom, Arg.UD, read, write, AddRef, Release, store_pointer, store_int.
  unfold bind, get, ret, modify.
  cbn [negb andb tL tRefs counts history set_tL heap memory set_heap set_memory].
  rewrite Hud, Htarget.
  destruct (Z.eqb_spec value 0) as [Hv | Hv];
    cbn [negb andb tL tRefs counts history set_tL heap memory set_heap set_memory];
    [|rewrite (Hcv Hv);
      cbn [negb andb tL tRefs counts history set_tL heap memory set_heap set_memory]];
    rewrite Hold;
    (destruct (Z.eqb_spec old 0) as [Ho | Ho];
     cbn [negb andb tL tRefs counts history set_tL heap memory set_heap set_memory]).
  all: destruct (decide (old = value)) as [Heq | Hne]; try congruence.
  all: try (subst old; rewrite lookup_insert_eq; rewrite (Hco Ho) in Hcv;
            specialize (Hcv Hv); simplify_eq).
  all: try (rewrite lookup_insert_ne by congruence).
  all: try (rewrite (Hco Ho); destruct co as [|co]).
  all: cbn [negb andb tL tRefs counts history set_tL heap memory set_heap set_memory].
  all: rewrite Hstore; (eexists; split; [reflexivity|]);
    cbn [negb andb tL tRefs counts history set_tL heap memory set_heap set_memory];
    (split; [by apply load_pointer_write_pointer|]);
    (split; [simpl; rewrite <- ?app_assoc; simpl; by rewrite ?app_nil_r|]).
  all: repeat split; intros; try congruence.
  all: rewrite ?lookup_delete_eq, ?lookup_insert_eq; try done.
  all: rewrite ?lookup_delete_ne, ?lookup_insert_ne by congruence; try done.
  all: rewrite ?lookup_delete_eq, ?lookup_insert_eq; try done.
  all: rewrite ?lookup_delete_ne, ?lookup_insert_ne by congruence; try done.
Qed.

End TemplatesFacts.

(** ** The theorems at the example inputs *)

Section Examples.
#[local] Existing Instance win32 | 0.
#[local] Existing Instance win32_interp | 0.

Lemma CallCore_protected_call_outcome_witness :
  let args := [va_int 3; va_int 4; va_string (Some "x")] in
  let pushed := [num 3; num 4; VString "x"] in
  let r := new_Reader [] (set_stack (stack echo_state ++ pushed) echo_state) EmptyString 2 in
  let r' := new_Reader [] (set_stack (stack boom_state ++ [num 3]) boom_state) EmptyString 2 in
  let q := {| mArgs := [va_int 3]; mL := echo_state; mError := Some "Bad type";
              mParams := "q"; mHeight := 0; mTop := 2;
              mInKey := false; mInValue := false; mShouldSkip := false |} in
  closures_kept
  /\ (marshal echo_state 0 "i i s" args = Ok 3 r
      /\ handler_intact (heap (mL r))
      /\ run_callable (heap (with_handler (mL r))) (VFunction 0) pushed
         = CallOk pushed (heap (with_handler (mL r)))
      /\ CallCore echo_state 0 (-1) "i i s" args true
         = Returned 3
             (set_stack (num 5 :: pushed)
                (set_heap (heap (with_handler (mL r)))
                   (log_call (VFunction 0) pushed (with_handler (mL r))))))
  /\ (marshal boom_state 1 "i" [va_int 3] = Ok 2 r'
      /\ handler_intact (heap (mL r'))
      /\ run_callable (heap (with_handler (mL r'))) (VFunction 1) [num 6; num 3]
         = CallErr (ErrorCall (VString "boom") example_frame []) (heap (with_handler (mL r')))
      /\ exists msg L',
           CallCore boom_state 1 (-1) "i" [va_int 3] true = Thrown msg L'
           /\ stack L' = [num 5]
           /\ calls L' = [(VFunction 1, [num 6; num 3])])
  /\ (marshal echo_state 0 "q" [va_int 3] = Ok 0 q
      /\ CallCore echo_state 0 (-1) "q" [va_int 3] true
         = Thrown "Bad type" (set_stack [num 5] echo_state)).
Proof.
  intros args pushed r r' q.
  assert (Hkept : closures_kept).
  { intros h f args' fl h' ref cl Hrun Hcl. cbn in Hrun. unfold example_run in Hrun.
    repeat case_match; by simplify_eq. }
  assert (Hint : forall s, handler_intact (heap (example_state s)))
    by (intros s; exists []; split; [reflexivity|left; reflexivity]).
  assert (Hm : marshal echo_state 0 "i i s" args = Ok 3 r) by reflexivity.
  assert (Hm' : marshal boom_state 1 "i" [va_int 3] = Ok 2 r') by reflexivity.
  assert (Hq : marshal echo_state 0 "q" [va_int 3] = Ok 0 q) by reflexivity.
  split; [exact Hkept|]. split; [|split].
  - split; [exact Hm|]. split; [exact (Hint _)|]. split; [reflexivity|].
    exact (CallCore_protected_call_outcome echo_state [num 5] (VFunction 0) [] 0 (-1)
             "i i s" args 3 r pushed eq_refl eq_refl Hm eq_refl (Hint _) Hkept).
  - split; [exact Hm'|]. split; [exact (Hint _)|]. split; [reflexivity|].
    exact (CallCore_protected_call_outcome boom_state [num 5] (VFunction 1) [num 6] 1 (-1)
             "i" [va_int 3] 2 r' [num 3] eq_refl eq_refl Hm' eq_refl (Hint _) Hkept).
  - split; [exact Hq|].
    exact (CallCore_protected_call_outcome echo_state [num 5] (VFunction 0) [] 0 (-1)
             "q" [va_int 3] 0 q [] eq_refl eq_refl Hq eq_refl (Hint _) Hkept).
Defined.

(** C1, counterexample: the format "g" with the name "gane.list", in a
    state whose globals have no field gane. GetGlobal raises the
    runtime's error while the format is marshalled: the protected
    CallCore is left by that Lua error, nothing is thrown, the
    callable is not called, and the stack, one slot above its height
    at the start, is not cut back to the pre-call height. *)
Lemma marshal_error_escapes_protected_call :
  exists L',
    CallCore echo_state 0 (-1) "g" [va_string (Some "gane.list")] true
    = Raised (VString "attempt to index a nil value") L'
    /\ lua_gettop echo_state - 0 - 1 = 1
    /\ lua_gettop L' = 3
    /\ calls L' = [].
Proof. vm_compute. eexists. split; [reflexivity|]. repeat split. Qed.

(** The side conditions of a protected call hold at the example
    inputs: the example runtime keeps the closures, and after the parse
    the registry has no entry for the error function yet. *)
Lemma example_side_conditions :
  closures_kept
  /\ exists count' r,
       marshal boom_state 1 "i" [va_int 3] = Ok count' r
       /\ 0 <= count'
       /\ handler_intact (heap (mL r)).
Proof.
  split.
  - intros h f args fl h' ref cl Hrun Hcl. cbn in Hrun. unfold example_run in Hrun.
    repeat case_match; by simplify_eq.
  - eexists _, _. split; [vm_compute; reflexivity|]. split; [done|].
    exists []. split; [reflexivity|]. left. reflexivity.
Qed.

Lemma CallCore_protected_parse_error_skips_call_witness :
  exists count' r,
    0 + 1 <= lua_gettop echo_state
    /\ marshal echo_state 0 "q" [va_int 3] = Ok count' r
    /\ mError r = Some "Bad type"
    /\ exists L',
         CallCore echo_state 0 (-1) "q" [va_int 3] true = Thrown "Bad type" L'
         /\ calls L' = calls echo_state
         /\ heap L' = heap (mL r)
         /\ lua_gettop L' = lua_gettop echo_state - 0 - 1.
Proof.
  assert (Hm : exists count' r,
             marshal echo_state 0 "q" [va_int 3] = Ok count' r /\ mError r = Some "Bad type").
  { vm_compute. eexists _, _. split; reflexivity. }
  destruct Hm as (count' & r & Hm & He). exists count', r.
  assert (Hcount : 0 + 1 <= lua_gettop echo_state) by (vm_compute; discriminate).
  split; [exact Hcount|]. split; [exact Hm|]. split; [exact He|].
  exact (CallCore_protected_parse_error_skips_call echo_state 0 (-1) "q" [va_int 3]
           count' r "Bad type" Hcount Hm He).
Defined.

(** C2, counterexample: the format "q" is no directive. The callable
    on the stack would return when called, but the protected CallCore
    throws "Bad type" with no call made. *)
Lemma parse_error_leaves_target_uncalled :
  exists L',
    CallCore echo_state 0 (-1) "q" [va_int 3] true = Thrown "Bad type" L'
    /\ calls L' = []
    /\ run_callable (heap echo_state) (VFunction 0) [] = CallOk [] (heap echo_state).
Proof. vm_compute. eexists. split; [reflexivity|]. split; reflexivity. Qed.

(** C3: the balanced literal "{ K s { i } i }" with the arguments
    "k", 1, 2. The closing brace of the inner table, read after the
    keyed pair left the stack as high as before, ends the outer table
    as well: the last i is pushed outside the table, the stack ends 2
    slots higher instead of 1, and the last brace is reported as
    "Unopened table". *)
Theorem nested_table_value_ends_enclosing_table :
  exists r,
    marshal echo_state 0 "{ K s { i } i }" [va_string (Some "k"); va_int 1; va_int 2]
    = Ok 2 r
    /\ lua_gettop (mL r) = lua_gettop echo_state + 2
    /\ stack (mL r) = stack echo_state ++ [VTable 2; num 2]
    /\ tables (heap (mL r)) !! 2%nat = Some [(VString "k", VTable 3)]
    /\ mError r = Some "Unopened table".
Proof. vm_compute. eexists. repeat split; reflexivity. Qed.

(** C4: the format "C { { i } i }" with the condition false and the
    arguments 1, 2. The suppressed element is the whole outer table,
    but the closing brace of the inner table ends it: the second i is
    read with suppression off and pushed, and the last brace is
    reported as "Unopened table". *)
Theorem suppressed_nested_table_leaks_element :
  exists r,
    marshal echo_state 0 "C { { i } i }" [va_bool false; va_int 1; va_int 2] = Ok 1 r
    /\ stack (mL r) = stack echo_state ++ [num 2]
    /\ mArgs r = []
    /\ mError r = Some "Unopened table".
Proof. vm_compute. eexists. repeat split; reflexivity. Qed.

Lemma K_nil_key_is_rejected_witness :
  skip_spaces (mParams example_reader) = String "K" " 0 i }"
  /\ skip_spaces " 0 i }" = String "0" " i }"
  /\ mHeight example_reader <> 0
  /\ mError example_reader = None
  /\ nil_key example_reader "0" " i }"
  /\ exists r',
       ReadElement 2 example_reader = Ok false r'
       /\ mError r' = Some "Null key"
       /\ mL r' = mL example_reader.
Proof.
  assert (H1 : skip_spaces (mParams example_reader) = String "K" " 0 i }") by reflexivity.
  assert (H2 : skip_spaces " 0 i }" = String "0" " i }") by reflexivity.
  assert (H3 : mHeight example_reader <> 0) by (simpl; lia).
  assert (H4 : mError example_reader = None) by reflexivity.
  assert (H5 : nil_key example_reader "0" " i }") by (left; reflexivity).
  repeat (split; [assumption|]).
  exact (K_nil_key_is_rejected 0 example_reader " 0 i }" "0" " i }" H1 H2 H3 H4 H5).
Defined.

Lemma negative_index_resolution_witness :
  let r := new_Reader [va_int (-1)] three_slots "a" (lua_gettop three_slots - 1) in
  stays r r
  /\ (peek r = "a"%char -> resolve_index r (-1) = -1 + (lua_gettop three_slots - 1))
  /\ (peek r = "r"%char -> resolve_index r (-1) = -1 + lua_gettop (mL r) + 1)
  /\ (resolve_index r (-1) <= 0 \/ lua_gettop (mL r) < resolve_index r (-1) ->
      _a r = Ok false (set_mError (Some "Bad index") (set_mArgs [] r)))
  /\ (1 <= resolve_index r (-1) <= lua_gettop (mL r) ->
      mInKey r = false -> mShouldSkip r = false ->
      _a r = Ok true (set_mL (lua_pushvalue (resolve_index r (-1)) (mL r)) (set_mArgs [] r))).
Proof.
  intros r.
  assert (Hs : stays r r) by (repeat split; simpl; lia).
  split; [exact Hs|].
  apply (negative_index_resolution three_slots 1 "a" [va_int (-1)] r (-1) []).
  - exact Hs.
  - reflexivity.
  - lia.
  - reflexivity.
  - reflexivity.
Defined.

(** C6, counterexample: CallCore is entered with the callable in slot
    2 and one argument in slot 3, so count = 1 and the stack is 3 high
    when marshalling starts. The directive a with the index -1 pushes
    the value of slot 1, below the callable: neither slot 3, the top
    at the start of marshalling, nor slot 2, which is -1 added to that
    height. *)
Lemma a_index_counts_from_below_the_callable :
  exists r,
    marshal three_slots 1 "a" [va_int (-1)] = Ok 2 r
    /\ mError r = None
    /\ stack (mL r) = stack three_slots ++ [num 5]
    /\ value_at three_slots 1 = num 5
    /\ value_at three_slots (lua_gettop three_slots + -1 + 1) = num 9
    /\ value_at three_slots (lua_gettop three_slots + -1) = VFunction 0.
Proof. vm_compute. eexists. repeat split; reflexivity. Qed.

Lemma bridge_round_trip_witness :
  let h := example_bridge true in
  let object := VUserdata 8448 4 in
  fits eUInt (num 7)
  /\ struct_address h true object = Some 8192
  /\ descriptor h (example_table h 3) (VString "mass") 4 eUInt
  /\ exists L1 L2,
       NewIndex (enter h (example_closure h 7) [object; VString "mass"; num 7] []) = Ok 0 L1
       /\ Index (enter (heap L1) (example_closure h 5) [object; VString "mass"] []) = Ok 1 L2
       /\ value_at L2 (-1) = num 7.
Proof.
  intros h object.
  assert (Hfits : fits eUInt (num 7)).
  { exists 7. vm_compute. repeat split; discriminate. }
  assert (Haddr : struct_address h true object = Some 8192) by (vm_compute; reflexivity).
  assert (Hdesc : descriptor h (example_table h 3) (VString "mass") 4 eUInt).
  { exists 5%nat, (example_table h 5). vm_compute. repeat split. }
  split; [exact Hfits|]. split; [exact Haddr|]. split; [exact Hdesc|].
  apply (bridge_round_trip h (example_closure h 5) (example_closure h 7) true
           (example_table h 6) (example_table h 7) (example_table h 3)
           object (VString "mass") (num 7) eUInt 4 8192 []).
  - exists 2%nat, 6%nat, (example_table h 2). vm_compute. repeat split.
  - exists 2%nat, 7%nat, (example_table h 2). vm_compute. repeat split.
  - exists 2%nat, (example_table h 2), 3%nat. vm_compute. repeat split.
  - exists 2%nat, (example_table h 2), 3%nat. vm_compute. repeat split.
  - vm_compute. reflexivity.
  - vm_compute. reflexivity.
  - exact Hdesc.
  - vm_compute. split; [discriminate|reflexivity].
  - exact Haddr.
  - vm_compute. eexists. reflexivity.
  - intros _ ha Hha. right. vm_compute in Hha. injection Hha as <-. vm_compute. discriminate.
  - exact Hfits.
Defined.

(** C7, counterexample: where lua_Integer is 32 bits wide, 3000000000
    is a value of an unsigned int member that no write through
    __newindex stores (its conversion to lua_Integer is undefined), and
    a member that holds it reads back through __index as
    -1294967296. *)
Lemma unsigned_member_above_lua_Integer :
  let h := example_bridge true in
  let object := VUserdata 8448 4 in
  member_value eUInt (num 3000000000)
  /\ (exists why,
        NewIndex (enter h (example_closure h 7) [object; VString "mass"; num 3000000000] [])
        = Fault why)
  /\ (exists L2,
        Index (enter (set_memory (write_cells (memory h) 8196 (le_encode 4 3000000000)) h)
                 (example_closure h 5) [object; VString "mass"] []) = Ok 1 L2
        /\ value_at L2 (-1) = num (-1294967296)).
Proof.
  intros h object. split; [|split].
  - exists 3000000000. vm_compute. repeat split; discriminate.
  - vm_compute. eexists. reflexivity.
  - vm_compute. eexists. split; reflexivity.
Qed.

Lemma Index_getter_or_nil_witness :
  let h := example_bridge false in
  let cl := example_closure h 5 in
  let object := VUserdata 8192 8 in
  bridge_data h cl false (example_table h 6)
  /\ base_value h false object = Some object
  /\ tbl_get (example_table h 6) (VString "name") = VFunction 4
  /\ (exists L',
        Index (enter h cl [object; VString "name"] []) = Ok 1 L'
        /\ stack L' = [object]
        /\ heap L' = h
        /\ calls L' = [(VFunction 4, [object; VString "name"; object])])
  /\ tbl_get (example_table h 6) (VString "size") = VNil
  /\ tbl_get (example_table h 3) (VString "size") = VNil
  /\ (exists L',
        Index (enter h cl [object; VString "size"] []) = Ok 1 L'
        /\ value_at L' (-1) = VNil
        /\ heap L' = h
        /\ calls L' = []).
Proof.
  intros h cl object.
  assert (Hdata : bridge_data h cl false (example_table h 6)).
  { exists 2%nat, 6%nat, (example_table h 2). vm_compute. repeat split. }
  assert (Hbase : base_value h false object = Some object) by reflexivity.
  assert (Hname : tbl_get (example_table h 6) (VString "name") = VFunction 4)
    by (vm_compute; reflexivity).
  assert (Hsize : tbl_get (example_table h 6) (VString "size") = VNil)
    by (vm_compute; reflexivity).
  assert (Hnone : tbl_get (example_table h 3) (VString "size") = VNil)
    by (vm_compute; reflexivity).
  split; [exact Hdata|]. split; [exact Hbase|]. split; [exact Hname|].
  split; [|split; [exact Hsize|split; [exact Hnone|]]].
  - pose proof (proj1 (Index_getter_or_nil h cl false (example_table h 6) object
                         (VString "name") object [] Hdata Hbase)) as Hc.
    rewrite Hname in Hc. specialize (Hc ltac:(discriminate)).
    exact Hc.
  - apply (proj2 (Index_getter_or_nil h cl false (example_table h 6) object
                    (VString "size") object [] Hdata Hbase) Hsize (example_table h 3)).
    + exists 2%nat, (example_table h 2), 3%nat. vm_compute. repeat split.
    + exact Hnone.
Defined.

Lemma NewIndex_unknown_member_is_dropped_witness :
  let h := example_bridge true in
  let cl := example_closure h 7 in
  let object := VUserdata 8448 4 in
  bridge_data h cl true (example_table h 7)
  /\ bridge_descriptors h cl (example_table h 3)
  /\ base_value h true object = Some (VLightUserdata 8192)
  /\ tbl_get (example_table h 7) (VString "size") = VNil
  /\ tbl_get (example_table h 3) (VString "size") = VNil
  /\ exists L',
       NewIndex (enter h cl [object; VString "size"; num 7] []) = Ok 0 L'
       /\ memory (heap L') = memory h
       /\ heap L' = h
       /\ calls L' = [].
Proof.
  intros h cl object.
  assert (Hdata : bridge_data h cl true (example_table h 7)).
  { exists 2%nat, 7%nat, (example_table h 2). vm_compute. repeat split. }
  assert (Hdesc : bridge_descriptors h cl (example_table h 3)).
  { exists 2%nat, (example_table h 2), 3%nat. vm_compute. repeat split. }
  assert (Hbase : base_value h true object = Some (VLightUserdata 8192))
    by (vm_compute; reflexivity).
  assert (Hset : tbl_get (example_table h 7) (VString "size") = VNil)
    by (vm_compute; reflexivity).
  assert (Hnone : tbl_get (example_table h 3) (VString "size") = VNil)
    by (vm_compute; reflexivity).
  repeat (split; [assumption|]).
  exact (NewIndex_unknown_member_is_dropped h cl true (example_table h 7) (example_table h 3)
           object (VString "size") (num 7) (VLightUserdata 8192) []
           Hdata Hdesc Hbase Hset Hnone).
Defined.

Lemma luaT_boxed_set_ref_counts_witness :
  lua_isuserdata (tL example_refs) 1 = true
  /\ lua_touserdata (tL example_refs) 1 = 8448
  /\ load_pointer (memory (heap (tL example_refs))) 8448 = Some 8192
  /\ counts (tRefs example_refs) !! 12288 = Some 1%nat
  /\ counts (tRefs example_refs) !! 8192 = Some 1%nat
  /\ exists t',
       luaT_boxed_set_ref 1 12288 true example_refs = Ok 0 t'
       /\ load_pointer (memory (heap (tL t'))) 8448 = Some 12288
       /\ history (tRefs t') = [AddRef_called 12288; Release_called 8192; destroyed 8192]
       /\ counts (tRefs t') !! 12288 = Some 2%nat
       /\ counts (tRefs t') !! 8192 = None.
Proof.
  assert (H1 : lua_isuserdata (tL example_refs) 1 = true) by reflexivity.
  assert (H2 : lua_touserdata (tL example_refs) 1 = 8448) by reflexivity.
  assert (H3 : load_pointer (memory (heap (tL example_refs))) 8448 = Some 8192)
    by (vm_compute; reflexivity).
  assert (H4 : counts (tRefs example_refs) !! 12288 = Some 1%nat) by (vm_compute; reflexivity).
  assert (H5 : counts (tRefs example_refs) !! 8192 = Some 1%nat) by (vm_compute; reflexivity).
  repeat (split; [assumption|]).
  destruct (luaT_boxed_set_ref_counts example_refs 1 12288 8448 8192 1 0 H1 H2 H3
              ltac:(vm_compute; split; [discriminate|reflexivity])
              (fun _ => H4) (fun _ => H5))
    as (t' & Hrun & Hptr & Hhist & Hnew & Hold & _).
  exists t'. split; [exact Hrun|]. split; [exact Hptr|]. split; [exact Hhist|].
  split; [apply Hnew; discriminate|apply Hold; discriminate].
Defined.

End Examples.

(** * More of the bridge: properties *)

Section TableFacts.
Context `{Interp}.

Lemma tbl_get_remove t k k' :
  tbl_get (tbl_remove t k) k' = if decide (k' = k) then VNil else tbl_get t k'.
Proof.
  induction t as [|[k0 v0] t IH]; simpl.
  - by destruct (decide (k' = k)).
  - destruct (decide (k = k0)) as [->|Hk].
    + rewrite IH. destruct (decide (k' = k0)); done.
    + simpl. rewrite IH. destruct (decide (k' = k0)) as [->|]; [|done].
      by rewrite decide_False by done.
Qed.

Lemma tbl_get_set t k v k' :
  tbl_get (tbl_set t k v) k' = if decide (k' = k) then v else tbl_get t k'.
Proof.
  unfold tbl_set. destruct v; simpl; rewrite ?tbl_get_remove; by destruct (decide (k' = k)).
Qed.

Lemma tbl_get_elem_of t k : tbl_get t k <> VNil -> k ∈ t.*1.
Proof.
  induction t as [|[k0 v0] t IH]; simpl; [done|].
  destruct (decide (k = k0)) as [->|]; [intros; left|intros Hk; right; auto].
Qed.

Lemma key_inj i j : - 2 ^ 53 <= i <= 2 ^ 53 -> - 2 ^ 53 <= j <= 2 ^ 53 -> key i = key j -> i = j.
Proof.
  intros Hi Hj [= Hk]. rewrite <- (num2int_int2num i Hi), <- (num2int_int2num j Hj).
  by rewrite Hk.
Qed.

Lemma NoDup_keys (n : nat) : Z.of_nat n <= 2 ^ 53 -> NoDup (key <$> seqZ 1 (Z.of_nat n)).
Proof.
  intros Hn. apply NoDup_fmap_2_strong; [|apply NoDup_seqZ].
  intros i j Hi Hj. apply elem_of_seqZ in Hi, Hj. apply key_inj; lia.
Qed.

(** A list of length [n] has at least [n] entries. *)
Lemma sequence_length t n : sequence t n -> n <= 2 ^ 53 -> n <= Z.of_nat (length t).
Proof.
  intros [Hn Hs] Hb.
  assert (Hsub : key <$> seqZ 1 (Z.of_nat (Z.to_nat n)) ⊆+ t.*1).
  { apply NoDup_submseteq; [apply NoDup_keys; lia|].
    intros k Hk. apply list_elem_of_fmap in Hk as (i & -> & Hi).
    apply elem_of_seqZ in Hi. apply tbl_get_elem_of. apply Hs; lia. }
  apply submseteq_length in Hsub.
  rewrite !length_fmap, length_seqZ in Hsub. lia.
Qed.

Lemma border_from_sequence t n fuel : forall k,
  sequence t n -> n <= 2 ^ 53 - 1 -> 0 <= k <= n -> n - k <= Z.of_nat fuel ->
  border_from t fuel k = n.
Proof.
  induction fuel as [|fuel IH]; intros k Hs Hb Hk Hf.
  - simpl. lia.
  - cbn [border_from]. destruct Hs as [Hn Hs].
    fold (key (k + 1)).
    destruct (decide (k = n)) as [->|Hne].
    + assert (Hnil : tbl_get t (key (n + 1)) = VNil).
      { destruct (decide (tbl_get t (key (n + 1)) = VNil)) as [|Hv]; [done|].
        apply Hs in Hv; lia. }
      by rewrite Hnil.
    + assert (Hv : tbl_get t (key (k + 1)) <> VNil) by (apply Hs; lia).
      rewrite IH; [|done|done|lia|lia].
      by destruct (tbl_get t (key (k + 1))).
Qed.

Lemma luaH_getn_sequence t n : sequence t n -> n <= 2 ^ 53 - 1 -> luaH_getn t = n.
Proof.
  intros Hs Hb. unfold luaH_getn. apply border_from_sequence; [done|done|destruct Hs; lia|].
  pose proof (sequence_length t n Hs ltac:(lia)). lia.
Qed.

Lemma GetN_sequence L idx ref t n :
  index2adr L idx = Some (VTable ref) ->
  tables (heap L) !! ref = Some t ->
  sequence t n -> n < 2 ^ 31 ->
  GetN L idx = n.
Proof.
  intros Hi Ht Hs Hn. unfold GetN, lua_objlen. rewrite Hi, Ht.
  rewrite (luaH_getn_sequence t n Hs) by lia.
  apply wrap_signed_id; [lia|]. destruct Hs. simpl. lia.
Qed.

Lemma table_at_Some L idx ref t :
  index2adr L idx = Some (VTable ref) -> tables (heap L) !! ref = Some t ->
  table_at L idx = Some (ref, t).
Proof. intros Hi Ht. unfold table_at. by rewrite Hi, Ht. Qed.

End TableFacts.

Section ListHelperFacts.
Context `{Interp}.

Lemma IndexAbsolute_valid L i v :
  index2adr L (IndexAbsolute L i) = Some v ->
  0 < IndexAbsolute L i \/ IndexAbsolute L i <= LUA_REGISTRYINDEX.
Proof.
  unfold IndexAbsolute.
  destruct ((i <? 0) && (- lua_gettop L <=? i)) eqn:E.
  - apply andb_prop in E as [E1 E2]. apply Z.ltb_lt in E1. apply Z.leb_le in E2.
    intros _. left. lia.
  - intros Hv. destruct (Z.ltb_spec 0 i) as [|Hle]; [by left|].
    destruct (Z.leb_spec i LUA_REGISTRYINDEX) as [|Hgt]; [by right|]. exfalso.
    unfold index2adr, stack_slot in Hv.
    destruct (Z.ltb_spec LUA_REGISTRYINDEX i); [|lia].
    destruct (Z.ltb_spec 0 i); [lia|].
    cbn [andb] in Hv. by rewrite E in Hv.
Qed.

(** An absolute index or a pseudo-index names the same value when
    slots are pushed, or popped above it. *)
Lemma index2adr_stable L L' idx v :
  index2adr L idx = Some v ->
  0 < idx \/ idx <= LUA_REGISTRYINDEX ->
  (forall p w, (Z.to_nat (idx - 1) = p) -> stack L !! p = Some w -> stack L' !! p = Some w) ->
  registry (heap L') = registry (heap L) -> globals (heap L') = globals (heap L) ->
  environ L' = environ L -> upvalues L' = upvalues L ->
  index2adr L' idx = Some v.
Proof.
  unfold index2adr, stack_slot, LUA_REGISTRYINDEX, lua_gettop.
  intros Hv Hidx Hst Hr Hg He Hu.
  destruct (Z.ltb_spec (-10000) idx) as [Hp|Hp].
  - destruct Hidx as [Hidx|Hidx]; [|lia].
    destruct (Z.ltb_spec 0 idx); [|lia].
    destruct (Z.leb_spec idx (Z.of_nat (length (stack L)))); [|done].
    pose proof (Hst _ v eq_refl Hv) as Hv'.
    pose proof (lookup_lt_Some _ _ _ Hv').
    destruct (Z.leb_spec idx (Z.of_nat (length (stack L')))); [done|lia].
  - by rewrite Hr, Hg, He, Hu.
Qed.

Lemma Push_effect L s v idx ref t n :
  stack L = s ++ [v] ->
  index2adr L idx = Some (VTable ref) ->
  tables (heap L) !! ref = Some t ->
  sequence t n -> n + 1 < 2 ^ 31 ->
  exists t',
    Push idx L = Ok tt (set_stack s (store_table ref t' L))
    /\ (forall k, tbl_get t' k = if decide (k = key (n + 1)) then v else tbl_get t k)
    /\ sequence t' (if decide (v = VNil) then n else n + 1).
Proof.
  intros Hs Hi Ht Hseq Hn. unfold Push.
  rewrite (GetN_sequence L idx ref t n Hi Ht Hseq) by lia.
  unfold lua_rawseti. rewrite (table_at_Some _ _ _ _ Hi Ht), (top_value_snoc _ _ _ Hs).
  exists (tbl_set t (key (n + 1)) v).
  split; [unfold pop1, store_table, key; cbn; by rewrite Hs, removelast_last|].
  split; [intros k; apply tbl_get_set|].
  destruct Hseq as [Hn0 Hseq]. destruct (decide (v = VNil)) as [->|Hv].
  - split; [done|]. intros i Hi'. rewrite tbl_get_set. fold (key (n + 1)).
    destruct (decide (key i = key (n + 1))) as [Hk|Hk].
    + apply key_inj in Hk; [|lia..]. subst i. split; [done|lia].
    + apply Hseq, Hi'.
  - split; [lia|]. intros i Hi'. rewrite tbl_get_set. fold (key (n + 1)).
    destruct (decide (key i = key (n + 1))) as [Hk|Hk].
    + apply key_inj in Hk; [|lia..]. subst i. split; [lia|done].
    + rewrite (Hseq i Hi'). split; [lia|]. intros Hle.
      destruct (decide (i = n + 1)) as [->|]; [done|lia].
Qed.

(** X1: Push appends the value on top of the stack to the list and
    pops it; a nil leaves the list as it is. *)
Theorem Push_appends L s v idx ref t n :
  stack L = s ++ [v] ->
  index2adr L idx = Some (VTable ref) ->
  tables (heap L) !! ref = Some t ->
  sequence t n -> n + 1 < 2 ^ 31 ->
  exists t',
    Push idx L = Ok tt (set_stack s (store_table ref t' L))
    /\ (forall k, tbl_get t' k = if decide (k = key (n + 1)) then v else tbl_get t k)
    /\ sequence t' (if decide (v = VNil) then n else n + 1).
Proof. intros. eapply Push_effect; eassumption. Qed.

Lemma lua_rawgeti_run L idx ref t n :
  index2adr L idx = Some (VTable ref) -> tables (heap L) !! ref = Some t ->
  lua_rawgeti idx n L = Ok tt (push (tbl_get t (key n)) L).
Proof. intros Hi Ht. unfold lua_rawgeti. by rewrite (table_at_Some _ _ _ _ Hi Ht). Qed.

Lemma index2adr_push L idx v w :
  index2adr L idx = Some v -> 0 < idx \/ idx <= LUA_REGISTRYINDEX ->
  index2adr (push w L) idx = Some v.
Proof.
  intros Hv Hidx. apply (index2adr_stable L); try done.
  intros p u _ Hu. cbn. by apply lookup_app_l_Some.
Qed.

Lemma Pop_effect L idx ref t n put :
  index2adr L (IndexAbsolute L idx) = Some (VTable ref) ->
  tables (heap L) !! ref = Some t ->
  sequence t n -> n < 2 ^ 31 ->
  exists t',
    Pop idx put L
    = Ok tt (set_stack (stack L ++ (if put then [tbl_get t (key n)] else []))
               (store_table ref t' L))
    /\ (forall k, tbl_get t' k = if decide (k = key n) then VNil else tbl_get t k)
    /\ sequence t' (Z.max 0 (n - 1)).
Proof.
  intros Hi Ht Hseq Hn. unfold Pop.
  rewrite (GetN_sequence L _ ref t n Hi Ht Hseq) by lia.
  pose proof (IndexAbsolute_valid L idx _ Hi) as Hidx.
  set (i := IndexAbsolute L idx) in *.
  exists (tbl_set t (key n) VNil).
  split.
  { unfold bind at 1. destruct put.
    - rewrite (lua_rawgeti_run L i ref t n Hi Ht).
      unfold bind, modify, lua_pushnil, lua_rawseti.
      rewrite (table_at_Some _ i ref t); [|by repeat apply index2adr_push|done].
      erewrite top_value_snoc by reflexivity.
      unfold pop1, store_table, push, key. cbn. by rewrite removelast_last.
    - unfold ret, bind, modify, lua_pushnil, lua_rawseti.
      rewrite (table_at_Some _ i ref t); [|by apply index2adr_push|done].
      erewrite top_value_snoc by reflexivity.
      unfold pop1, store_table, push, key. cbn. by rewrite removelast_last, app_nil_r. }
  split; [intros k; apply tbl_get_set|].
  destruct Hseq as [Hn0 Hseq]. split; [lia|].
  intros j Hj. rewrite tbl_get_set.
  destruct (decide (key j = key n)) as [Hk|Hk].
  - apply key_inj in Hk; [|lia..]. subst j. split; [done|lia].
  - rewrite (Hseq j Hj). split; [|lia]. intros Hle.
    destruct (decide (j = n)) as [->|]; [done|lia].
Qed.

(** X2: Pop takes the last element off the list (and leaves it on the
    stack when asked to). On the empty list it pushes and clears the
    entry of key 0. *)
Theorem Pop_removes_last L idx ref t n put :
  index2adr L (IndexAbsolute L idx) = Some (VTable ref) ->
  tables (heap L) !! ref = Some t ->
  sequence t n -> n < 2 ^ 31 ->
  exists t',
    Pop idx put L
    = Ok tt (set_stack (stack L ++ (if put then [tbl_get t (key n)] else []))
               (store_table ref t' L))
    /\ (forall k, tbl_get t' k = if decide (k = key n) then VNil else tbl_get t k)
    /\ sequence t' (Z.max 0 (n - 1)).
Proof. intros. eapply Pop_effect; eassumption. Qed.

(** X3: Push and then Pop with the value left on the stack undo each
    other: the stack and every entry of the list are as before. *)
Theorem Push_then_Pop L s v idx ref t n :
  stack L = s ++ [v] ->
  0 < idx <= Z.of_nat (length s) ->
  index2adr L idx = Some (VTable ref) ->
  tables (heap L) !! ref = Some t ->
  sequence t n -> n + 1 < 2 ^ 31 -> v <> VNil ->
  exists L1 L2 t2,
    Push idx L = Ok tt L1
    /\ Pop idx true L1 = Ok tt L2
    /\ stack L2 = stack L
    /\ tables (heap L2) !! ref = Some t2
    /\ (forall k, tbl_get t2 k = tbl_get t k)
    /\ sequence t2 n.
Proof.
  intros Hs Hidx Hi Ht Hseq Hn Hv.
  destruct (Push_effect L s v idx ref t n Hs Hi Ht Hseq Hn) as (t1 & HP & Hg1 & Hseq1).
  rewrite decide_False in Hseq1 by done.
  set (L1 := set_stack s (store_table ref t1 L)) in *.
  assert (Habs : IndexAbsolute L1 idx = idx).
  { unfold IndexAbsolute. destruct (Z.ltb_spec idx 0); [lia|done]. }
  assert (Hi1 : index2adr L1 (IndexAbsolute L1 idx) = Some (VTable ref)).
  { rewrite Habs. apply (index2adr_stable L); try done; [left; lia|].
    intros p w <- Hw. cbn. rewrite Hs in Hw. rewrite lookup_app_l in Hw by lia. done. }
  assert (Ht1 : tables (heap L1) !! ref = Some t1).
  { cbn. apply list_lookup_insert_eq. by eapply lookup_lt_Some. }
  destruct (Pop_effect L1 idx ref t1 (n + 1) true Hi1 Ht1 Hseq1 Hn)
    as (t2 & HQ & Hg2 & Hseq2).
  eexists L1, _, t2. split; [done|]. split; [exact HQ|].
  split; [cbn; rewrite Hs, Hg1; by rewrite decide_True|].
  split; [cbn; apply list_lookup_insert_eq; rewrite length_insert; by eapply lookup_lt_Some|].
  assert (Hsame : forall k, tbl_get t2 k = tbl_get t k).
  { intros k. rewrite Hg2, Hg1. destruct (decide (k = key (n + 1))) as [->|]; [|done].
    destruct Hseq as [Hn0 Hseq].
    destruct (decide (tbl_get t (key (n + 1)) = VNil)) as [->|Hx]; [done|].
    apply Hseq in Hx; lia. }
  split; [done|]. destruct Hseq as [Hn0 Hseq]. split; [done|].
  intros j Hj. rewrite Hsame. by apply Hseq.
Qed.

Lemma Unpack_loop_run t ref src n : forall L i,
  index2adr L src = Some (VTable ref) -> 0 < src \/ src <= LUA_REGISTRYINDEX ->
  tables (heap L) !! ref = Some t ->
  Unpack_loop src i n L
  = Ok tt (set_stack (stack L ++ ((fun j => tbl_get t (key j)) <$> seqZ i (Z.of_nat n))) L).
Proof.
  induction n as [|n IH]; intros L i Hi Hsrc Ht.
  - cbn. rewrite app_nil_r. by destruct L.
  - cbn [Unpack_loop]. unfold bind. rewrite (lua_rawgeti_run L src ref t i Hi Ht).
    rewrite IH; [|by apply index2adr_push|done|done].
    rewrite (seqZ_cons i (Z.of_nat (S n))) by lia.
    replace (Z.pred (Z.of_nat (S n))) with (Z.of_nat n) by lia.
    unfold push, set_stack. cbn. by rewrite <- app_assoc.
Qed.

(** X4: Unpack pushes the elements first to last of the list in their
    order, where a negative start or end counts from the end of the
    list (-1 is the last element). When one of them is negative and
    the range is empty, as for the default range on an empty list, the
    assertion of Unpack fails. *)
Theorem Unpack_pushes_range L source start end_ ref t n :
  index2adr L (IndexAbsolute L source) = Some (VTable ref) ->
  tables (heap L) !! ref = Some t ->
  sequence t n -> n < 2 ^ 31 ->
  let first := if start <? 0 then n + start + 1 else start in
  let last := if end_ <? 0 then n + end_ + 1 else end_ in
  Unpack source start end_ L
  = if ((start <? 0) || (end_ <? 0)) && (last <? first)
    then Fault "assert(start <= end)"
    else Ok tt (set_stack (stack L ++ elements t first last) L).
Proof.
  intros Hi Ht Hseq Hn first last. unfold Unpack.
  rewrite (GetN_sequence L _ ref t n Hi Ht Hseq) by lia.
  pose proof (IndexAbsolute_valid L source _ Hi) as Hsrc.
  fold first last. unfold elements.
  assert (Hrun : forall a b,
    Unpack_loop (IndexAbsolute L source) a (Z.to_nat (b - a + 1)) L
    = Ok tt (set_stack (stack L ++ ((fun j => tbl_get t (key j)) <$> seqZ a (b - a + 1))) L)).
  { intros a b. rewrite (Unpack_loop_run t ref _ _ L a Hi Hsrc Ht).
    do 3 f_equal. unfold seqZ. by rewrite Nat2Z.id. }
  unfold first, last.
  destruct (start <? 0) eqn:E1; destruct (end_ <? 0) eqn:E2; cbn [orb andb];
    try apply Hrun.
  all: match goal with
       | |- context [?a <=? ?b] =>
           destruct (Z.leb_spec a b); destruct (Z.ltb_spec b a); try lia; [apply Hrun|done]
       end.
Qed.

End ListHelperFacts.

Section GlobalFacts.
Context `{Interp}.

Lemma index2adr_neg2 L s a b : stack L = s ++ [a; b] -> index2adr L (-2) = Some a.
Proof.
  intros Hs. unfold index2adr. change (LUA_REGISTRYINDEX <? -2) with true. cbv iota.
  rewrite (stack_slot_neg _ 2) by (rewrite ?Hs, ?length_app; simpl; lia).
  rewrite Hs, length_app. cbn [length].
  rewrite lookup_app_r by lia.
  by replace (length s + 2 - 2 - length s)%nat with 0%nat by lia.
Qed.

Lemma lua_replace_neg2 L s a b :
  stack L = s ++ [a; b] -> lua_replace (-2) L = Ok tt (set_stack (s ++ [b]) L).
Proof.
  intros Hs. unfold lua_replace.
  rewrite (stack_slot_neg _ 2) by (rewrite ?Hs, ?length_app; simpl; lia).
  rewrite (top_value_snoc (s ++ [a]) b L) by (by rewrite Hs, <- app_assoc).
  rewrite Hs, length_app. cbn [length].
  replace (length s + 2 - 2)%nat with (length s + 0)%nat by lia.
  rewrite insert_app_r. cbn.
  change (s ++ [b; b]) with (s ++ [b] ++ [b]). by rewrite app_assoc, removelast_last.
Qed.

Lemma append_nil_r (s : string) : s +:+ EmptyString = s.
Proof. induction s as [|c s IH]; [done|]. change (String c (s +:+ EmptyString) = String c s). by rewrite IH. Qed.

Lemma append_cons (c : ascii) (s r : string) : String c s +:+ r = String c (s +:+ r).
Proof. reflexivity. Qed.

Lemma append_assoc (s1 s2 s3 : string) : (s1 +:+ s2) +:+ s3 = s1 +:+ s2 +:+ s3.
Proof.
  induction s1 as [|c s1 IH]; [done|]. rewrite !append_cons. by rewrite IH.
Qed.

Lemma GetGlobal_path_level level rest : forall stem,
  no_dot level = true ->
  GetGlobal_path stem (level +:+ rest) = GetGlobal_path (stem +:+ level) rest.
Proof.
  induction level as [|c level IH]; intros stem Hl.
  - change (EmptyString +:+ rest) with rest. by rewrite append_nil_r.
  - cbn in Hl. apply andb_prop in Hl as [Hc Hl]. rewrite append_cons.
    cbn [GetGlobal_path]. apply negb_true_iff in Hc. rewrite Hc. rewrite IH by done.
    f_equal. by rewrite append_assoc.
Qed.

(** One level of the loop: the table on top is replaced by its field. *)
Lemma GetGlobal_path_step L s ref t level rest :
  stack L = s ++ [VTable ref] ->
  tables (heap L) !! ref = Some t ->
  no_dot level = true ->
  GetGlobal_path EmptyString (level +:+ "." +:+ rest) L
  = GetGlobal_path EmptyString rest (set_stack (s ++ [tbl_get t (VString level)]) L).
Proof.
  intros Hs Ht Hl. rewrite GetGlobal_path_level by done.
  change (EmptyString +:+ level) with level. change ("." +:+ rest) with (String "." rest).
  cbn [GetGlobal_path]. change (Ascii.eqb "." ".") with true. cbv iota.
  unfold bind at 1, modify at 1. unfold bind at 1. unfold lua_gettable.
  erewrite top_value_snoc by reflexivity.
  rewrite (table_at_Some _ (-2) ref t);
    [|by eapply index2adr_neg2; cbn; rewrite Hs, <- app_assoc|done].
  unfold bind at 1.
  erewrite (lua_replace_neg2 _ s (VTable ref)).
  2:{ cbn. rewrite Hs. rewrite removelast_last. by rewrite <- app_assoc. }
  done.
Qed.

Lemma GetGlobal_path_end L s ref t last :
  stack L = s ++ [VTable ref] ->
  tables (heap L) !! ref = Some t ->
  no_dot last = true ->
  GetGlobal_path EmptyString last L
  = Ok tt (set_stack (s ++ [tbl_get t (VString last)]) L).
Proof.
  intros Hs Ht Hl. rewrite <- (append_nil_r last) at 1.
  rewrite GetGlobal_path_level by done. change (EmptyString +:+ last) with last.
  cbn [GetGlobal_path]. unfold bind, lua_getfield.
  rewrite (table_at_Some _ (-1) ref t); [|by eapply index2adr_top|done].
  erewrite (lua_replace_neg2 _ s (VTable ref)); [done|].
  cbn. by rewrite Hs, <- app_assoc.
Qed.

Lemma GetGlobal_path_descend t last levels : forall L s ref ref',
  stack L = s ++ [VTable ref] ->
  Forall (fun level => no_dot level = true) levels -> no_dot last = true ->
  descend (heap L) ref levels = Some ref' ->
  tables (heap L) !! ref' = Some t ->
  GetGlobal_path EmptyString (dotted levels last) L
  = Ok tt (set_stack (s ++ [tbl_get t (VString last)]) L).
Proof.
  induction levels as [|level levels IH]; intros L s ref ref' Hs Hl Hlast Hd Ht.
  - cbn in Hd. simplify_eq. by apply (GetGlobal_path_end L s ref').
  - apply Forall_cons_1 in Hl as [Hl Hls]. cbn [descend] in Hd. cbn [dotted fold_right].
    destruct (tables (heap L) !! ref) as [t0|] eqn:Ht0; [|done].
    rewrite (GetGlobal_path_step L s ref t0) by done.
    destruct (tbl_get t0 (VString level)) as [| | | | | | |ref1] eqn:Hv; try done.
    by rewrite (IH _ s ref1 ref').
Qed.

Lemma GetGlobal_path_read L levels last ref t :
  Forall (fun level => no_dot level = true) levels -> no_dot last = true ->
  descend (heap L) (globals (heap L)) levels = Some ref ->
  tables (heap L) !! ref = Some t ->
  GetGlobal (Some (dotted levels last)) L = Ok tt (push (tbl_get t (VString last)) L).
Proof.
  intros Hl Hlast Hd Ht. unfold GetGlobal, bind, modify.
  erewrite (GetGlobal_path_descend t last levels _ (stack L) (globals (heap L)) ref);
    try done.
Qed.

(** X5: GetGlobal pushes the field [last] of the table reached from the
    globals through the levels of the dotted name. *)
Theorem GetGlobal_reads_path L levels last ref t :
  Forall (fun level => no_dot level = true) levels -> no_dot last = true ->
  descend (heap L) (globals (heap L)) levels = Some ref ->
  tables (heap L) !! ref = Some t ->
  GetGlobal (Some (dotted levels last)) L = Ok tt (push (tbl_get t (VString last)) L).
Proof. intros. eapply GetGlobal_path_read; eassumption. Qed.

(** X6: a level of the name that is missing makes GetGlobal raise the
    runtime's error for indexing nil. *)
Theorem GetGlobal_missing_level L level rest g :
  no_dot level = true ->
  tables (heap L) !! globals (heap L) = Some g ->
  tbl_get g (VString level) = VNil ->
  exists L', GetGlobal (Some (level +:+ "." +:+ rest)) L
             = Raise (VString "attempt to index a nil value") L'
             /\ heap L' = heap L /\ calls L' = calls L.
Proof.
  intros Hl Hg Hnil. unfold GetGlobal, bind at 1, modify at 1.
  rewrite (GetGlobal_path_step _ (stack L) (globals (heap L)) g) by done.
  rewrite Hnil. set (L1 := set_stack _ _).
  assert (Hs1 : stack L1 = stack L ++ [VNil]) by done.
  assert (Hh : heap L1 = heap L /\ calls L1 = calls L) by done.
  clearbody L1. clear Hg Hnil. revert L1 Hs1 Hh.
  assert (Hgen : forall name stem L1, stack L1 = stack L ++ [VNil] ->
            heap L1 = heap L /\ calls L1 = calls L ->
            exists L', GetGlobal_path stem name L1
                       = Raise (VString "attempt to index a nil value") L'
                       /\ heap L' = heap L /\ calls L' = calls L).
  { induction name as [|c name IH]; intros stem L1 Hs1 Hh.
    - cbn [GetGlobal_path]. unfold bind, lua_getfield, table_at.
      rewrite (index2adr_top _ _ _ Hs1). eexists. split; [reflexivity|done].
    - cbn [GetGlobal_path]. destruct (Ascii.eqb c "."); [|by apply IH].
      unfold bind at 1, modify at 1. unfold bind at 1. unfold lua_gettable.
      erewrite top_value_snoc by reflexivity.
      unfold table_at. erewrite index2adr_neg2 by (cbn; by rewrite Hs1, <- app_assoc).
      eexists. split; [reflexivity|done]. }
  intros L1 Hs1 Hh. by apply Hgen.
Qed.

Lemma SetGlobal_path_level level rest : forall stem,
  no_dot level = true ->
  SetGlobal_path stem (level +:+ rest) = SetGlobal_path (stem +:+ level) rest.
Proof.
  induction level as [|c level IH]; intros stem Hl.
  - change (EmptyString +:+ rest) with rest. by rewrite append_nil_r.
  - cbn in Hl. apply andb_prop in Hl as [Hc Hl]. rewrite append_cons.
    cbn [SetGlobal_path]. apply negb_true_iff in Hc. rewrite Hc. rewrite IH by done.
    f_equal. by rewrite append_assoc.
Qed.

Lemma SetGlobal_path_step L s ref t level rest :
  stack L = s ++ [VTable ref] ->
  tables (heap L) !! ref = Some t ->
  no_dot level = true ->
  SetGlobal_path EmptyString (level +:+ "." +:+ rest) L
  = SetGlobal_path EmptyString rest (set_stack (s ++ [tbl_get t (VString level)]) L).
Proof.
  intros Hs Ht Hl. rewrite SetGlobal_path_level by done.
  change (EmptyString +:+ level) with level. change ("." +:+ rest) with (String "." rest).
  cbn [SetGlobal_path]. change (Ascii.eqb "." ".") with true. cbv iota.
  unfold bind at 1, modify at 1. unfold bind at 1. unfold lua_gettable.
  erewrite top_value_snoc by reflexivity.
  rewrite (table_at_Some _ (-2) ref t);
    [|by eapply index2adr_neg2; cbn; rewrite Hs, <- app_assoc|done].
  unfold bind at 1.
  erewrite (lua_replace_neg2 _ s (VTable ref)).
  2:{ cbn. rewrite Hs. rewrite removelast_last. by rewrite <- app_assoc. }
  done.
Qed.

Lemma SetGlobal_path_end L s v ref t last :
  stack L = s ++ [v; VTable ref] ->
  tables (heap L) !! ref = Some t ->
  no_dot last = true ->
  SetGlobal_path EmptyString last L
  = Ok tt (set_stack s (store_table ref (tbl_set t (VString last) v) L)).
Proof.
  intros Hs Ht Hl. rewrite <- (append_nil_r last) at 1.
  rewrite SetGlobal_path_level by done. change (EmptyString +:+ last) with last.
  cbn [SetGlobal_path]. unfold bind at 1.
  rewrite (lua_insert_run L s [v] (VTable ref) (-2) Hs).
  2:{ rewrite (stack_slot_neg _ 2) by (rewrite ?Hs, ?length_app; simpl; lia).
      f_equal. rewrite Hs, length_app. simpl. lia. }
  unfold bind at 1. unfold lua_setfield.
  erewrite (top_value_snoc (s ++ [VTable ref]) v) by (cbn; by rewrite <- app_assoc).
  rewrite (table_at_Some _ (-2) ref t); [|by eapply (index2adr_neg2 _ s)|done].
  unfold set_field. cbn [Nat.iter].
  erewrite (lua_pop1_snoc _ s (VTable ref)).
  2:{ unfold pop1, store_table. cbn.
      change (s ++ [VTable ref; v]) with (s ++ [VTable ref] ++ [v]).
      by rewrite app_assoc, removelast_last. }
  done.
Qed.

Lemma SetGlobal_path_descend t last v levels : forall L s ref ref',
  stack L = s ++ [v; VTable ref] ->
  Forall (fun level => no_dot level = true) levels -> no_dot last = true ->
  descend (heap L) ref levels = Some ref' ->
  tables (heap L) !! ref' = Some t ->
  SetGlobal_path EmptyString (dotted levels last) L
  = Ok tt (set_stack s (store_table ref' (tbl_set t (VString last) v) L)).
Proof.
  induction levels as [|level levels IH]; intros L s ref ref' Hs Hl Hlast Hd Ht.
  - cbn in Hd. simplify_eq. by apply (SetGlobal_path_end L s v ref').
  - apply Forall_cons_1 in Hl as [Hl Hls]. cbn [descend] in Hd. cbn [dotted fold_right].
    destruct (tables (heap L) !! ref) as [t0|] eqn:Ht0; [|done].
    rewrite (SetGlobal_path_step L (s ++ [v]) ref t0); [|by rewrite <- app_assoc|done|done].
    destruct (tbl_get t0 (VString level)) as [| | | | | | |ref1] eqn:Hv; try done.
    rewrite (IH _ s ref1 ref'); [done|cbn; by rewrite <- app_assoc|done..].
Qed.

Lemma SetGlobal_path_write L s v levels last ref t :
  stack L = s ++ [v] ->
  Forall (fun level => no_dot level = true) levels -> no_dot last = true ->
  descend (heap L) (globals (heap L)) levels = Some ref ->
  tables (heap L) !! ref = Some t ->
  SetGlobal (Some (dotted levels last)) L
  = Ok tt (set_stack s (store_table ref (tbl_set t (VString last) v) L)).
Proof.
  intros Hs Hl Hlast Hd Ht. unfold SetGlobal, bind, modify.
  erewrite (SetGlobal_path_descend t last v levels _ s (globals (heap L)) ref); try done.
  cbn. by rewrite Hs, <- app_assoc.
Qed.

(** X7: SetGlobal assigns the value on top of the stack to the field
    [last] of the table reached through the levels of the name, and
    pops it. *)
Theorem SetGlobal_writes_path L s v levels last ref t :
  stack L = s ++ [v] ->
  Forall (fun level => no_dot level = true) levels -> no_dot last = true ->
  descend (heap L) (globals (heap L)) levels = Some ref ->
  tables (heap L) !! ref = Some t ->
  SetGlobal (Some (dotted levels last)) L
  = Ok tt (set_stack s (store_table ref (tbl_set t (VString last) v) L)).
Proof. intros. eapply SetGlobal_path_write; eassumption. Qed.

Lemma descend_store h ref t t' levels : forall r,
  tables h !! ref = Some t ->
  (forall level, level ∈ levels -> tbl_get t' (VString level) = tbl_get t (VString level)) ->
  descend (set_tables (<[ref := t']> (tables h)) h) r levels = descend h r levels.
Proof.
  induction levels as [|level levels IH]; intros r Ht Hsame; [done|].
  cbn [descend tables set_tables].
  destruct (decide (r = ref)) as [->|Hne].
  - rewrite list_lookup_insert_eq by (by eapply lookup_lt_Some). rewrite Ht.
    rewrite Hsame by left.
    destruct (tbl_get t (VString level)); try done.
    apply IH; [done|]. intros l Hl. apply Hsame. by right.
  - rewrite list_lookup_insert_ne by done.
    destruct (tables h !! r) as [t0|]; [|done].
    destruct (tbl_get t0 (VString level)); try done.
    apply IH; [done|]. intros l Hl. apply Hsame. by right.
Qed.

(** X8: a global set with SetGlobal is what GetGlobal gets under the
    same name, when the last level of the name differs from the levels
    before it: the stack is as it was before SetGlobal. *)
Theorem SetGlobal_then_GetGlobal L s v levels last ref t :
  stack L = s ++ [v] ->
  Forall (fun level => no_dot level = true) levels -> no_dot last = true ->
  last ∉ levels ->
  descend (heap L) (globals (heap L)) levels = Some ref ->
  tables (heap L) !! ref = Some t ->
  exists L1 L2,
    SetGlobal (Some (dotted levels last)) L = Ok tt L1
    /\ GetGlobal (Some (dotted levels last)) L1 = Ok tt L2
    /\ stack L2 = stack L
    /\ heap L2 = heap L1.
Proof.
  intros Hs Hl Hlast Hnot Hd Ht.
  eexists _, _. split; [by apply (SetGlobal_path_write L s v levels last ref t)|].
  set (t' := tbl_set t (VString last) v).
  split.
  - apply (GetGlobal_path_read _ levels last ref t'); try done.
    + cbn. rewrite (descend_store (heap L) ref t t'); [done|done|].
      intros level Hin. unfold t'. rewrite tbl_get_set.
      rewrite decide_False; [done|]. intros [= ->]. done.
    + cbn. apply list_lookup_insert_eq. by eapply lookup_lt_Some.
  - split; [|done]. cbn. unfold t'. rewrite tbl_get_set, decide_True by done. by rewrite Hs.
Qed.

(** X9: once a value is cached under the key, CacheAndGet pushes it
    whatever the name is and whatever the globals hold: it reads the
    registry only and changes nothing else. *)
Theorem CacheAndGet_name_cached L name key reg :
  tables (heap L) !! registry (heap L) = Some reg ->
  tbl_get reg (VLightUserdata key) <> VNil ->
  CacheAndGet_name name key L = Ok tt (push (tbl_get reg (VLightUserdata key)) L).
Proof.
  intros Hreg Hv. unfold CacheAndGet_name. unfold bind at 1, modify at 1. unfold bind at 1.
  rewrite (lua_rawget_registry _ (stack L) (VLightUserdata key) reg) by done.
  unfold bind at 1, get at 1. unfold lua_isnil.
  erewrite index2adr_top by reflexivity.
  destruct (tbl_get reg (VLightUserdata key)); done.
Qed.

(** X10: on the first use CacheAndGet looks the global up, pushes it and
    stores it in the registry under the key; a global that is nil
    leaves the registry without an entry, so that it is looked up
    again. *)
Theorem CacheAndGet_name_first_use L levels last key reg ref t :
  tables (heap L) !! registry (heap L) = Some reg ->
  tbl_get reg (VLightUserdata key) = VNil ->
  Forall (fun level => no_dot level = true) levels -> no_dot last = true ->
  descend (heap L) (globals (heap L)) levels = Some ref ->
  tables (heap L) !! ref = Some t ->
  let v := tbl_get t (VString last) in
  let reg' := tbl_set reg (VLightUserdata key) v in
  CacheAndGet_name (Some (dotted levels last)) key L
  = Ok tt (push v (store_table (registry (heap L)) reg' L))
  /\ tbl_get reg' (VLightUserdata key) = v.
Proof.
  intros Hreg Hnil Hl Hlast Hd Ht v reg'. split; [|unfold reg'; by rewrite tbl_get_set, decide_True].
  unfold CacheAndGet_name. unfold bind at 1, modify at 1. unfold bind at 1.
  rewrite (lua_rawget_registry _ (stack L) (VLightUserdata key) reg) by done.
  unfold bind at 1, get at 1. unfold lua_isnil.
  erewrite index2adr_top by reflexivity. rewrite Hnil. unfold bind at 1.
  erewrite lua_pop1_snoc by reflexivity.
  unfold bind at 1, modify at 1. unfold bind at 1.
  erewrite (GetGlobal_path_read _ levels last ref t) by done.
  unfold bind at 1, modify at 1. unfold bind at 1. fold v.
  erewrite (lua_insert_run _ (stack L) [VLightUserdata key; v] v).
  2:{ simpl. unfold value_at. erewrite index2adr_top by reflexivity. simpl.
      rewrite <- !app_assoc. reflexivity. }
  2:{ rewrite (stack_slot_neg _ 3) by (simpl; rewrite ?length_app; simpl; lia).
      f_equal. simpl. rewrite !length_app. simpl. lia. }
  erewrite (lua_rawset_registry _ (stack L ++ [v]) (VLightUserdata key) v reg).
  2:{ cbn. by rewrite <- app_assoc. }
  2:{ done. }
  2:{ done. }
  done.
Qed.

(** X11: CacheAndGet creates the closure of a C function on the first
    use only: later, in any state with that heap, it pushes the same
    function value and leaves the heap as it is. *)
Theorem CacheAndGet_func_once L func reg :
  tables (heap L) !! registry (heap L) = Some reg ->
  tbl_get reg (VLightUserdata (code_addr func)) = VNil ->
  let F := VFunction (length (closures (heap L))) in
  exists L1,
    CacheAndGet func L = Ok tt L1
    /\ stack L1 = stack L ++ [F]
    /\ closures (heap L1)
       = closures (heap L) ++ [{| cl_fn := func; cl_upvalues := [] |}]
    /\ forall L2, heap L2 = heap L1 -> CacheAndGet func L2 = Ok tt (push F L2).
Proof.
  intros Hreg Hnil F.
  unfold CacheAndGet. unfold bind at 1, modify at 1. unfold bind at 1.
  rewrite (lua_rawget_registry _ (stack L) (VLightUserdata (code_addr func)) reg) by done.
  unfold bind at 1, get at 1. unfold lua_isnil.
  erewrite index2adr_top by reflexivity. rewrite Hnil. unfold bind at 1.
  erewrite lua_pop1_snoc by reflexivity.
  unfold bind at 1, modify at 1. unfold bind at 1.
  rewrite lua_pushcfunction_run.
  unfold bind at 1, modify at 1. unfold bind at 1. fold F.
  erewrite (lua_insert_run _ (stack L) [VLightUserdata (code_addr func); F] F).
  2:{ simpl. unfold value_at. erewrite index2adr_top by reflexivity. simpl.
      rewrite <- !app_assoc. reflexivity. }
  2:{ rewrite (stack_slot_neg _ 3) by (simpl; rewrite ?length_app; simpl; lia).
      f_equal. simpl. rewrite !length_app. simpl. lia. }
  erewrite (lua_rawset_registry _ (stack L ++ [F]) (VLightUserdata (code_addr func)) F reg).
  2:{ cbn. by rewrite <- app_assoc. }
  2:{ done. }
  2:{ done. }
  eexists. split; [reflexivity|]. split; [done|]. split; [done|].
  intros L2 Hh. unfold bind at 1, modify at 1. unfold bind at 1.
  set (reg' := tbl_set reg (VLightUserdata (code_addr func)) F).
  rewrite (lua_rawget_registry _ (stack L2) (VLightUserdata (code_addr func)) reg').
  2:{ done. }
  2:{ cbn. rewrite Hh. cbn. apply list_lookup_insert_eq. by eapply lookup_lt_Some. }
  unfold bind at 1, get at 1. unfold lua_isnil.
  erewrite index2adr_top by reflexivity.
  unfold reg'. rewrite tbl_get_set, decide_True by done. unfold F. by destruct L2.
Qed.

End GlobalFacts.

Section TemplateFacts.
Context `{Interp}.

Lemma write_cells_same cells : forall m a,
  load_cells m a (length cells) = Some cells -> write_cells m a cells = m.
Proof.
  induction cells as [|c cells IH]; intros m a Hl; [done|].
  cbn [length load_cells write_cells] in *.
  destruct (m !! a) as [c0|] eqn:Ha; [|done].
  destruct (load_cells m (a + 1) (length cells)) as [cs|] eqn:Hcs; [|done].
  simplify_eq. rewrite insert_id by done. by apply IH.
Qed.

(** X12: luaT_boxed_set stores the pointer in the box and luaT_boxed_get
    reads it back; the stack and the memory outside the box are as
    before. *)
Theorem luaT_boxed_set_get L dest value :
  lua_isuserdata L dest = true ->
  is_Some (load_cells (memory (heap L)) (lua_touserdata L dest) word_size) ->
  0 <= value < 2 ^ (8 * word_bytes) ->
  exists L1,
    luaT_boxed_set dest value L = Ok 0 L1
    /\ luaT_boxed_get dest L1 = Ok value L1
    /\ stack L1 = stack L
    /\ forall x, x < lua_touserdata L dest \/ lua_touserdata L dest + word_bytes <= x ->
                 memory (heap L1) !! x = memory (heap L) !! x.
Proof.
  intros Hud Halloc Hv.
  unfold luaT_boxed_set, luaT_boxed_get, Arg.UD, bind, get, ret, write, read, modify,
    store_pointer, store_int.
  rewrite Hud. rewrite store_cells_Some by (by rewrite length_le_encode).
  eexists. split; [reflexivity|].
  assert (Hud1 : forall m, lua_isuserdata
            (set_heap (set_memory m (heap L)) L) dest = lua_isuserdata L dest) by done.
  assert (Htd1 : forall m, lua_touserdata
            (set_heap (set_memory m (heap L)) L) dest = lua_touserdata L dest) by done.
  rewrite Hud1, Htd1, Hud. cbn [heap set_heap memory set_memory].
  rewrite load_pointer_write_pointer by done.
  split; [done|]. split; [done|].
  intros x Hx. apply lookup_write_cells. rewrite length_le_encode.
  unfold word_size. destruct word_bytes_4_or_8 as [Hb|Hb]; rewrite Hb in *; lia.
Qed.

(** X13: luaT_gc_ref releases the object the box holds, once, and
    leaves null in the box; run again it changes nothing, so that
    nothing is released twice. *)
Theorem luaT_gc_ref_releases_once t old co :
  lua_isuserdata (tL t) 1 = true ->
  load_pointer (memory (heap (tL t))) (lua_touserdata (tL t) 1) = Some old ->
  (old <> 0 -> counts (tRefs t) !! old = Some (S co)) ->
  exists t1,
    luaT_gc_ref t = Ok 0 t1
    /\ load_pointer (memory (heap (tL t1))) (lua_touserdata (tL t) 1) = Some 0
    /\ history (tRefs t1) = history (tRefs t) ++ released old (S co)
    /\ luaT_gc_ref t1 = Ok 0 t1.
Proof.
  intros Hud Hold Hco.
  destruct (load_pointer_allocated _ _ _ Hold) as [cells Hcells].
  destruct t as [L [cnt hist]]. cbn [tL tRefs counts history] in *.
  set (target := lua_touserdata L 1) in *.
  set (m1 := write_cells (memory (heap L)) target (le_encode word_size 0)).
  assert (Hstore : forall m, is_Some (load_cells m target word_size) ->
            store_cells m target (le_encode word_size 0)
            = Some (write_cells m target (le_encode word_size 0))).
  { intros m Hm. apply store_cells_Some. by rewrite length_le_encode. }
  assert (Hzero : 0 <= 0 < 2 ^ (8 * word_bytes)).
  { destruct word_bytes_4_or_8 as [-> | ->]; simpl; lia. }
  assert (Hptr1 : load_pointer m1 target = Some 0)
    by (by apply load_pointer_write_pointer).
  assert (Hagain : write_cells m1 target (le_encode word_size 0) = m1).
  { apply write_cells_same. rewrite length_le_encode.
    pose proof (load_cells_write_cells (le_encode word_size 0) (memory (heap L)) target)
      as Hl. by rewrite length_le_encode in Hl. }
  assert (Hsecond : forall refs,
    luaT_gc_ref {| tL := set_heap (set_memory m1 (heap L)) L; tRefs := refs |}
    = Ok 0 {| tL := set_heap (set_memory m1 (heap L)) L; tRefs := refs |}).
  { intros refs. unfold luaT_gc_ref, luaT_boxed_set_ref.
    unfold onState, zoom, Arg.UD, read, write, store_pointer, store_int.
    unfold bind, get, ret, modify.
    cbn [negb andb tL tRefs set_tL heap memory set_heap set_memory Z.eqb].
    change (lua_isuserdata (set_heap (set_memory m1 (heap L)) L) 1)
      with (lua_isuserdata L 1).
    change (lua_touserdata (set_heap (set_memory m1 (heap L)) L) 1) with target.
    rewrite Hud. cbn [negb Z.eqb tL set_tL heap memory set_heap set_memory].
    rewrite Hptr1. cbn [negb Z.eqb tL set_tL heap memory set_heap set_memory].
    rewrite Hstore by (eapply load_pointer_allocated, Hptr1).
    cbn [tL set_tL heap memory set_heap set_memory]. rewrite Hagain. reflexivity. }
  unfold luaT_gc_ref at 1. unfold luaT_boxed_set_ref, released.
  unfold onState, zoom, Arg.UD, read, write, Release, store_pointer, store_int.
  unfold bind, get, ret, modify.
  cbn [negb andb tL tRefs counts history set_tL heap memory set_heap set_memory Z.eqb].
  fold target. rewrite Hud.
  cbn [negb andb tL tRefs counts history set_tL heap memory set_heap set_memory].
  rewrite Hold.
  cbn [negb andb tL tRefs counts history set_tL heap memory set_heap set_memory].
  destruct (Z.eqb_spec old 0) as [Ho | Ho];
    cbn [negb andb tL tRefs counts history set_tL heap memory set_heap set_memory].
  - rewrite Hstore by eauto. eexists. split; [reflexivity|].
    cbn [tL tRefs history heap memory set_heap set_memory set_tL].
    split; [exact Hptr1|]. split; [by rewrite app_nil_r|]. apply Hsecond.
  - rewrite (Hco Ho). destruct co as [|co];
      cbn [negb andb tL tRefs counts history set_tL heap memory set_heap set_memory];
      (rewrite Hstore by eauto); (eexists; split; [reflexivity|]);
      cbn [tL tRefs history heap memory set_heap set_memory set_tL];
      (split; [exact Hptr1|]); (split; [done|]); apply Hsecond.
Qed.

(** X14: luaT_cons_set_ref takes a reference to the new object and
    stores it in the box without looking at what the box held: the box
    may be uninitialised, and nothing is released. *)
Theorem luaT_cons_set_ref_keeps_old t value cv :
  lua_isuserdata (tL t) 1 = true ->
  is_Some (load_cells (memory (heap (tL t))) (lua_touserdata (tL t) 1) word_size) ->
  0 <= value < 2 ^ (8 * word_bytes) ->
  (value <> 0 -> counts (tRefs t) !! value = Some cv) ->
  exists t',
    luaT_cons_set_ref value t = Ok 0 t'
    /\ load_pointer (memory (heap (tL t'))) (lua_touserdata (tL t) 1) = Some value
    /\ history (tRefs t') = history (tRefs t) ++ retained value
    /\ (value <> 0 -> counts (tRefs t') !! value = Some (S cv))
    /\ (forall p, p <> value -> counts (tRefs t') !! p = counts (tRefs t) !! p).
Proof.
  intros Hud Halloc Hv Hcv.
  destruct t as [L [cnt hist]]. cbn [tL tRefs counts history] in *.
  unfold luaT_cons_set_ref, luaT_boxed_set_ref, retained.
  unfold onState, zoom, Arg.UD, read, write, AddRef, store_pointer, store_int.
  unfold bind, get, ret, modify.
  cbn [negb andb tL tRefs counts history set_tL heap memory set_heap set_memory].
  rewrite Hud.
  destruct (Z.eqb_spec value 0) as [Hz | Hz];
    cbn [negb andb tL tRefs counts history set_tL heap memory set_heap set_memory].
  - rewrite store_cells_Some by (by rewrite length_le_encode).
    eexists. split; [reflexivity|].
    cbn [tL tRefs counts history heap memory set_heap set_memory set_tL].
    split; [by apply load_pointer_write_pointer|]. split; [by rewrite app_nil_r|].
    split; done.
  - rewrite (Hcv Hz).
    cbn [negb andb tL tRefs counts history set_tL heap memory set_heap set_memory].
    rewrite store_cells_Some by (by rewrite length_le_encode).
    eexists. split; [reflexivity|].
    cbn [tL tRefs counts history heap memory set_heap set_memory set_tL].
    split; [by apply load_pointer_write_pointer|]. split; [done|].
    split; [intros _; apply lookup_insert_eq|].
    intros p Hp. by apply lookup_insert_ne.
Qed.

End TemplateFacts.

Section BridgeFacts.
Context `{Interp}.

(** X15: a write through __newindex to a member without a setter stores
    the cells of the value in the member and changes nothing else: no
    other address of native memory, no table, no closure; it calls
    nothing. *)
Theorem NewIndex_writes_only_member h cl boxed setters descriptors object key value
    ty offset a active :
  bridge_data h cl boxed setters ->
  bridge_descriptors h cl descriptors ->
  tbl_get setters key = VNil ->
  descriptor h descriptors key offset ty ->
  0 <= offset < 2 ^ 31 ->
  struct_address h boxed object = Some a ->
  is_Some (load_cells (memory h) (a + offset) (type_size ty)) ->
  fits ty value ->
  exists L1,
    NewIndex (enter h cl [object; key; value] active) = Ok 0 L1
    /\ calls L1 = []
    /\ tables (heap L1) = tables h
    /\ closures (heap L1) = closures h
    /\ load_cells (memory (heap L1)) (a + offset) (type_size ty)
       = Some (member_cells ty value)
    /\ forall x, x < a + offset \/ a + offset + Z.of_nat (type_size ty) <= x ->
                 memory (heap L1) !! x = memory h !! x.
Proof.
  intros Hdata Hdesc Hns (k & kt & Hkey & Hk & Hoff & Hcode) Hrange Haddr Halloc Hfits.
  destruct (struct_address_base _ _ _ _ Haddr) as (base & Hbase & Hha).
  destruct (NewIndex_to_member _ _ _ _ _ _ _ value _ _ active Hdata Hdesc Hbase Hns Hkey)
    as (m1 & HN).
  destruct (NewIndexMember_run _ cl base key value m1 k kt a offset ty active
              Hk Hoff Hcode Hha Hrange Hfits Halloc) as (L1 & HM & Hheap & Hcalls).
  exists L1. rewrite HN. unfold bind, ret. rewrite HM.
  split; [done|]. split; [done|]. rewrite Hheap. cbn [tables closures memory set_memory].
  split; [done|]. split; [done|].
  pose proof (length_member_cells ty value Hfits) as Hlen.
  split.
  - rewrite <- Hlen at 1. apply load_cells_write_cells.
  - intros x Hx. apply lookup_write_cells. rewrite Hlen. done.
Qed.

(** X16: a read through __index of a member without a getter returns
    the value whose cells the member holds; it changes nothing in the
    heap and calls nothing. *)
Theorem Index_reads_member h cl boxed getters descriptors object key value
    ty offset a active :
  bridge_data h cl boxed getters ->
  bridge_descriptors h cl descriptors ->
  tbl_get getters key = VNil ->
  descriptor h descriptors key offset ty ->
  0 <= offset < 2 ^ 31 ->
  struct_address h boxed object = Some a ->
  fits ty value ->
  load_cells (memory h) (a + offset) (type_size ty) = Some (member_cells ty value) ->
  exists L2,
    Index (enter h cl [object; key] active) = Ok 1 L2
    /\ value_at L2 (-1) = value
    /\ heap L2 = h
    /\ calls L2 = [].
Proof.
  intros Hdata Hdesc Hng (k & kt & Hkey & Hk & Hoff & Hcode) Hrange Haddr Hfits Hcells.
  destruct (struct_address_base _ _ _ _ Haddr) as (base & Hbase & Hha).
  destruct (Index_to_member h cl boxed getters descriptors object key base k active
              Hdata Hdesc Hbase Hng Hkey) as (m2 & HI).
  destruct (IndexMember_run h cl base key value m2 k kt a offset ty active
              Hk Hoff Hcode Hha Hrange Hfits Hcells) as (L2 & HM & Hv & Hh & Hc).
  exists L2. rewrite HI. unfold bind, ret. rewrite HM. done.
Qed.

Ltac run_api :=
  unfold lua_rawgeti, lua_rawseti, lua_gettable, lua_settable, lua_pop, lua_settop,
    lua_insert, lua_replace, lua_remove, lua_toboolean, lua_isnil, lua_isuserdata,
    lua_touserdata, lua_pushvalue, lua_pushlightuserdata, lua_pushinteger,
    lua_pushnumber, lua_pushboolean, lua_pushstring, value_at, table_at, top_value,
    index2adr, stack_slot, lua_gettop, lua_upvalueindex, LUA_GLOBALSINDEX,
    LUA_REGISTRYINDEX, LUA_ENVIRONINDEX, push, pop1, Arg.UD, read, write,
    bind, get, modify, ret, fault.

(** X17: when the setter table has an entry for the key, __newindex
    calls that setter with the object, the key, the value and the data
    value and returns nothing; the bridge itself writes no member, and
    the descriptor table plays no part. *)
Theorem NewIndex_setter_called h cl boxed setters object key value base active :
  bridge_data h cl boxed setters ->
  base_value h boxed object = Some base ->
  tbl_get setters key <> VNil ->
  match run_callable h (tbl_get setters key) [object; key; value; base] with
  | CallOk results h' =>
      exists L', NewIndex (enter h cl [object; key; value] active) = Ok 0 L'
                 /\ stack L' = []
                 /\ heap L' = h'
                 /\ calls L' = [(tbl_get setters key, [object; key; value; base])]
  | CallErr fl h' =>
      exists L', NewIndex (enter h cl [object; key; value] active) = Raise (raw_error fl) L'
                 /\ heap L' = h'
                 /\ calls L' = [(tbl_get setters key, [object; key; value; base])]
  end.
Proof.
  intros Hdata Hbase Hset.
  assert (HN : NewIndex (enter h cl [object; key; value] active)
               = (let! _ := lua_call 4 0 in ret 0)
                   (enter h cl [tbl_get setters key; object; key; value; base] active)).
  { unfold NewIndex. unfold bind at 1.
    rewrite (Lookup_enter _ _ _ _ _ _ _ _ Hdata Hbase) by (simpl; lia).
    destruct Hdata as (d & o & dt & Hup & Hd & Hb & Ho).
    destruct cl as [fn ups]. cbn in Hup. subst ups.
    unfold enter. run_api. simpl. rewrite Ho. simpl.
    by destruct (tbl_get setters key). }
  rewrite HN. unfold bind, ret, lua_call, call_frame, lua_gettop, enter. simpl.
  destruct (run_callable _ _ _) as [results h'|fl h']; simpl.
  - eexists. split; [reflexivity|by repeat split].
  - eexists. split; [reflexivity|done].
Qed.

(** X18: a write through __newindex of a value the member's accessor
    does not take (for a number member anything but a number or a
    string that reads as one, for a boolean member anything but a
    boolean, ...) raises a Lua error and leaves the heap, native
    memory included, as it was. *)
Theorem NewIndex_rejects_ill_typed h cl boxed setters descriptors object key value
    ty offset a active :
  bridge_data h cl boxed setters ->
  bridge_descriptors h cl descriptors ->
  tbl_get setters key = VNil ->
  descriptor h descriptors key offset ty ->
  0 <= offset < 2 ^ 31 ->
  struct_address h boxed object = Some a ->
  rejects ty value ->
  exists e L',
    NewIndex (enter h cl [object; key; value] active) = Raise e L'
    /\ heap L' = h
    /\ calls L' = [].
Proof.
  intros Hdata Hdesc Hns (k & kt & Hkey & Hk & Hoff & Hcode) Hrange Haddr Hrej.
  destruct (struct_address_base _ _ _ _ Haddr) as (base & Hbase & Hha).
  destruct (NewIndex_to_member _ _ _ _ _ _ _ value _ _ active Hdata Hdesc Hbase Hns Hkey)
    as (m1 & HN).
  rewrite HN. unfold NewIndexMember. unfold bind at 1. unfold bind at 1.
  rewrite (GetFields_write _ _ _ _ _ _ _ _ _ _ _ _ Hk Hoff Hcode Hha Hrange).
  unfold bind at 1.
  pose proof (type_code_range ty) as Hc.
  erewrite uI_run; [|reflexivity|lia|apply word_bound; lia].
  rewrite type_of_code_type_code.
  set (L := enter h cl _ active).
  assert (Hv : index2adr L 3 = Some value) by done.
  assert (Hnum : (forall n, value <> VNumber n)
                 -> (forall s, value = VString s -> str2num s = None)
                 -> lua_tonumber L 3 = None).
  { intros Hn Hs. unfold lua_tonumber. rewrite Hv.
    destruct value; try done; [by destruct (Hn n)|by apply Hs]. }
  destruct ty; cbn [rejects] in Hrej.
  all: try (destruct Hrej as [Hn Hs]; specialize (Hnum Hn Hs)).
  all: unfold Set_int, Arg.sC, Arg.sS, Arg.sL, Arg.sI, Arg.uC, Arg.uS, Arg.uL, Arg.uI,
         Arg.F, Arg.D, Arg.B, Arg.S, Arg.UD, luaL_checkint, luaL_checkinteger,
         luaL_checknumber, luaL_checkboolean, luaL_checkstring, lua_tolstring,
         lua_isuserdata, bind, ret;
       rewrite ?Hnum, ?Hv.
  all: try (eexists _, _; split; [reflexivity|done]).
  - destruct value; try (eexists _, _; split; [reflexivity|done]).
    + by destruct (Hrej p 0 0) as [? _].
    + by destruct (Hrej 0 block size) as [_ ?].
  - destruct value; try (eexists _, _; split; [reflexivity|done]).
    + by destruct (Hrej EmptyString n) as [_ ?].
    + by destruct (Hrej s (int2num 0)) as [? _].
  - destruct value; try (eexists _, _; split; [reflexivity|done]).
    by destruct (Hrej b).
Qed.

End BridgeFacts.

Section FlatFormatFacts.
Context `{Interp}.

Lemma skip_spaces_app ws rest : spaces ws = true -> skip_spaces (ws +:+ rest) = skip_spaces rest.
Proof.
  induction ws as [|c ws IH]; [done|]. cbn [spaces]. intros Hs.
  apply andb_prop in Hs as [Hc Hs]. rewrite append_cons. cbn [skip_spaces].
  rewrite Hc. by apply IH.
Qed.

Lemma skip_spaces_directive e rest :
  skip_spaces (String (directive e) rest) = String (directive e) rest.
Proof. by destruct e. Qed.

Lemma ReadElement_simple fuel e ws rest args' L err h top ik iv skip :
  spaces ws = true ->
  (ik = true -> e <> e_nil) ->
  ReadElement (S fuel)
    {| mArgs := arguments e ++ args'; mL := L; mError := err;
       mParams := ws +:+ String (directive e) rest; mHeight := h; mTop := top;
       mInKey := ik; mInValue := iv; mShouldSkip := skip |}
  = Ok true
      {| mArgs := args'; mL := (if skip then L else push (value_of e) L); mError := err;
         mParams := String (directive e) rest; mHeight := h; mTop := top;
         mInKey := ik; mInValue := iv; mShouldSkip := skip |}.
Proof.
  intros Hws Hik. cbn [ReadElement]. unfold bind at 1, modify at 1. unfold bind at 1, get at 1.
  cbn [mParams set_mParams]. rewrite skip_spaces_app, skip_spaces_directive by done.
  destruct e; cbn.
  all: try (destruct skip; reflexivity).
  - destruct s; destruct skip; reflexivity.
  - destruct skip; [reflexivity|]. by destruct (p =? 0).
  - destruct ik; [by destruct Hik|]. cbn. by destruct skip.
Qed.

Ltac reader_simpl :=
  unfold set_mArgs, set_mL, set_mError, set_mParams, set_mHeight, set_mInKey,
    set_mInValue, set_mShouldSkip;
  cbn [mArgs mL mError mParams mHeight mTop mInKey mInValue mShouldSkip].

Lemma ReadElement_at_C fuel r p :
  skip_spaces (mParams r) = String "C" p ->
  ReadElement (S fuel) r = _C (ReadElement fuel) (set_mParams (String "C" p) r).
Proof. intros Hp. cbn [ReadElement]. unfold bind, modify, get. rewrite Hp. reflexivity. Qed.

Lemma ReadElement_element fuel0 x ws rest args' L err h top skip :
  spaces ws = true -> element_spaces x = true ->
  (match x with plain _ => 0 | conditional _ _ _ => 1 end <= fuel0)%nat ->
  ReadElement (S fuel0)
    {| mArgs := element_args x ++ args'; mL := L; mError := err;
       mParams := ws +:+ element_params x rest; mHeight := h; mTop := top;
       mInKey := false; mInValue := false; mShouldSkip := skip |}
  = Ok true
      {| mArgs := args';
         mL := (if skip then L else set_stack (stack L ++ element_values x) L);
         mError := err;
         mParams := match x with
                    | plain e | conditional _ _ e => String (directive e) rest
                    end;
         mHeight := h; mTop := top;
         mInKey := false; mInValue := false; mShouldSkip := skip |}.
Proof.
  intros Hws Hx Hfuel. destruct x as [e|b ws' e].
  - cbn [element_args element_params element_values].
    rewrite ReadElement_simple by done. by destruct skip.
  - destruct fuel0 as [|fuel]; [lia|].
    cbn [element_args element_params element_values element_spaces] in *.
    erewrite ReadElement_at_C by (cbn [mParams]; by rewrite skip_spaces_app).
    unfold _C, bind, get, modify, va_arg, ret.
    cbn -[ReadElement String.append push].
    destruct skip; cbn -[ReadElement String.append push]; reader_simpl.
    + rewrite ReadElement_simple by done. reflexivity.
    + rewrite ReadElement_simple by done. cbn -[String.append]. reader_simpl.
      destruct b; cbn; [reflexivity|]. rewrite app_nil_r. by destruct L.
Qed.

Lemma length_append (s1 s2 : string) :
  String.length (s1 +:+ s2) = (String.length s1 + String.length s2)%nat.
Proof. induction s1 as [|c s1 IH]; [done|]. rewrite append_cons. simpl. by rewrite IH. Qed.

Lemma length_element_params x rest :
  (String.length rest + 2 <= String.length (element_params x rest) + 1)%nat
  /\ (forall b ws e, x = conditional b ws e -> 2 <= String.length (element_params x rest))%nat.
Proof.
  destruct x as [e|b ws e]; cbn [element_params String.length].
  - split; [lia|done].
  - rewrite length_append. cbn [String.length]. split; [lia|]. intros; lia.
Qed.

(** The loop of CallCore over a flat format. *)
Lemma read_all_flat items tail extra : forall fuel L err h top,
  flat_spaces items = true -> spaces tail = true ->
  (String.length (flat_params items tail) < fuel)%nat ->
  read_all fuel
    {| mArgs := flat_args items ++ extra; mL := L; mError := err;
       mParams := flat_params items tail; mHeight := h; mTop := top;
       mInKey := false; mInValue := false; mShouldSkip := false |}
  = Ok tt
      {| mArgs := extra; mL := set_stack (stack L ++ flat_values items) L; mError := err;
         mParams := EmptyString; mHeight := h; mTop := top;
         mInKey := false; mInValue := false; mShouldSkip := false |}.
Proof.
  induction items as [|[ws x] items IH]; intros fuel L err h top Hsp Htail Hfuel.
  - cbn [flat_params flat_args flat_values fold_right mbind list_bind] in *.
    destruct fuel as [|fuel]; [lia|]. cbn [read_all ReadElement].
    unfold bind at 1. unfold bind at 1, modify at 1. unfold bind at 1, get at 1.
    cbn [mParams set_mParams].
    replace (skip_spaces tail) with EmptyString.
    2:{ rewrite <- (append_nil_r tail). by rewrite skip_spaces_app. }
    cbn. rewrite app_nil_r. by destruct L.
  - cbn [flat_spaces forallb] in Hsp. apply andb_prop in Hsp as [Hx Hsp].
    apply andb_prop in Hx as [Hws Hx]. cbn [fst snd] in *.
    cbn [flat_params fold_right fst snd] in *. fold (flat_params items tail) in *.
    change (flat_args ((ws, x) :: items)) with (element_args x ++ flat_args items).
    change (flat_values ((ws, x) :: items)) with (element_values x ++ flat_values items).
    rewrite <- app_assoc.
    rewrite length_append in Hfuel.
    pose proof (length_element_params x (flat_params items tail)) as [Hlen Hcond].
    destruct fuel as [|fuel]; [lia|].
    cbn [read_all]. unfold bind at 1.
    rewrite ReadElement_element; [|done|done|].
    2:{ destruct x as [e|b ws' e]; [lia|]. specialize (Hcond b ws' e eq_refl). lia. }
    unfold bind at 1, modify at 1. cbv beta iota.
    assert (Hnext : forall e args L0,
      next_param {| mArgs := args; mL := L0; mError := err;
                    mParams := String (directive e) (flat_params items tail);
                    mHeight := h; mTop := top; mInKey := false; mInValue := false;
                    mShouldSkip := false |}
      = {| mArgs := args; mL := L0; mError := err; mParams := flat_params items tail;
           mHeight := h; mTop := top; mInKey := false; mInValue := false;
           mShouldSkip := false |}) by done.
    destruct x as [e|b ws' e]; rewrite Hnext; rewrite IH; try done.
    + cbn [stack set_stack]. by rewrite <- app_assoc.
    + lia.
    + cbn [stack set_stack]. by rewrite <- app_assoc.
    + lia.
Qed.

Lemma marshal_flat_run L count items tail extra :
  flat_spaces items = true -> spaces tail = true ->
  marshal L count (flat_params items tail) (flat_args items ++ extra)
  = Ok (count + Z.of_nat (length (flat_values items)))
       (new_Reader extra (set_stack (stack L ++ flat_values items) L) EmptyString
          (lua_gettop L - count)).
Proof.
  intros Hsp Htail. unfold marshal, new_Reader.
  destruct (flat_params items tail) as [|c params] eqn:Hp.
  - assert (Hi : items = []).
    { destruct items as [|[ws x] items]; [done|]. exfalso.
      cbn [flat_params fold_right fst snd] in Hp.
      apply (f_equal String.length) in Hp. rewrite length_append in Hp.
      pose proof (length_element_params x (flat_params items tail)) as [Hlen _].
      cbn in Hp. fold (flat_params items tail) in Hp. lia. }
    subst items. cbn. rewrite app_nil_r, Z.add_0_r. by destruct L.
  - rewrite <- Hp. unfold bind at 1.
    rewrite read_all_flat; [|done|done|rewrite Hp; lia].
    unfold bind, get, ret. cbn [mL]. do 2 f_equal.
    unfold lua_gettop. cbn [stack set_stack]. rewrite length_app. lia.
Qed.

(** X19: a flat format, made of simple directives (i, n, s, b, T, F, u,
    0) each of which may stand under a condition C, pushes the values
    of the elements whose condition is not false, in their order, and
    takes the arguments of all elements off the argument list; no
    error is recorded and the count grows by the number of values
    pushed. *)
Theorem marshal_flat_format L count items tail extra :
  flat_spaces items = true -> spaces tail = true ->
  marshal L count (flat_params items tail) (flat_args items ++ extra)
  = Ok (count + Z.of_nat (length (flat_values items)))
       (new_Reader extra (set_stack (stack L ++ flat_values items) L) EmptyString
          (lua_gettop L - count)).
Proof. intros. eapply marshal_flat_run; eassumption. Qed.

End FlatFormatFacts.

Section TableLiteralFacts.
Context `{Interp}.

Ltac reader_simpl :=
  unfold set_mArgs, set_mL, set_mError, set_mParams, set_mHeight, set_mInKey,
    set_mInValue, set_mShouldSkip;
  cbn [mArgs mL mError mParams mHeight mTop mInKey mInValue mShouldSkip].

Lemma ReadElement_at_open fuel r p :
  skip_spaces (mParams r) = String "{" p ->
  ReadElement (S fuel) r = _table (ReadElement fuel) fuel (set_mParams (String "{" p) r).
Proof. intros Hp. cbn [ReadElement]. unfold bind, modify, get. rewrite Hp. reflexivity. Qed.

Lemma ReadElement_at_close fuel r p :
  skip_spaces (mParams r) = String "}" p ->
  ReadElement (S fuel) r
  = (if mHeight r =? 0 then Error "Unopened table" else ret true)
      (set_mParams (String "}" p) r).
Proof. intros Hp. cbn [ReadElement]. unfold bind, modify, get. rewrite Hp. reflexivity. Qed.

Lemma add_value_sequence t n v :
  sequence t n -> n + 1 <= 2 ^ 53 -> sequence (add_value (t, n) v).1 (add_value (t, n) v).2.
Proof.
  intros [Hn Hseq] Hb. unfold add_value. cbn [fst snd].
  destruct (decide (v = VNil)) as [->|Hv].
  - split; [done|]. intros i Hi. rewrite tbl_get_set.
    destruct (decide (key i = key (n + 1))) as [Hk|Hk].
    + apply key_inj in Hk; [|lia..]. subst i. split; [done|lia].
    + apply Hseq, Hi.
  - split; [lia|]. intros i Hi. rewrite tbl_get_set.
    destruct (decide (key i = key (n + 1))) as [Hk|Hk].
    + apply key_inj in Hk; [|lia..]. subst i. split; [lia|done].
    + rewrite (Hseq i Hi). split; [lia|]. intros Hle.
      destruct (decide (i = n + 1)) as [->|]; [done|lia].
Qed.

Lemma add_entry_sequence t n en :
  sequence t n -> n + 1 <= 2 ^ 53 ->
  sequence (add_entry (t, n) en).1 (add_entry (t, n) en).2
  /\ n <= (add_entry (t, n) en).2 <= n + 1.
Proof.
  intros Hseq Hb. destruct en as [x|ws1 k ws2 e].
  - destruct x as [e|b ws e]; cbn [add_entry element_values fold_left].
    + split; [by apply add_value_sequence|]. unfold add_value. cbn. destruct (decide _); lia.
    + destruct b; cbn [fold_left].
      * split; [by apply add_value_sequence|]. unfold add_value. cbn. destruct (decide _); lia.
      * split; [done|cbn; lia].
  - cbn [add_entry fst snd]. split; [|lia]. destruct Hseq as [Hn Hseq]. split; [done|].
    intros i Hi. rewrite tbl_get_set. rewrite decide_False by (unfold key; discriminate). by apply Hseq.
Qed.

Lemma build_sequence entries : forall t n,
  sequence t n -> n + Z.of_nat (length entries) <= 2 ^ 53 ->
  sequence (build entries (t, n)).1 (build entries (t, n)).2
  /\ n <= (build entries (t, n)).2 <= n + Z.of_nat (length entries).
Proof.
  induction entries as [|[ws en] entries IH]; intros t n Hseq Hb.
  - cbn. split; [done|lia].
  - unfold build in *. cbn [fold_left snd length] in *.
    destruct (add_entry_sequence t n en Hseq) as [Hs1 Hn1]; [lia|].
    destruct (add_entry (t, n) en) as [t1 n1] eqn:E. cbn [fst snd] in *.
    destruct (IH t1 n1 Hs1) as [Hs2 Hn2]; [lia|]. split; [done|lia].
Qed.

Lemma removelast_snoc {A} (l : list A) x : removelast (l ++ [x]) = l.
Proof. by rewrite removelast_last. Qed.

Lemma ReadElement_keyed fuel ws ws1 k ws2 e rest args' L s ref t err h top :
  spaces ws = true -> spaces ws1 = true -> spaces ws2 = true -> h <> 0 ->
  stack L = s ++ [VTable ref] -> tables (heap L) !! ref = Some t ->
  ReadElement (S (S fuel))
    {| mArgs := va_string (Some k) :: arguments e ++ args'; mL := L; mError := err;
       mParams := ws +:+ String "K" (ws1 +:+ String "s" (ws2 +:+ String (directive e) rest));
       mHeight := h; mTop := top;
       mInKey := false; mInValue := false; mShouldSkip := false |}
  = Ok true
      {| mArgs := args';
         mL := store_table ref (tbl_set t (VString k) (value_of e)) L;
         mError := err; mParams := String (directive e) rest; mHeight := h; mTop := top;
         mInKey := false; mInValue := false; mShouldSkip := false |}.
Proof.
  intros Hws Hws1 Hws2 Hh Hs Ht.
  erewrite ReadElement_at_K by (cbn [mParams]; by rewrite skip_spaces_app).
  cbn [mHeight]. rewrite (proj2 (Z.eqb_neq h 0)) by done.
  unfold _K. unfold bind at 1, modify at 1. unfold bind at 1, modify at 1.
  unfold bind at 1. reader_simpl. unfold next_param. reader_simpl.
  pose proof (ReadElement_simple fuel (e_string (Some k)) ws1
    (ws2 +:+ String (directive e) rest) (arguments e ++ args') L err h top true false false
    Hws1) as Hkey.
  cbn [arguments directive value_of app] in Hkey. rewrite Hkey by done. clear Hkey.
  cbn [negb]. unfold bind at 1, modify at 1. unfold bind at 1, modify at 1.
  unfold bind at 1, modify at 1. unfold bind at 1. reader_simpl. unfold next_param. reader_simpl.
  rewrite ReadElement_simple by done.
  cbn [negb]. unfold bind at 1, modify at 1. unfold bind at 1, get at 1. reader_simpl.
  unfold bind at 1, onL, zoom. reader_simpl.
  unfold lua_settable.
  set (L2 := push (value_of e) (push (VString k) L)).
  assert (Hst : stack L2 = s ++ [VTable ref; VString k; value_of e]).
  { subst L2. unfold push. cbn [stack set_stack]. rewrite Hs, <- !app_assoc. reflexivity. }
  assert (Htop : top_value L2 = Some (value_of e)).
  { apply (top_value_snoc (s ++ [VTable ref; VString k])). rewrite Hst, <- app_assoc. reflexivity. }
  assert (Hk : top_value (pop1 L2) = Some (VString k)).
  { apply (top_value_snoc (s ++ [VTable ref])). unfold pop1. cbn [stack set_stack].
    rewrite Hst. replace (s ++ [VTable ref; VString k; value_of e])
      with ((s ++ [VTable ref; VString k]) ++ [value_of e]) by (by rewrite <- app_assoc).
    rewrite removelast_snoc, <- app_assoc. reflexivity. }
  rewrite Hk, Htop.
  assert (Htab : table_at L2 (-3) = Some (ref, t)).
  { unfold table_at.
    assert (Hi : index2adr L2 (-3) = Some (VTable ref)).
    { unfold index2adr. rewrite (stack_slot_neg _ 3); [|lia|rewrite Hst, length_app; cbn; lia].
      rewrite Hst, length_app. cbn [length].
      replace (length s + 3 - 3)%nat with (length s + 0)%nat by lia.
      by rewrite lookup_app_r, Nat.add_comm, Nat.add_sub by lia. }
    rewrite Hi. subst L2. unfold push. cbn [heap set_stack]. by rewrite Ht. }
  rewrite Htab. unfold set_field, ret, Nat.iter. cbn [nat_rect].
  do 2 f_equal. subst L2. unfold pop1, store_table, push, set_stack, set_heap.
  destruct L as [hp st up en cs cl].
  cbn [stack heap upvalues environ callers calls] in *. subst st. f_equal.
  by rewrite !removelast_snoc.
Qed.

Lemma Push_run L s v idx ref t n :
  stack L = s ++ [v] ->
  index2adr L idx = Some (VTable ref) ->
  tables (heap L) !! ref = Some t ->
  sequence t n -> n + 1 < 2 ^ 31 ->
  Push idx L = Ok tt (set_stack s (store_table ref (tbl_set t (key (n + 1)) v) L)).
Proof.
  intros Hs Hi Ht Hseq Hn. unfold Push.
  rewrite (GetN_sequence L idx ref t n Hi Ht Hseq) by lia.
  unfold lua_rawseti. rewrite (table_at_Some _ _ _ _ Hi Ht), (top_value_snoc _ _ _ Hs).
  unfold pop1, store_table, key; cbn; by rewrite Hs, removelast_last.
Qed.

Lemma store_table_id L ref t : tables (heap L) !! ref = Some t -> store_table ref t L = L.
Proof.
  intros Ht. unfold store_table, set_heap, set_tables. rewrite list_insert_id by done.
  destruct L as [hp st up en cs cl]. cbn. by destruct hp.
Qed.

Lemma store_table_twice L ref t1 t2 :
  store_table ref t2 (store_table ref t1 L) = store_table ref t2 L.
Proof.
  unfold store_table, set_heap, set_tables. cbn. by rewrite list_insert_insert_eq.
Qed.

Lemma store_table_lookup L ref t t1 :
  tables (heap L) !! ref = Some t -> tables (heap (store_table ref t1 L)) !! ref = Some t1.
Proof.
  intros Ht. unfold store_table. cbn. apply list_lookup_insert_eq. by eapply lookup_lt_Some.
Qed.

Lemma directive_not_close e : Ascii.eqb (directive e) "}" = false.
Proof. by destruct e. Qed.

Lemma index2adr_neg2_table L s ref v :
  stack L = s ++ [VTable ref; v] -> index2adr L (-2) = Some (VTable ref).
Proof.
  intros Hs. unfold index2adr. rewrite (stack_slot_neg _ 2); [|lia|rewrite Hs, length_app; cbn; lia].
  rewrite Hs, length_app. cbn [length].
  replace (length s + 2 - 2)%nat with (length s + 0)%nat by lia.
  by rewrite lookup_app_r, Nat.add_comm, Nat.add_sub by lia.
Qed.

Lemma table_loop_entries entries : forall k f L s ref t n args' err h top tail rest,
  body_spaces entries = true -> spaces tail = true -> 0 <= h ->
  stack L = s ++ [VTable ref] -> tables (heap L) !! ref = Some t -> sequence t n ->
  n + Z.of_nat (length entries) < 2 ^ 31 ->
  (length entries < k)%nat -> (2 <= f)%nat ->
  _table_loop (ReadElement f) k
    {| mArgs := body_args entries ++ args'; mL := L; mError := err;
       mParams := body_params entries (tail +:+ String "}" rest);
       mHeight := h + 1; mTop := top;
       mInKey := false; mInValue := false; mShouldSkip := false |}
  = Ok true
      {| mArgs := args'; mL := store_table ref (build entries (t, n)).1 L; mError := err;
         mParams := String "}" rest; mHeight := h; mTop := top;
         mInKey := false; mInValue := false; mShouldSkip := false |}.
Proof.
  induction entries as [|[ws en] entries IH];
    intros k f L s ref t n args' err h top tail rest Hsp Htail Hh Hs Ht Hseq Hn Hk Hf.
  - destruct k as [|k]; [cbn in Hk; lia|]. destruct f as [|f]; [lia|].
    cbn [body_args body_params fold_right mbind list_bind app build fold_left fst].
    cbn [_table_loop]. unfold bind at 1, get at 1. unfold bind at 1.
    erewrite ReadElement_at_close by (cbn [mParams]; by rewrite skip_spaces_app).
    cbn [mHeight]. rewrite (proj2 (Z.eqb_neq (h + 1) 0)) by lia.
    unfold ret at 1. cbn [negb]. unfold bind at 1, get at 1. reader_simpl.
    rewrite Z.ltb_irrefl. unfold peek. reader_simpl. cbn [Ascii.eqb Bool.eqb].
    unfold bind, modify, ret. reader_simpl. rewrite store_table_id by done.
    do 2 f_equal. lia.
  - destruct k as [|k]; [cbn in Hk; lia|]. cbn [length] in Hk, Hn.
    cbn [body_spaces forallb fst snd] in Hsp.
    apply andb_prop in Hsp as [Hsp1 Hsp]. apply andb_prop in Hsp1 as [Hws Hen].
    fold (body_spaces entries) in Hsp.
    unfold build. cbn [fold_left snd]. fold (build entries).
    change (body_params ((ws, en) :: entries) (tail +:+ String "}" rest))
      with (ws +:+ entry_params en (body_params entries (tail +:+ String "}" rest))).
    change (body_args ((ws, en) :: entries))
      with (entry_args en ++ body_args entries).
    rewrite <- app_assoc.
    cbn [_table_loop]. unfold bind at 1, get at 1. unfold bind at 1. reader_simpl.
    destruct f as [|f]; [lia|].
    assert (pushed_entry : forall v e args0 rest0,
      (if lua_gettop L <? lua_gettop (set_stack (stack L ++ [v]) L)
       then let! _ := onL (Push (-2)) in
            let! _ := modify next_param in _table_loop (ReadElement (S f)) k
       else if Ascii.eqb (peek
                 {| mArgs := args0; mL := set_stack (stack L ++ [v]) L; mError := err;
                    mParams := String (directive e) rest0; mHeight := h + 1; mTop := top;
                    mInKey := false; mInValue := false; mShouldSkip := false |}) "}"
            then let! _ := modify (set_mHeight (h + 1 - 1)) in ret true
            else let! _ := modify next_param in _table_loop (ReadElement (S f)) k)
        {| mArgs := args0; mL := set_stack (stack L ++ [v]) L; mError := err;
           mParams := String (directive e) rest0; mHeight := h + 1; mTop := top;
           mInKey := false; mInValue := false; mShouldSkip := false |}
      = _table_loop (ReadElement (S f)) k
          {| mArgs := args0; mL := store_table ref (add_value (t, n) v).1 L; mError := err;
             mParams := rest0; mHeight := h + 1; mTop := top;
             mInKey := false; mInValue := false; mShouldSkip := false |}).
    { intros v e args0 rest0.
      replace (lua_gettop L <? lua_gettop (set_stack (stack L ++ [v]) L)) with true.
      2:{ symmetry. apply Z.ltb_lt. unfold lua_gettop. cbn [stack set_stack].
          rewrite length_app. cbn. lia. }
      unfold bind at 1, onL at 1, zoom at 1. reader_simpl.
      erewrite (Push_run _ (s ++ [VTable ref]) v (-2) ref t n); try done.
      - unfold bind at 1, modify at 1, next_param. reader_simpl.
        do 2 f_equal. unfold store_table, set_heap, set_stack. cbn. by rewrite Hs.
      - cbn. by rewrite Hs.
      - apply (index2adr_neg2_table _ s ref v). cbn. by rewrite Hs, <- app_assoc.
      - lia. }
    assert (after_value : forall v,
      body_spaces entries = true -> n + 1 < 2 ^ 31 ->
      _table_loop (ReadElement (S f)) k
        {| mArgs := body_args entries ++ args';
           mL := store_table ref (add_value (t, n) v).1 L; mError := err;
           mParams := body_params entries (tail +:+ String "}" rest);
           mHeight := h + 1; mTop := top;
           mInKey := false; mInValue := false; mShouldSkip := false |}
      = Ok true
          {| mArgs := args';
             mL := store_table ref (build entries (add_value (t, n) v)).1 L; mError := err;
             mParams := String "}" rest; mHeight := h; mTop := top;
             mInKey := false; mInValue := false; mShouldSkip := false |}).
    { intros v _ Hn1.
      pose proof (add_value_sequence t n v Hseq ltac:(lia)) as Hs1.
      assert (Hb : n <= (add_value (t, n) v).2 <= n + 1)
        by (unfold add_value; cbn; destruct (decide _); lia).
      destruct (add_value (t, n) v) as [t1 n1] eqn:E. cbn [fst snd] in *.
      erewrite (IH k (S f) _ s ref t1 n1); try done.
      - by rewrite store_table_twice.
      - by eapply store_table_lookup.
      - lia.
      - lia. }
    destruct en as [x|ws1 key ws2 e].
    + cbn [entry_params entry_args entry_spaces add_entry] in *.
      rewrite ReadElement_element; [|done|done|destruct x; lia].
      cbn [negb]. unfold bind at 1, get at 1. reader_simpl.
      destruct x as [e|b ws' e]; [|destruct b]; cbn [element_values fold_left].
      * rewrite pushed_entry. apply after_value; [done|lia].
      * rewrite pushed_entry. apply after_value; [done|lia].
      * rewrite app_nil_r. replace (set_stack (stack L) L) with L by (by destruct L).
        rewrite Z.ltb_irrefl. unfold peek. reader_simpl. rewrite directive_not_close.
        unfold bind at 1, modify at 1, next_param. reader_simpl.
        apply (IH k (S f) L s ref t n); try done; lia.
    + cbn [entry_params entry_args entry_spaces add_entry fst snd] in *.
      apply andb_prop in Hen as [Hws1 Hws2].
      cbn [app]. clear pushed_entry after_value. destruct f as [|f]; [lia|].
      erewrite ReadElement_keyed; [|done|done|done|lia|done|done].
      cbn [negb]. unfold bind at 1, get at 1. reader_simpl.
      replace (lua_gettop (store_table ref (tbl_set t (VString key) (value_of e)) L))
        with (lua_gettop L) by done.
      rewrite Z.ltb_irrefl. unfold peek. reader_simpl. rewrite directive_not_close.
      unfold bind at 1, modify at 1, next_param. reader_simpl.
      pose proof (add_entry_sequence t n (keyed ws1 key ws2 e) Hseq ltac:(lia)) as [Hs1 _].
      cbn [add_entry fst snd] in Hs1.
      erewrite (IH k _ _ s ref (tbl_set t (VString key) (value_of e)) n);
        [by rewrite store_table_twice|done|done|done|done|by eapply store_table_lookup
        |done|lia|lia|lia].
Qed.

Lemma length_flat_params items rest :
  (length items + String.length rest <= String.length (flat_params items rest))%nat.
Proof.
  induction items as [|[ws x] items IH]; [done|].
  cbn [flat_params fold_right fst snd length]. fold (flat_params items rest).
  rewrite length_append.
  pose proof (length_element_params x (flat_params items rest)) as [Hlen _]. lia.
Qed.

Lemma length_body_params entries rest :
  (length entries + String.length rest <= String.length (body_params entries rest))%nat.
Proof.
  induction entries as [|[ws en] entries IH]; [done|].
  cbn [body_params fold_right fst snd length]. fold (body_params entries rest).
  rewrite length_append. destruct en as [x|ws1 k ws2 e]; cbn [entry_params].
  - pose proof (length_element_params x (body_params entries rest)) as [Hlen _]. lia.
  - cbn [String.length]. rewrite length_append. cbn [String.length].
    rewrite length_append. cbn [String.length]. lia.
Qed.

(** The loop of CallCore over the flat elements in front of the rest
    of a format. *)
Lemma read_all_prefix items rest : forall fuel L args' err h top,
  flat_spaces items = true -> (1 <= fuel)%nat ->
  read_all (length items + fuel)
    {| mArgs := flat_args items ++ args'; mL := L; mError := err;
       mParams := flat_params items rest; mHeight := h; mTop := top;
       mInKey := false; mInValue := false; mShouldSkip := false |}
  = read_all fuel
      {| mArgs := args'; mL := set_stack (stack L ++ flat_values items) L; mError := err;
         mParams := rest; mHeight := h; mTop := top;
         mInKey := false; mInValue := false; mShouldSkip := false |}.
Proof.
  induction items as [|[ws x] items IH]; intros fuel L args' err h top Hsp Hfuel.
  - cbn [flat_params flat_args flat_values fold_right mbind list_bind length app Nat.add].
    rewrite app_nil_r. by destruct L.
  - cbn [flat_spaces forallb] in Hsp. apply andb_prop in Hsp as [Hx Hsp].
    apply andb_prop in Hx as [Hws Hx]. cbn [fst snd] in *.
    cbn [flat_params fold_right fst snd] in *. fold (flat_params items rest) in *.
    change (flat_args ((ws, x) :: items)) with (element_args x ++ flat_args items).
    change (flat_values ((ws, x) :: items)) with (element_values x ++ flat_values items).
    rewrite <- app_assoc. cbn [length Nat.add].
    cbn [read_all]. unfold bind at 1.
    rewrite ReadElement_element; [|done|done|destruct x; lia].
    unfold bind at 1, modify at 1. cbv beta iota.
    assert (Hnext : forall e args L0,
      next_param {| mArgs := args; mL := L0; mError := err;
                    mParams := String (directive e) (flat_params items rest);
                    mHeight := h; mTop := top; mInKey := false; mInValue := false;
                    mShouldSkip := false |}
      = {| mArgs := args; mL := L0; mError := err; mParams := flat_params items rest;
           mHeight := h; mTop := top; mInKey := false; mInValue := false;
           mShouldSkip := false |}) by done.
    destruct x as [e|b ws' e]; rewrite Hnext; rewrite IH; try done.
    + cbn [stack set_stack]. by rewrite <- app_assoc.
    + cbn [stack set_stack]. by rewrite <- app_assoc.
Qed.

(** X20: a format with one table literal among flat elements.  The
    literal makes one new table; its positional elements (simple
    directives, possibly under a condition) are appended in order,
    nil values and suppressed elements adding nothing, and each pair
    K s <directive> sets the string key to the value.  The stack
    receives the values of the elements in front, the table, and the
    values of the elements behind; all arguments are consumed and no
    error is recorded. *)
Theorem marshal_table_literal L count pre ws entries tail post tail' extra :
  flat_spaces pre = true -> spaces ws = true -> body_spaces entries = true ->
  spaces tail = true -> flat_spaces post = true -> spaces tail' = true ->
  Z.of_nat (length entries) < 2 ^ 31 ->
  let ref := length (tables (heap L)) in
  let t := literal_table entries in
  let values := flat_values pre ++ [VTable ref] ++ flat_values post in
  marshal L count
    (flat_params pre (ws +:+ table_params entries tail (flat_params post tail')))
    (flat_args pre ++ body_args entries ++ flat_args post ++ extra)
  = Ok (count + Z.of_nat (length values))
       (new_Reader extra
          (set_stack (stack L ++ values)
             (set_heap (set_tables (tables (heap L) ++ [t]) (heap L)) L))
          EmptyString (lua_gettop L - count))
  /\ sequence t (build entries ([], 0)).2.
Proof.
  intros Hpre Hws Hen Htail Hpost Htail' Hlen ref t values.
  split.
  2:{ apply build_sequence; [|lia]. split; [done|]. intros i Hi. cbn. split; [done|lia]. }
  unfold marshal, new_Reader.
  set (params := flat_params pre _).
  assert (Hp : params = flat_params pre
    (ws +:+ table_params entries tail (flat_params post tail'))) by done.
  pose proof (length_flat_params pre
    (ws +:+ table_params entries tail (flat_params post tail'))) as Hl1.
  rewrite <- Hp in Hl1.
  rewrite length_append in Hl1. unfold table_params in Hl1. cbn [String.length] in Hl1.
  pose proof (length_body_params entries
    (tail +:+ String "}" (flat_params post tail'))) as Hl2.
  rewrite length_append in Hl2. cbn [String.length] in Hl2.
  destruct params as [|c params'] eqn:Hparams; [cbn in Hl1; lia|]. rewrite <- Hparams in *.
  clear Hparams c params'.
  unfold bind at 1.
  remember (String.length params - length pre)%nat as f eqn:Hf.
  replace (S (String.length params)) with (length pre + S f)%nat by lia.
  rewrite Hp. rewrite read_all_prefix by (done || lia).
  cbn [read_all]. unfold bind at 1.
  erewrite ReadElement_at_open by (cbn [mParams]; unfold table_params; by rewrite skip_spaces_app).
  unfold _table. unfold bind at 1, modify at 1. unfold bind at 1, push_unless_skipped, modify at 1.
  unfold bind at 1, modify at 1, next_param. reader_simpl.
  set (L1 := lua_newtable _).
  erewrite (table_loop_entries entries f f L1 (stack L ++ flat_values pre) ref [] 0);
    [|done|done|lia| | |split; [done|intros i Hi; cbn; split; [done|lia]]|lia|lia|lia].
  2:{ subst L1. unfold lua_newtable, lua_createtable, push. cbn [stack set_stack set_heap].
      reflexivity. }
  2:{ subst L1. unfold lua_newtable, lua_createtable, push. cbn.
      rewrite lookup_app_r by done. by rewrite Nat.sub_diag. }
  unfold bind at 1, modify at 1, next_param. reader_simpl.
  rewrite read_all_flat; [|done|done|lia].
  unfold bind, get, ret. reader_simpl.
  f_equal.
  - unfold lua_gettop. subst L1. unfold store_table, lua_newtable, lua_createtable, push.
    cbn [stack set_stack set_heap]. subst values. rewrite !length_app. cbn [length]. lia.
  - f_equal. subst L1 values. unfold store_table, lua_newtable, lua_createtable, push.
    unfold set_stack, set_heap, set_tables. cbn. f_equal.
    + f_equal. fold ref. rewrite insert_app_r_alt by done. by rewrite Nat.sub_diag.
    + by rewrite <- !app_assoc.
Qed.

End TableLiteralFacts.

Section TracebackFacts.
Context `{Interp}.

Lemma ErrorFunc_levels_run active : forall L s0 m,
  stack L = s0 ++ [VString m] ->
  ErrorFunc_levels active L = Ok tt (set_stack (s0 ++ [VString (m +:+ traceback active)]) L).
Proof.
  induction active as [|ar active IH]; intros L s0 m Hs.
  - cbn [ErrorFunc_levels traceback fold_right]. rewrite append_nil_r. unfold ret.
    rewrite <- Hs. by destruct L.
  - cbn [ErrorFunc_levels traceback fold_right]. fold (traceback active).
    unfold bind at 1, modify at 1. unfold bind at 1.
    unfold lua_concat2, lua_pushstring.
    set (L1 := push (VString (about ar)) L).
    assert (H1 : stack L1 = (s0 ++ [VString m]) ++ [VString (about ar)])
      by (subst L1; unfold push; cbn; by rewrite Hs).
    rewrite (top_value_snoc _ _ _ H1).
    assert (H2 : stack (pop1 L1) = s0 ++ [VString m])
      by (unfold pop1; cbn [stack set_stack]; by rewrite H1, removelast_snoc).
    rewrite (top_value_snoc _ _ _ H2). cbn [tostring].
    erewrite IH.
    2:{ unfold push, pop1. cbn [stack set_stack]. rewrite H1, !removelast_snoc. reflexivity. }
    rewrite append_assoc. reflexivity.
Qed.

Lemma ErrorFunc_message L s0 v m :
  stack L = s0 ++ [v] -> tostring v = Some m ->
  exists msg,
    with_traceback v (callers L) = Some msg
    /\ ErrorFunc L = Ok 1 (set_stack (s0 ++ [msg]) L).
Proof.
  intros Hs Hm. unfold ErrorFunc, with_traceback.
  destruct (callers L) as [|ar active] eqn:Hc.
  - exists v. split; [done|]. cbn. rewrite <- Hs. by destruct L.
  - rewrite Hm. cbn [mbind option_bind]. eexists. split; [reflexivity|].
    unfold bind at 1. cbn [ErrorFunc_levels]. unfold bind at 1, modify at 1. unfold bind at 1.
    unfold lua_concat2, lua_pushstring.
    set (L1 := push (VString (about ar)) L).
    assert (H1 : stack L1 = (s0 ++ [v]) ++ [VString (about ar)])
      by (subst L1; unfold push; cbn; by rewrite Hs).
    rewrite (top_value_snoc _ _ _ H1).
    assert (H2 : stack (pop1 L1) = s0 ++ [v])
      by (unfold pop1; cbn [stack set_stack]; by rewrite H1, removelast_snoc).
    rewrite (top_value_snoc _ _ _ H2). rewrite Hm. cbn [tostring].
    erewrite ErrorFunc_levels_run.
    2:{ unfold push, pop1. cbn [stack set_stack]. rewrite H1, !removelast_snoc. reflexivity. }
    unfold ret. cbn [traceback fold_right]. rewrite append_assoc. reflexivity.
Qed.

(** X21: ErrorFunc turns a string or number message into the message
    followed, for each active function from level 1 on, by a newline
    and the source name, with a colon and the line when the line is
    known; with no active function the value is returned as it is. It
    always returns 1 and touches nothing below the message. *)
Theorem ErrorFunc_traceback L s0 v m :
  stack L = s0 ++ [v] -> tostring v = Some m ->
  exists msg,
    with_traceback v (callers L) = Some msg
    /\ ErrorFunc L = Ok 1 (set_stack (s0 ++ [msg]) L).
Proof. intros. eapply ErrorFunc_message; eassumption. Qed.

Lemma CacheAndGet_cached L func reg :
  tables (heap L) !! registry (heap L) = Some reg ->
  tbl_get reg (VLightUserdata (code_addr func)) <> VNil ->
  CacheAndGet func L = Ok tt (push (tbl_get reg (VLightUserdata (code_addr func))) L).
Proof.
  intros Hreg Hv. unfold CacheAndGet. unfold bind at 1, modify at 1. unfold bind at 1.
  rewrite (lua_rawget_registry _ (stack L) (VLightUserdata (code_addr func)) reg) by done.
  unfold bind at 1, get at 1. unfold lua_isnil.
  erewrite index2adr_top by reflexivity.
  destruct (tbl_get reg (VLightUserdata (code_addr func))) eqn:E; try done.
Qed.

Lemma PCall_EF_cached L pre f args argc retc reg :
  stack L = pre ++ f :: args ->
  Z.of_nat (length args) = argc ->
  tables (heap L) !! registry (heap L) = Some reg ->
  tbl_get reg ErrorFunc_key <> VNil ->
  PCall_EF argc retc L
  = (let! result := lua_pcall argc retc (Z.of_nat (length pre) + 1) in
     let! _ := lua_remove (Z.of_nat (length pre) + 1) in
     ret result) (set_stack (pre ++ tbl_get reg ErrorFunc_key :: f :: args) L).
Proof.
  intros Hs Hn Hreg Hv. unfold PCall_EF. unfold bind at 1.
  rewrite (CacheAndGet_cached L fn_ErrorFunc reg Hreg Hv). fold ErrorFunc_key.
  set (v := tbl_get reg ErrorFunc_key). set (L1 := push v L).
  assert (Hs1 : stack L1 = stack L ++ [v]) by done.
  unfold bind at 1, get at 1.
  assert (Herr : IndexAbsolute L1 (- (argc + 2)) = Z.of_nat (length pre) + 1).
  { replace (- (argc + 2)) with (- Z.of_nat (length args + 2)) by lia.
    rewrite IndexAbsolute_neg by (rewrite Hs1, Hs, !length_app; simpl; lia).
    rewrite Hs1, Hs, !length_app. simpl. lia. }
  rewrite Herr. unfold bind at 1.
  rewrite (lua_insert_run L1 pre (f :: args) v).
  2:{ by rewrite Hs1, Hs, <- app_assoc. }
  2:{ replace (Z.of_nat (length pre) + 1) with (Z.of_nat (S (length pre))) by lia.
      rewrite stack_slot_pos by (rewrite Hs1, Hs, !length_app; simpl; lia).
      f_equal. lia. }
  reflexivity.
Qed.

Lemma lua_pcall_frame L pre v f args nargs :
  stack L = pre ++ v :: f :: args ->
  Z.of_nat (length args) = nargs ->
  call_frame L nargs = Some (length (pre ++ [v]), f, args)
  /\ stack_slot L (Z.of_nat (length pre) + 1) = Some (length pre)
  /\ stack L !! length pre = Some v
  /\ take (length (pre ++ [v])) (stack L) = pre ++ [v].
Proof.
  intros Hs Hn. split; [|split; [|split]].
  - apply call_frame_run; [|done]. by rewrite Hs, <- app_assoc.
  - replace (Z.of_nat (length pre) + 1) with (Z.of_nat (S (length pre))) by lia.
    rewrite stack_slot_pos by (rewrite Hs, length_app; simpl; lia). f_equal. lia.
  - rewrite Hs, lookup_app_r, Nat.sub_diag by lia. done.
  - rewrite Hs. replace (pre ++ v :: f :: args) with ((pre ++ [v]) ++ f :: args)
      by (by rewrite <- app_assoc). apply take_app_length.
Qed.

Lemma PCall_EF_returns_results_run L pre f args argc retc reg results h :
  stack L = pre ++ f :: args ->
  Z.of_nat (length args) = argc ->
  tables (heap L) !! registry (heap L) = Some reg ->
  tbl_get reg ErrorFunc_key <> VNil ->
  run_callable (heap L) f args = CallOk results h ->
  PCall_EF argc retc L
  = Ok 0 (set_stack (pre ++ adjust retc results) (set_heap h (log_call f args L))).
Proof.
  intros Hs Hn Hreg Hv Hrun.
  rewrite (PCall_EF_cached L pre f args argc retc reg) by done.
  set (v := tbl_get reg ErrorFunc_key). set (L1 := set_stack _ L).
  destruct (lua_pcall_frame L1 pre v f args argc eq_refl Hn) as (Hf & Hp & Hl & Ht).
  unfold bind at 1. unfold lua_pcall. rewrite Hf, Hp.
  replace (heap L1) with (heap L) by done. rewrite Hrun, Ht.
  unfold bind at 1.
  erewrite (lua_remove_run _ pre (adjust retc results) v).
  2:{ cbn [stack set_stack set_heap]. by rewrite <- app_assoc. }
  2:{ replace (Z.of_nat (length pre) + 1) with (Z.of_nat (S (length pre))) by lia.
      rewrite stack_slot_pos by (cbn [stack set_stack set_heap]; rewrite !length_app; simpl; lia).
      f_equal. lia. }
  reflexivity.
Qed.

(** X22: once ErrorFunc is cached in the registry, PCall_EF of a call
    that returns leaves the results, adjusted to retc, in the place of
    the function and its arguments, with the handler removed again,
    and returns 0; the call is made once, with the arguments given. *)
Theorem PCall_EF_returns_results L pre f args argc retc reg results h :
  stack L = pre ++ f :: args ->
  Z.of_nat (length args) = argc ->
  tables (heap L) !! registry (heap L) = Some reg ->
  tbl_get reg ErrorFunc_key <> VNil ->
  run_callable (heap L) f args = CallOk results h ->
  PCall_EF argc retc L
  = Ok 0 (set_stack (pre ++ adjust retc results) (set_heap h (log_call f args L))).
Proof. intros. eapply PCall_EF_returns_results_run; eassumption. Qed.

Lemma PCall_EF_failure_run L pre f args argc retc reg ref cl fl h msg :
  stack L = pre ++ f :: args ->
  Z.of_nat (length args) = argc ->
  tables (heap L) !! registry (heap L) = Some reg ->
  tbl_get reg ErrorFunc_key = VFunction ref ->
  run_callable (heap L) f args = CallErr fl h ->
  closures h !! ref = Some cl -> cl_fn cl = fn_ErrorFunc ->
  with_traceback (raw_error fl) (active_at fl) = Some msg ->
  PCall_EF argc retc L
  = Ok LUA_ERRRUN (set_stack (pre ++ [msg]) (set_heap h (log_call f args L))).
Proof.
  intros Hs Hn Hreg Hv Hrun Hcl Hfn Hmsg.
  rewrite (PCall_EF_cached L pre f args argc retc reg) by (done || by rewrite Hv).
  rewrite Hv. set (L1 := set_stack _ L).
  destruct (lua_pcall_frame L1 pre (VFunction ref) f args argc eq_refl Hn) as (Hf & Hp & Hl & Ht).
  unfold bind at 1. unfold lua_pcall. rewrite Hf, Hp.
  replace (heap L1) with (heap L) by done. rewrite Hrun, Ht, Hl. cbn [default].
  assert (Herr : luaG_errormsg LUAI_MAXCCALLS h (VFunction ref) (raw_error fl) (active_at fl)
                 = (msg, h)).
  { unfold LUAI_MAXCCALLS. cbn [luaG_errormsg]. rewrite Hcl, Hfn.
    set (L0 := {| heap := h; stack := [raw_error fl] |}).
    assert (Hm : exists m, tostring (raw_error fl) = Some m \/ active_at fl = []).
    { unfold with_traceback in Hmsg. destruct (active_at fl); [by exists EmptyString; right|].
      destruct (tostring (raw_error fl)) as [m|]; [exists m; by left|done]. }
    destruct Hm as [m [Hm|Hm]].
    - destruct (ErrorFunc_message L0 [] (raw_error fl) m eq_refl Hm) as (msg' & Hw & HE).
      rewrite HE. cbn [callers L0] in Hw. subst L0. cbn [callers] in Hw.
      rewrite Hw in Hmsg. injection Hmsg as ->. reflexivity.
    - unfold ErrorFunc. subst L0. cbn [callers]. rewrite Hm in *. cbn in Hmsg.
      injection Hmsg as <-. reflexivity. }
  unfold id. rewrite Herr. unfold bind at 1.
  erewrite (lua_remove_run _ pre [msg] (VFunction ref)).
  2:{ cbn [stack set_stack set_heap]. by rewrite <- app_assoc. }
  2:{ replace (Z.of_nat (length pre) + 1) with (Z.of_nat (S (length pre))) by lia.
      rewrite stack_slot_pos by (cbn [stack set_stack set_heap]; rewrite !length_app; simpl; lia).
      f_equal. lia. }
  reflexivity.
Qed.

(** X23: once ErrorFunc is cached, PCall_EF of a call that fails with a
    string or number error value returns LUA_ERRRUN and leaves, in the
    place of the function and its arguments, one value: the error
    value followed by the traceback of the functions active at the
    error. *)
Theorem PCall_EF_failure_traceback L pre f args argc retc reg ref cl fl h msg :
  stack L = pre ++ f :: args ->
  Z.of_nat (length args) = argc ->
  tables (heap L) !! registry (heap L) = Some reg ->
  tbl_get reg ErrorFunc_key = VFunction ref ->
  run_callable (heap L) f args = CallErr fl h ->
  closures h !! ref = Some cl -> cl_fn cl = fn_ErrorFunc ->
  with_traceback (raw_error fl) (active_at fl) = Some msg ->
  PCall_EF argc retc L
  = Ok LUA_ERRRUN (set_stack (pre ++ [msg]) (set_heap h (log_call f args L))).
Proof. intros. eapply PCall_EF_failure_run; eassumption. Qed.

End TracebackFacts.

Section CallCoreFlatFacts.
Context `{Interp}.

(** X24: a protected CallCore with a flat format, once ErrorFunc is
    cached: the callable is called once, with the arguments pushed
    before the call followed by the values of the format; when it
    returns, CallCore returns the number of results kept and the
    results stand in the place of the callable and its arguments. *)
Theorem CallCore_flat_call_returns L pre f args0 count retc items tail extra reg results h :
  stack L = pre ++ f :: args0 ->
  Z.of_nat (length args0) = count ->
  tables (heap L) !! registry (heap L) = Some reg ->
  tbl_get reg ErrorFunc_key <> VNil ->
  flat_spaces items = true -> spaces tail = true ->
  run_callable (heap L) f (args0 ++ flat_values items) = CallOk results h ->
  CallCore L count retc (flat_params items tail) (flat_args items ++ extra) true
  = Returned (Z.of_nat (length (adjust retc results)))
      (set_stack (pre ++ adjust retc results)
         (set_heap h (log_call f (args0 ++ flat_values items) L))).
Proof.
  intros Hs Hn Hreg Hv Hsp Htail Hrun. unfold CallCore.
  rewrite marshal_flat_run by done. unfold new_Reader. cbn [mError mL]. unfold invoke.
  cbn [mError mL].
  set (L1 := set_stack _ L). unfold bind at 1.
  rewrite (PCall_EF_returns_results_run L1 pre f (args0 ++ flat_values items)
             (count + Z.of_nat (length (flat_values items))) retc reg results h).
  - unfold complete, bind, get, ret. cbn [negb Z.eqb]. f_equal.
    unfold lua_gettop. subst L1. cbn [stack set_stack set_heap log_call].
    rewrite Hs, !length_app. cbn [length]. lia.
  - subst L1. cbn [stack set_stack]. rewrite Hs, <- app_assoc. reflexivity.
  - rewrite length_app. lia.
  - done.
  - done.
  - done.
Qed.

(** X25: when the call fails with a string or number error value, the
    protected CallCore throws that message followed by the traceback,
    with the stack cut back to what lay below the callable. *)
Theorem CallCore_flat_call_throws L pre f args0 count retc items tail extra reg ref cl fl h text :
  stack L = pre ++ f :: args0 ->
  Z.of_nat (length args0) = count ->
  tables (heap L) !! registry (heap L) = Some reg ->
  tbl_get reg ErrorFunc_key = VFunction ref ->
  flat_spaces items = true -> spaces tail = true ->
  run_callable (heap L) f (args0 ++ flat_values items) = CallErr fl h ->
  closures h !! ref = Some cl -> cl_fn cl = fn_ErrorFunc ->
  with_traceback (raw_error fl) (active_at fl) = Some (VString text) ->
  CallCore L count retc (flat_params items tail) (flat_args items ++ extra) true
  = Thrown text
      (set_stack pre (set_heap h (log_call f (args0 ++ flat_values items) L))).
Proof.
  intros Hs Hn Hreg Hv Hsp Htail Hrun Hcl Hfn Hmsg. unfold CallCore.
  rewrite marshal_flat_run by done. unfold new_Reader. cbn [mError mL]. unfold invoke.
  cbn [mError mL].
  set (L1 := set_stack _ L). unfold bind at 1.
  rewrite (PCall_EF_failure_run L1 pre f (args0 ++ flat_values items)
             (count + Z.of_nat (length (flat_values items))) retc reg ref cl fl h
             (VString text)).
  - unfold LUA_ERRRUN. cbn [negb Z.eqb].
    set (L2 := set_stack (pre ++ [VString text]) _).
    assert (Hopt : luaL_optstring (-1) "Caught non-string error" L2 = Ok text L2).
    { unfold luaL_optstring, lua_isnoneornil, luaL_checkstring, lua_tolstring, bind, ret.
      erewrite index2adr_top by reflexivity. reflexivity. }
    unfold bind at 1. rewrite Hopt. unfold bind at 1.
    assert (Hafter : lua_gettop L1 - (count + Z.of_nat (length (flat_values items))) - 1
                     = Z.of_nat (length pre)).
    { unfold lua_gettop. subst L1. cbn [stack set_stack]. rewrite Hs, !length_app.
      cbn [length]. lia. }
    rewrite Hafter. unfold lua_settop.
    destruct (Z.leb_spec 0 (Z.of_nat (length pre))) as [_|]; [|lia].
    unfold complete, bind, get, ret. f_equal. subst L2. cbn [stack set_stack].
    rewrite Nat2Z.id. unfold resize. rewrite take_app_length, length_app. cbn [length].
    replace (length pre - (length pre + 1))%nat with 0%nat by lia.
    cbn [replicate]. rewrite app_nil_r. reflexivity.
  - subst L1. cbn [stack set_stack]. rewrite Hs, <- app_assoc. reflexivity.
  - rewrite length_app. lia.
  - done.
  - done.
  - done.
  - done.
  - done.
  - done.
Qed.

End CallCoreFlatFacts.

Section BindFacts.
Context `{Interp}.

Lemma reheap_eta L : L = reheap (stack L) (tables (heap L)) (closures (heap L)) L.
Proof. destruct L as [[] ? ? ? ? ?]. reflexivity. Qed.

Lemma index2adr_neg L s v rest idx :
  stack L = s ++ v :: rest -> idx = - (Z.of_nat (length rest) + 1) ->
  Z.of_nat (length rest) < 9999 -> index2adr L idx = Some v.
Proof.
  intros Hs -> Hb. unfold index2adr.
  replace (- (Z.of_nat (length rest) + 1)) with (- Z.of_nat (S (length rest))) by lia.
  rewrite stack_slot_neg; [|lia|rewrite Hs, length_app; cbn [length]; lia].
  assert (Hreg : (LUA_REGISTRYINDEX <? - Z.of_nat (S (length rest))) = true)
    by (apply Z.ltb_lt; unfold LUA_REGISTRYINDEX; lia).
  rewrite Hreg, Hs, length_app. cbn [length].
  replace (length s + S (length rest) - S (length rest))%nat with (length s + 0)%nat by lia.
  by rewrite lookup_app_r, Nat.add_comm, Nat.add_sub by lia.
Qed.

Lemma rawseti_reheap s v ts cs L idx n ref t rest :
  s = rest ->
  index2adr (reheap (s ++ [v]) ts cs L) idx = Some (VTable ref) ->
  ts !! ref = Some t ->
  lua_rawseti idx n (reheap (s ++ [v]) ts cs L)
  = Ok tt (reheap s (<[ref := tbl_set t (key n) v]> ts) cs L).
Proof.
  intros _ Hi Ht. unfold lua_rawseti.
  rewrite (table_at_Some _ _ _ _ Hi Ht), (top_value_snoc s v) by done.
  unfold pop1, store_table, reheap. cbn. by rewrite removelast_snoc.
Qed.

Lemma settable_reheap s k v ts cs L idx ref t :
  k <> VNil ->
  index2adr (reheap (s ++ [k; v]) ts cs L) idx = Some (VTable ref) ->
  ts !! ref = Some t ->
  lua_settable idx (reheap (s ++ [k; v]) ts cs L)
  = Ok tt (reheap s (<[ref := tbl_set t k v]> ts) cs L).
Proof.
  intros Hk Hi Ht. unfold lua_settable.
  assert (Hs2 : s ++ [k; v] = (s ++ [k]) ++ [v]) by (by rewrite <- app_assoc).
  rewrite (top_value_snoc s k (pop1 (reheap (s ++ [k; v]) ts cs L))).
  2:{ unfold pop1, reheap. cbn [stack set_stack]. by rewrite Hs2, removelast_snoc. }
  rewrite (top_value_snoc (s ++ [k]) v (reheap (s ++ [k; v]) ts cs L)) by exact Hs2.
  rewrite (table_at_Some _ _ _ _ Hi Ht). unfold set_field.
  assert (Hpop : Nat.iter 2 pop1
            (store_table ref (tbl_set t k v) (reheap (s ++ [k; v]) ts cs L))
          = reheap s (<[ref := tbl_set t k v]> ts) cs L).
  { unfold Nat.iter. cbn [nat_rect]. unfold pop1, store_table, reheap.
    cbn [stack heap set_stack set_heap tables set_tables set_closures].
    rewrite Hs2, !removelast_snoc. reflexivity. }
  rewrite Hpop. by destruct k.
Qed.

Lemma setfield_reheap s name v ts cs L idx ref t :
  index2adr (reheap (s ++ [v]) ts cs L) idx = Some (VTable ref) ->
  ts !! ref = Some t ->
  lua_setfield idx name (reheap (s ++ [v]) ts cs L)
  = Ok tt (reheap s (<[ref := tbl_set t (VString name) v]> ts) cs L).
Proof.
  intros Hi Ht. unfold lua_setfield.
  rewrite (top_value_snoc s v) by done.
  rewrite (table_at_Some _ _ _ _ Hi Ht). unfold set_field, Nat.iter. cbn [nat_rect].
  unfold pop1, store_table, reheap. cbn. by rewrite removelast_snoc.
Qed.

Lemma pushcclosure_reheap s ups ts cs L fn n :
  length ups = n ->
  lua_pushcclosure fn n (reheap (s ++ ups) ts cs L)
  = Ok tt (reheap (s ++ [VFunction (length cs)]) ts
             (cs ++ [{| cl_fn := fn; cl_upvalues := ups |}]) L).
Proof.
  intros Hn. unfold lua_pushcclosure. cbn [stack reheap set_stack].
  rewrite length_app, Hn.
  destruct (Nat.ltb_spec (length s + n) n) as [|_]; [lia|].
  replace (length s + n - n)%nat with (length s) by lia.
  rewrite take_app_length, drop_app_length. reflexivity.
Qed.

Lemma push_reheap v s ts cs L : push v (reheap s ts cs L) = reheap (s ++ [v]) ts cs L.
Proof. reflexivity. Qed.

Lemma createtable_reheap s ts cs L :
  lua_createtable (reheap s ts cs L) = reheap (s ++ [VTable (length ts)]) (ts ++ [[]]) cs L.
Proof. reflexivity. Qed.

Lemma index2adr_reheap_neg s v rest ts cs L idx :
  idx = - (Z.of_nat (length rest) + 1) -> Z.of_nat (length rest) < 9999 ->
  index2adr (reheap (s ++ v :: rest) ts cs L) idx = Some v.
Proof. intros. by eapply index2adr_neg. Qed.

Ltac at_index pre v rest :=
  match goal with
  | |- index2adr (reheap ?st _ _ _) _ = _ =>
      replace st with (pre ++ v :: rest) by (by rewrite <- ?app_assoc)
  end;
  apply index2adr_reheap_neg; [reflexivity|cbn; lia].

Lemma BindPeer_members_run members : forall s d m ts cs L,
  (m < length ts)%nat ->
  BindPeer_members members (reheap (s ++ [VTable d; VTable m]) ts cs L)
  = Ok tt (reheap (s ++ [VTable d; VTable m]) (members_tables ts m members) cs L).
Proof.
  induction members as [|x members IH]; intros s d m ts cs L Hm; [done|].
  cbn [BindPeer_members members_tables].
  unfold bind at 1, modify at 1. unfold bind at 1, modify at 1.
  unfold bind at 1, modify at 1. unfold bind at 1, modify at 1.
  unfold lua_pushinteger, lua_pushstring.
  rewrite push_reheap, createtable_reheap, !push_reheap.
  set (name := VString (mName x)).
  set (off := VNumber (int2num (as_lua_Integer (mOffset x)))).
  set (ty := VNumber (int2num (type_code (mType x)))).
  set (T := length ts).
  unfold bind at 1.
  rewrite (rawseti_reheap _ ty _ _ _ _ _ T [] _ eq_refl).
  2:{ at_index (s ++ [VTable d; VTable m; name]) (VTable T) [off; ty]. }
  2:{ subst T. by rewrite lookup_app_r, Nat.sub_diag by lia. }
  unfold bind at 1.
  rewrite (rawseti_reheap _ off _ _ _ _ _ T (tbl_set [] (key eDType) ty) _ eq_refl).
  2:{ at_index (s ++ [VTable d; VTable m; name]) (VTable T) [off]. }
  2:{ subst T. apply list_lookup_insert_eq. rewrite length_app. cbn. lia. }
  unfold bind at 1.
  destruct (lookup_lt_is_Some_2 ts m Hm) as [mt Hmt].
  replace (((s ++ [VTable d; VTable m]) ++ [name]) ++ [VTable T])
    with ((s ++ [VTable d; VTable m]) ++ [name; VTable T]) by (by rewrite <- !app_assoc).
  rewrite (settable_reheap _ name (VTable T) _ _ _ _ m mt).
  2:{ done. }
  2:{ at_index (s ++ [VTable d]) (VTable m) [name; VTable T]. }
  2:{ rewrite list_lookup_insert_ne by (subst T; lia).
      rewrite list_lookup_insert_ne by (subst T; lia).
      by rewrite lookup_app_l by lia. }
  rewrite IH.
  2:{ rewrite !length_insert, length_app. lia. }
  rewrite Hmt.
  rewrite list_insert_insert_eq.
  subst T. rewrite (insert_app_r_alt ts _ (length ts)) by lia. rewrite Nat.sub_diag.
  reflexivity.
Qed.

Lemma members_tables_length members : forall ts m,
  length (members_tables ts m members) = (length ts + length members)%nat.
Proof.
  induction members as [|x members IH]; intros ts m; cbn [members_tables length]; [lia|].
  rewrite IH, length_insert, length_app. cbn [length]. lia.
Qed.

Lemma members_tables_other members : forall ts m i,
  (i < length ts)%nat -> i <> m -> members_tables ts m members !! i = ts !! i.
Proof.
  induction members as [|x members IH]; intros ts m i Hi Hne; [done|].
  cbn [members_tables]. rewrite IH by (rewrite ?length_insert, ?length_app; cbn; lia).
  rewrite list_lookup_insert_ne by done. by rewrite lookup_app_l.
Qed.

Lemma members_tables_desc members : forall ts m mt,
  (m < length ts)%nat -> ts !! m = Some mt ->
  exists mt',
    members_tables ts m members !! m = Some mt'
    /\ (forall k, (forall x, x ∈ members -> k <> VString (mName x)) ->
                  tbl_get mt' k = tbl_get mt k)
    /\ (NoDup (mName <$> members) ->
        forall x, x ∈ members ->
          exists r, tbl_get mt' (VString (mName x)) = VTable r
                    /\ (length ts <= r)%nat
                    /\ members_tables ts m members !! r = Some (member_table x)).
Proof.
  induction members as [|x members IH]; intros ts m mt Hm Hmt.
  - exists mt. split; [done|]. split; [done|]. intros _ x Hx. by apply elem_of_nil in Hx.
  - cbn [members_tables]. rewrite Hmt.
    set (mt1 := tbl_set mt (VString (mName x)) (VTable (length ts))).
    set (ts1 := <[m := mt1]> (ts ++ [member_table x])).
    assert (Hlen1 : length ts1 = S (length ts))
      by (subst ts1; rewrite length_insert, length_app; cbn; lia).
    destruct (IH ts1 m mt1) as (mt' & Hl & Hother & Hdesc).
    { lia. }
    { subst ts1. apply list_lookup_insert_eq. rewrite length_app. lia. }
    exists mt'. split; [done|]. split.
    + intros k Hk. rewrite Hother by (intros y Hy; apply Hk; by right).
      subst mt1. rewrite tbl_get_set, decide_False; [done|]. apply Hk. by left.
    + intros Hnd y Hy. cbn [fmap list_fmap] in Hnd.
      pose proof (NoDup_cons_1_1 _ _ Hnd) as Hx. apply NoDup_cons_1_2 in Hnd.
      apply elem_of_cons in Hy as [->|Hy].
      * exists (length ts). split; [|split; [lia|]].
        -- rewrite Hother.
           ++ subst mt1. by rewrite tbl_get_set, decide_True.
           ++ intros z Hz [= Heq]. apply Hx. rewrite Heq. by apply list_elem_of_fmap_2.
        -- rewrite members_tables_other by lia. subst ts1.
           rewrite list_lookup_insert_ne by lia.
           by rewrite lookup_app_r, Nat.sub_diag by lia.
      * destruct (Hdesc Hnd y Hy) as (r & Hr & Hle & Hlook).
        exists r. split; [done|]. split; [lia|done].
Qed.

Lemma registered_spec l : forall ot cs,
  let '(ot', cs') := registered ot cs l in
  (exists new, cs' = cs ++ new)
  /\ (forall k, (forall name fn, (name, fn) ∈ l -> k <> VString name) ->
                tbl_get ot' k = tbl_get ot k)
  /\ (NoDup l.*1 ->
      forall name fn, (name, fn) ∈ l ->
        exists r, tbl_get ot' (VString name) = VFunction r
                  /\ cs' !! r = Some {| cl_fn := fn; cl_upvalues := [] |}).
Proof.
  induction l as [|[name fn] l IH]; intros ot cs.
  - cbn. split; [exists []; by rewrite app_nil_r|]. split; [done|].
    intros _ ? ? Hx. by apply elem_of_nil in Hx.
  - cbn [registered].
    specialize (IH (tbl_set ot (VString name) (VFunction (length cs)))
                   (cs ++ [{| cl_fn := fn; cl_upvalues := [] |}])).
    destruct (registered _ _ l) as [ot' cs'].
    destruct IH as ((new & Hnew) & Hother & Hreg).
    split; [exists ({| cl_fn := fn; cl_upvalues := [] |} :: new); by rewrite Hnew, <- app_assoc|].
    split.
    + intros k Hk. rewrite Hother by (intros n' f' Hin; apply (Hk n' f'); by right).
      rewrite tbl_get_set, decide_False; [done|]. apply (Hk name fn). by left.
    + intros Hnd n' f' Hin. cbn [fmap list_fmap fst] in Hnd.
      pose proof (NoDup_cons_1_1 _ _ Hnd) as Hx. apply NoDup_cons_1_2 in Hnd.
      apply elem_of_cons in Hin as [[= -> ->]|Hin].
      * exists (length cs). split.
        -- rewrite Hother.
           ++ by rewrite tbl_get_set, decide_True.
           ++ intros n' f' Hin [= Heq]. apply Hx. rewrite Heq.
              by apply (list_elem_of_fmap_2 fst l (n', f')).
        -- rewrite Hnew, <- app_assoc. by rewrite lookup_app_r, Nat.sub_diag by lia.
      * exact (Hreg Hnd n' f' Hin).
Qed.

Lemma pushcfunction_reheap s ts cs L fn :
  lua_pushcclosure fn 0 (reheap s ts cs L)
  = Ok tt (reheap (s ++ [VFunction (length cs)]) ts
             (cs ++ [{| cl_fn := fn; cl_upvalues := [] |}]) L).
Proof.
  rewrite <- (app_nil_r s) at 1. by rewrite (pushcclosure_reheap s [] ts cs L fn 0).
Qed.

Lemma luaL_register_run l : forall s o ts cs L ot,
  ts !! o = Some ot ->
  luaL_register l (reheap (s ++ [VTable o]) ts cs L)
  = Ok tt (reheap (s ++ [VTable o]) (<[o := (registered ot cs l).1]> ts)
             (registered ot cs l).2 L).
Proof.
  induction l as [|[name fn] l IH]; intros s o ts cs L ot Hot.
  - cbn. by rewrite list_insert_id.
  - cbn [luaL_register registered]. unfold bind at 1. rewrite pushcfunction_reheap.
    unfold bind at 1.
    rewrite (setfield_reheap _ name _ _ _ _ _ o ot).
    2:{ at_index s (VTable o) [VFunction (length cs)]. }
    2:{ done. }
    rewrite (IH _ _ _ _ _ (tbl_set ot (VString name) (VFunction (length cs)))).
    2:{ apply list_lookup_insert_eq. by eapply lookup_lt_Some. }
    by rewrite list_insert_insert_eq.
Qed.

Lemma insert_reheap s1 a b ts cs L :
  lua_insert (-2) (reheap (s1 ++ [a; b]) ts cs L) = Ok tt (reheap (s1 ++ [b; a]) ts cs L).
Proof.
  rewrite (lua_insert_run _ s1 [a] b); [done|done|].
  rewrite (stack_slot_neg _ 2); [|lia|cbn; rewrite length_app; cbn; lia].
  f_equal. cbn. rewrite length_app. cbn. lia.
Qed.

Lemma key_ne i j : - 2 ^ 53 <= i <= 2 ^ 53 -> - 2 ^ 53 <= j <= 2 ^ 53 -> i <> j -> key i <> key j.
Proof. intros Hi Hj Hne Hk. by apply Hne, key_inj. Qed.

Lemma BindPeer_reheap s0 ts0 cs0 L getters setters members boxed :
  is_Some getters \/ is_Some setters \/ default [] members <> [] ->
  NoDup (mName <$> default [] members) ->
  exists L' i n clI clN getT setT descT,
    BindPeer getters setters members boxed (reheap s0 ts0 cs0 L) = Ok tt L'
    /\ stack L' = s0 ++ [VFunction i; VFunction n]
    /\ closures (heap L') !! i = Some clI /\ cl_fn clI = fn_Index
    /\ closures (heap L') !! n = Some clN /\ cl_fn clN = fn_NewIndex
    /\ bridge_data (heap L') clI boxed getT
    /\ bridge_data (heap L') clN boxed setT
    /\ bridge_descriptors (heap L') clI descT
    /\ bridge_descriptors (heap L') clN descT
    /\ (forall x, x ∈ default [] members ->
          descriptor (heap L') descT (VString (mName x)) (as_lua_Integer (mOffset x)) (mType x))
    /\ (forall k, (forall x, x ∈ default [] members -> k <> VString (mName x)) ->
                  tbl_get descT k = VNil)
    /\ (forall l name fn, getters = Some l -> NoDup l.*1 -> (name, fn) ∈ l ->
          exists r cl, tbl_get getT (VString name) = VFunction r
                       /\ closures (heap L') !! r = Some cl /\ cl_fn cl = fn)
    /\ (forall l name fn, setters = Some l -> NoDup l.*1 -> (name, fn) ∈ l ->
          exists r cl, tbl_get setT (VString name) = VFunction r
                       /\ closures (heap L') !! r = Some cl /\ cl_fn cl = fn)
    /\ memory (heap L') = memory (heap L).
Proof.
  intros Hgiven Hnd. unfold BindPeer.
  assert (Hcond : bool_decide (is_Some getters) || bool_decide (is_Some setters)
                  || match members with Some (_ :: _) => true | _ => false end = true).
  { destruct Hgiven as [Hg|[Hs|Hm]].
    - by rewrite (bool_decide_eq_true_2 _ Hg).
    - rewrite (bool_decide_eq_true_2 _ Hs). by rewrite orb_true_r.
    - destruct members as [[|? ?]|]; try done. by rewrite orb_true_r. }
  rewrite Hcond. cbn [negb].
  set (ms := default [] members) in *.
  unfold bind at 1, modify at 1. rewrite createtable_reheap.
  unfold bind at 1, modify at 1. rewrite createtable_reheap.
  set (d := length ts0). rewrite length_app. cbn [length]. fold d.
  replace (d + 1)%nat with (S d) by lia. set (m := S d).
  unfold bind at 1.
  replace ((s0 ++ [VTable d]) ++ [VTable m]) with (s0 ++ [VTable d; VTable m])
    by (by rewrite <- app_assoc).
  rewrite BindPeer_members_run by (rewrite !length_app; cbn; lia).
  set (tsA := (ts0 ++ [[]]) ++ [[]]).
  set (ts1 := members_tables tsA m ms).
  assert (HlenA : length tsA = S (S d)) by (subst tsA d; rewrite !length_app; cbn; lia).
  assert (Hlen1 : length ts1 = (S (S d) + length ms)%nat)
    by (subst ts1; rewrite members_tables_length; lia).
  assert (Hd1 : ts1 !! d = Some []).
  { subst ts1. rewrite members_tables_other by lia. subst tsA.
    rewrite lookup_app_l by (rewrite length_app; cbn; lia).
    by rewrite lookup_app_r, Nat.sub_diag by lia. }
  destruct (members_tables_desc ms tsA m []) as (descT & Hm1 & Hother & Hdesc).
  { lia. }
  { assert (Hi : (m = length (ts0 ++ [[]]) + 0)%nat) by (rewrite length_app; cbn; lia).
    subst tsA. rewrite Hi. by rewrite lookup_app_r, Nat.add_comm, Nat.add_sub by lia. }
  fold ts1 in Hm1, Hdesc.
  unfold bind at 1.
  replace (s0 ++ [VTable d; VTable m]) with ((s0 ++ [VTable d]) ++ [VTable m])
    by (by rewrite <- app_assoc).
  rewrite (rawseti_reheap _ (VTable m) _ _ _ _ _ d [] _ eq_refl).
  2:{ at_index s0 (VTable d) [VTable m]. }
  2:{ done. }
  set (dt1 := tbl_set [] (key eDescriptors) (VTable m)).
  unfold bind at 1, modify at 1. unfold lua_pushboolean. rewrite push_reheap.
  unfold bind at 1.
  rewrite (rawseti_reheap _ (VBoolean boxed) _ _ _ _ _ d dt1 _ eq_refl).
  2:{ at_index s0 (VTable d) [VBoolean boxed]. }
  2:{ apply list_lookup_insert_eq. lia. }
  rewrite list_insert_insert_eq.
  set (dt := tbl_set dt1 (key eBoxed) (VBoolean boxed)).
  set (ts2 := <[d := dt]> ts1).
  assert (Hlen2 : length ts2 = length ts1) by (subst ts2; by rewrite length_insert).
  unfold bind at 1, modify at 1. unfold lua_pushvalue, value_at.
  rewrite (index2adr_reheap_neg s0 (VTable d) []) by (done || (cbn; lia)).
  cbn [default]. unfold id. rewrite push_reheap.
  unfold bind at 1, modify at 1. unfold lua_newtable. rewrite createtable_reheap.
  set (G := length ts2).
  unfold bind at 1.
  assert (Hreg : forall funcs s o ts cs ot, ts !! o = Some ot ->
    register_if_given funcs (reheap (s ++ [VTable o]) ts cs L)
    = Ok tt (reheap (s ++ [VTable o])
               (<[o := (registered ot cs (default [] funcs)).1]> ts)
               (registered ot cs (default [] funcs)).2 L)).
  { intros [l|] s o ts cs ot Hot; cbn [register_if_given default].
    - by apply luaL_register_run.
    - cbn. by rewrite list_insert_id. }
  rewrite (Hreg getters _ G _ _ []) by (subst G; by rewrite lookup_app_r, Nat.sub_diag by lia).
  pose proof (registered_spec (default [] getters) [] cs0) as HG.
  destruct (registered [] cs0 (default [] getters)) as [getT cs1] eqn:EG. cbn [fst snd].
  destruct HG as ((newG & HnewG) & HGother & HGreg).
  unfold bind at 1.
  replace (((s0 ++ [VTable d]) ++ [VTable d]) ++ [VTable G])
    with ((s0 ++ [VTable d]) ++ [VTable d; VTable G]) by (by rewrite <- !app_assoc).
  rewrite (pushcclosure_reheap _ [VTable d; VTable G] _ _ _ fn_Index 2) by done.
  set (clI := {| cl_fn := fn_Index; cl_upvalues := [VTable d; VTable G] |}).
  set (i := length cs1).
  unfold bind at 1.
  replace ((s0 ++ [VTable d]) ++ [VFunction i]) with (s0 ++ [VTable d; VFunction i])
    by (by rewrite <- app_assoc).
  rewrite insert_reheap.
  unfold bind at 1, modify at 1. rewrite createtable_reheap.
  rewrite length_insert, length_app. cbn [length]. fold G.
  replace (G + 1)%nat with (S G) by lia. set (S' := S G).
  unfold bind at 1.
  rewrite (Hreg setters _ S' _ _ [])
    by (subst S'; rewrite lookup_app_r by (rewrite length_insert, length_app; cbn; lia);
        rewrite length_insert, length_app; cbn [length]; fold G;
        by replace (S G - (G + 1))%nat with 0%nat by lia).
  pose proof (registered_spec (default [] setters) [] (cs1 ++ [clI])) as HS.
  destruct (registered [] (cs1 ++ [clI]) (default [] setters)) as [setT cs2] eqn:ES.
  cbn [fst snd].
  destruct HS as ((newS & HnewS) & HSother & HSreg).
  replace ((s0 ++ [VFunction i; VTable d]) ++ [VTable S'])
    with ((s0 ++ [VFunction i]) ++ [VTable d; VTable S']) by (by rewrite <- !app_assoc).
  rewrite (pushcclosure_reheap _ [VTable d; VTable S'] _ _ _ fn_NewIndex 2) by done.
  set (clN := {| cl_fn := fn_NewIndex; cl_upvalues := [VTable d; VTable S'] |}).
  set (n := length cs2).
  set (tsF := <[S' := setT]> (<[G := getT]> (ts2 ++ [[]]) ++ [[]])).
  assert (Hlow : forall j, (j < G)%nat -> tsF !! j = ts2 !! j).
  { intros j Hj. subst tsF S'. rewrite list_lookup_insert_ne by lia.
    rewrite lookup_app_l by (rewrite length_insert, length_app; cbn; lia).
    rewrite list_lookup_insert_ne by lia. by rewrite lookup_app_l by lia. }
  assert (HFd : tsF !! d = Some dt).
  { rewrite Hlow by (subst G; lia). subst ts2. apply list_lookup_insert_eq. lia. }
  assert (HFm : tsF !! m = Some descT).
  { rewrite Hlow by (subst G m; lia). subst ts2. by rewrite list_lookup_insert_ne by (subst m; lia). }
  assert (HFG : tsF !! G = Some getT).
  { subst tsF S'. rewrite list_lookup_insert_ne by lia.
    rewrite lookup_app_l by (rewrite length_insert, length_app; cbn; lia).
    apply list_lookup_insert_eq. rewrite length_app. cbn. lia. }
  assert (HFS : tsF !! S' = Some setT).
  { subst tsF. apply list_lookup_insert_eq. rewrite length_app, length_insert, length_app.
    cbn. lia. }
  assert (Hboxed : tbl_get dt (key eBoxed) = VBoolean boxed)
    by (subst dt; by rewrite tbl_get_set, decide_True).
  assert (Hdescs : tbl_get dt (key eDescriptors) = VTable m).
  { subst dt dt1. rewrite tbl_get_set, decide_False.
    - by rewrite tbl_get_set, decide_True.
    - apply key_ne; unfold eDescriptors, eBoxed; lia. }
  assert (HcI : (cs1 ++ [clI]) !! i = Some clI) by (subst i; by rewrite lookup_app_r, Nat.sub_diag by lia).
  exists (reheap ((s0 ++ [VFunction i]) ++ [VFunction n]) tsF (cs2 ++ [clN]) L),
    i, n, clI, clN, getT, setT, descT.
  split; [reflexivity|]. split; [cbn; by rewrite <- app_assoc|].
  cbn [heap reheap set_stack set_heap closures set_closures tables set_tables memory].
  split; [|split; [done|]].
  { rewrite HnewS, <- !app_assoc. rewrite lookup_app_r by (subst i; lia).
    subst i. by rewrite Nat.sub_diag. }
  split; [|split; [done|]].
  { subst n. by rewrite lookup_app_r, Nat.sub_diag by lia. }
  split; [by exists d, G, dt|]. split; [by exists d, S', dt|].
  split; [by exists d, dt, m|]. split; [by exists d, dt, m|].
  split.
  { intros x Hx. destruct (Hdesc Hnd x Hx) as (r & Hr & Hle & Hlook).
    exists r, (member_table x). split; [done|]. split.
    - pose proof (lookup_lt_Some _ _ _ Hlook) as Hlt.
      rewrite Hlow by (subst G; lia). subst ts2.
      rewrite list_lookup_insert_ne by lia. done.
    - unfold member_table. split.
      + by rewrite tbl_get_set, decide_True.
      + rewrite tbl_get_set, decide_False.
        * by rewrite tbl_get_set, decide_True.
        * apply key_ne; unfold eDType, eDOffset; lia. }
  split; [intros k Hk; by rewrite Hother|].
  split.
  { intros l name fn -> Hndl Hin. destruct (HGreg Hndl name fn Hin) as (r & Hr & Hcl).
    exists r, {| cl_fn := fn; cl_upvalues := [] |}. split; [done|]. split; [|done].
    rewrite HnewS, <- !app_assoc. by apply lookup_app_l_Some. }
  split; [|done].
  intros l name fn -> Hndl Hin. destruct (HSreg Hndl name fn Hin) as (r & Hr & Hcl).
  exists r, {| cl_fn := fn; cl_upvalues := [] |}. split; [done|]. split; [|done].
  by apply lookup_app_l_Some.
Qed.

(** X26: BindPeer pushes two closures, Index and NewIndex, that share
    one data table: it records the boxed flag and the table of
    descriptors, which holds, for every member (names without
    repetition), a table with the member's offset and type; the
    getters and the setters given are registered in one table of
    overrides each. Nothing else on the stack changes and native
    memory is untouched. *)
Theorem BindPeer_builds_bridge L getters setters members boxed :
  is_Some getters \/ is_Some setters \/ default [] members <> [] ->
  NoDup (mName <$> default [] members) ->
  exists L' i n clI clN getT setT descT,
    BindPeer getters setters members boxed L = Ok tt L'
    /\ stack L' = stack L ++ [VFunction i; VFunction n]
    /\ closures (heap L') !! i = Some clI /\ cl_fn clI = fn_Index
    /\ closures (heap L') !! n = Some clN /\ cl_fn clN = fn_NewIndex
    /\ bridge_data (heap L') clI boxed getT
    /\ bridge_data (heap L') clN boxed setT
    /\ bridge_descriptors (heap L') clI descT
    /\ bridge_descriptors (heap L') clN descT
    /\ (forall x, x ∈ default [] members ->
          descriptor (heap L') descT (VString (mName x)) (as_lua_Integer (mOffset x)) (mType x))
    /\ (forall k, (forall x, x ∈ default [] members -> k <> VString (mName x)) ->
                  tbl_get descT k = VNil)
    /\ (forall l name fn, getters = Some l -> NoDup l.*1 -> (name, fn) ∈ l ->
          exists r cl, tbl_get getT (VString name) = VFunction r
                       /\ closures (heap L') !! r = Some cl /\ cl_fn cl = fn)
    /\ (forall l name fn, setters = Some l -> NoDup l.*1 -> (name, fn) ∈ l ->
          exists r cl, tbl_get setT (VString name) = VFunction r
                       /\ closures (heap L') !! r = Some cl /\ cl_fn cl = fn)
    /\ memory (heap L') = memory (heap L).
Proof.
  intros Hgiven Hnd.
  pose proof (BindPeer_reheap (stack L) (tables (heap L)) (closures (heap L)) L
                getters setters members boxed Hgiven Hnd) as Hrun.
  by rewrite <- reheap_eta in Hrun.
Qed.

End BindFacts.

Section MoreExamples.
#[local] Existing Instance win32 | 0.
#[local] Existing Instance win32_interp | 0.

Lemma example_list_sequence : sequence example_list 2.
Proof.
  pose proof (add_value_sequence [] 0 (VString "a")) as H1.
  assert (H0 : sequence [] 0) by (split; [done|]; intros i Hi; cbn; split; [done|lia]).
  specialize (H1 H0 ltac:(lia)).
  pose proof (add_value_sequence _ _ (VString "b") H1 ltac:(vm_compute; discriminate)) as H2.
  exact H2.
Qed.

Lemma Push_appends_witness :
  let L := list_state [VTable 3; VString "c"] in
  index2adr L 1 = Some (VTable 3)
  /\ tables (heap L) !! 3%nat = Some example_list
  /\ sequence example_list 2
  /\ exists t',
       Push 1 L = Ok tt (set_stack [VTable 3] (store_table 3 t' L))
       /\ (forall k, tbl_get t' k
                     = if decide (k = key 3) then VString "c" else tbl_get example_list k)
       /\ sequence t' 3.
Proof.
  intros L.
  assert (H1 : index2adr L 1 = Some (VTable 3)) by reflexivity.
  assert (H2 : tables (heap L) !! 3%nat = Some example_list) by reflexivity.
  repeat (split; [assumption || exact example_list_sequence|]).
  exact (Push_appends L [VTable 3] (VString "c") 1 3%nat example_list 2
           eq_refl H1 H2 example_list_sequence ltac:(lia)).
Defined.

Lemma Pop_removes_last_witness :
  let L := list_state [VTable 3] in
  index2adr L (IndexAbsolute L (-1)) = Some (VTable 3)
  /\ sequence example_list 2
  /\ exists t',
       Pop (-1) true L = Ok tt (set_stack [VTable 3; VString "b"] (store_table 3 t' L))
       /\ (forall k, tbl_get t' k = if decide (k = key 2) then VNil else tbl_get example_list k)
       /\ sequence t' 1.
Proof.
  intros L.
  assert (H1 : index2adr L (IndexAbsolute L (-1)) = Some (VTable 3)) by reflexivity.
  repeat (split; [assumption || exact example_list_sequence|]).
  exact (Pop_removes_last L (-1) 3%nat example_list 2 true
           H1 eq_refl example_list_sequence ltac:(lia)).
Defined.

Lemma Push_then_Pop_witness :
  let L := list_state [VTable 3; VString "c"] in
  sequence example_list 2
  /\ exists L1 L2 t2,
       Push 1 L = Ok tt L1
       /\ Pop 1 true L1 = Ok tt L2
       /\ stack L2 = stack L
       /\ tables (heap L2) !! 3%nat = Some t2
       /\ (forall k, tbl_get t2 k = tbl_get example_list k)
       /\ sequence t2 2.
Proof.
  intros L. split; [exact example_list_sequence|].
  exact (Push_then_Pop L [VTable 3] (VString "c") 1 3%nat example_list 2
           eq_refl ltac:(simpl; lia) eq_refl eq_refl example_list_sequence ltac:(lia)
           ltac:(discriminate)).
Defined.

Lemma Unpack_pushes_range_witness :
  let L := list_state [VTable 3] in
  sequence example_list 2
  /\ Unpack 1 1 (-1) L = Ok tt (set_stack [VTable 3; VString "a"; VString "b"] L)
  /\ Unpack 1 (-1) (-2) L = Fault "assert(start <= end)".
Proof.
  intros L. split; [exact example_list_sequence|]. split.
  - exact (Unpack_pushes_range L 1 1 (-1) 3%nat example_list 2
             eq_refl eq_refl example_list_sequence ltac:(lia)).
  - exact (Unpack_pushes_range L 1 (-1) (-2) 3%nat example_list 2
             eq_refl eq_refl example_list_sequence ltac:(lia)).
Defined.

Lemma GetGlobal_reads_path_witness :
  let L := list_state [] in
  descend (heap L) (globals (heap L)) ["game"] = Some 2%nat
  /\ GetGlobal (Some "game.list") L = Ok tt (push (VTable 3) L).
Proof.
  intros L.
  assert (H1 : descend (heap L) (globals (heap L)) ["game"] = Some 2%nat) by reflexivity.
  split; [assumption|].
  exact (GetGlobal_reads_path L ["game"] "list" 2%nat [(VString "list", VTable 3)]
           ltac:(repeat constructor) eq_refl H1 eq_refl).
Defined.

Lemma GetGlobal_missing_level_witness :
  let L := list_state [] in
  tbl_get [(VString "game", VTable 2)] (VString "gane") = VNil
  /\ exists L', GetGlobal (Some "gane.list") L
                = Raise (VString "attempt to index a nil value") L'
                /\ heap L' = heap L /\ calls L' = calls L.
Proof.
  intros L.
  assert (H1 : tbl_get [(VString "game", VTable 2)] (VString "gane") = VNil) by reflexivity.
  split; [assumption|].
  exact (GetGlobal_missing_level L "gane" "list" [(VString "game", VTable 2)]
           eq_refl eq_refl H1).
Defined.

Lemma SetGlobal_writes_path_witness :
  let L := list_state [num 7] in
  descend (heap L) (globals (heap L)) ["game"] = Some 2%nat
  /\ SetGlobal (Some "game.score") L
     = Ok tt (set_stack []
                (store_table 2 [(VString "score", num 7); (VString "list", VTable 3)] L)).
Proof.
  intros L.
  assert (H1 : descend (heap L) (globals (heap L)) ["game"] = Some 2%nat) by reflexivity.
  split; [assumption|].
  exact (SetGlobal_writes_path L [] (num 7) ["game"] "score" 2%nat
           [(VString "list", VTable 3)] eq_refl ltac:(repeat constructor) eq_refl H1 eq_refl).
Defined.

Lemma SetGlobal_then_GetGlobal_witness :
  let L := list_state [num 7] in
  descend (heap L) (globals (heap L)) ["game"] = Some 2%nat
  /\ exists L1 L2,
       SetGlobal (Some "game.score") L = Ok tt L1
       /\ GetGlobal (Some "game.score") L1 = Ok tt L2
       /\ stack L2 = stack L
       /\ heap L2 = heap L1.
Proof.
  intros L.
  assert (H1 : descend (heap L) (globals (heap L)) ["game"] = Some 2%nat) by reflexivity.
  split; [assumption|].
  exact (SetGlobal_then_GetGlobal L [] (num 7) ["game"] "score" 2%nat
           [(VString "list", VTable 3)] eq_refl ltac:(repeat constructor) eq_refl
           ltac:(by apply not_elem_of_cons; split; [|apply not_elem_of_nil]) H1 eq_refl).
Defined.

Lemma CacheAndGet_name_cached_witness :
  let L := list_state [] in
  tbl_get (default [] (tables (heap L) !! registry (heap L))) (VLightUserdata 100) = VTable 3
  /\ CacheAndGet_name (Some "game.list") 100 L = Ok tt (push (VTable 3) L)
  /\ CacheAndGet_name None 100 L = Ok tt (push (VTable 3) L).
Proof.
  intros L. split; [reflexivity|]. split.
  - exact (CacheAndGet_name_cached L (Some "game.list") 100 _ eq_refl ltac:(discriminate)).
  - exact (CacheAndGet_name_cached L None 100 _ eq_refl ltac:(discriminate)).
Defined.

Lemma CacheAndGet_name_first_use_witness :
  let L := list_state [] in
  let reg := default [] (tables (heap L) !! registry (heap L)) in
  tbl_get reg (VLightUserdata 200) = VNil
  /\ CacheAndGet_name (Some "game.list") 200 L
     = Ok tt (push (VTable 3) (store_table 0 ((VLightUserdata 200, VTable 3) :: reg) L)).
Proof.
  intros L reg.
  assert (H1 : tbl_get reg (VLightUserdata 200) = VNil) by reflexivity.
  split; [assumption|].
  exact (proj1 (CacheAndGet_name_first_use L ["game"] "list" 200 reg 2%nat
                  [(VString "list", VTable 3)] eq_refl H1 ltac:(repeat constructor)
                  eq_refl eq_refl eq_refl)).
Defined.

Lemma CacheAndGet_func_once_witness :
  let L := list_state [] in
  let reg := default [] (tables (heap L) !! registry (heap L)) in
  tbl_get reg (VLightUserdata (code_addr (fn_extern 1))) = VNil
  /\ exists L1,
       CacheAndGet (fn_extern 1) L = Ok tt L1
       /\ stack L1 = [VFunction 5]
       /\ closures (heap L1)
          = closures (heap L) ++ [{| cl_fn := fn_extern 1; cl_upvalues := [] |}]
       /\ forall L2, heap L2 = heap L1 -> CacheAndGet (fn_extern 1) L2 = Ok tt (push (VFunction 5) L2).
Proof.
  intros L reg.
  assert (H1 : tbl_get reg (VLightUserdata (code_addr (fn_extern 1))) = VNil) by reflexivity.
  split; [assumption|].
  exact (CacheAndGet_func_once L (fn_extern 1) reg eq_refl H1).
Defined.

Lemma ErrorFunc_traceback_witness :
  let L := list_state [num 5; VString "boom"] in
  exists msg,
    with_traceback (VString "boom") (callers L) = Some msg
    /\ msg = VString ("boom" +:+ newline +:+ "@boot.lua:7")
    /\ ErrorFunc L = Ok 1 (set_stack [num 5; msg] L).
Proof.
  intros L.
  destruct (ErrorFunc_traceback L [num 5] (VString "boom") "boom" eq_refl eq_refl)
    as (msg & Hw & HE).
  exists msg. split; [exact Hw|]. split; [|exact HE].
  vm_compute in Hw. injection Hw as <-. reflexivity.
Defined.

Lemma PCall_EF_returns_results_witness :
  let L := list_state [num 5; VFunction 0; num 6] in
  run_callable (heap L) (VFunction 0) [num 6] = CallOk [num 6] (heap L)
  /\ PCall_EF 1 1 L
     = Ok 0 (set_stack [num 5; num 6] (set_heap (heap L) (log_call (VFunction 0) [num 6] L))).
Proof.
  intros L.
  assert (H1 : run_callable (heap L) (VFunction 0) [num 6] = CallOk [num 6] (heap L))
    by reflexivity.
  split; [assumption|].
  exact (PCall_EF_returns_results L [num 5] (VFunction 0) [num 6] 1 1 _ [num 6] (heap L)
           eq_refl eq_refl eq_refl ltac:(discriminate) H1).
Defined.

Lemma PCall_EF_failure_traceback_witness :
  let L := list_state [num 5; VFunction 1; num 6] in
  let fl := ErrorCall (VString "boom") example_frame [] in
  let msg := VString ("boom" +:+ newline +:+ "@boot.lua:7") in
  run_callable (heap L) (VFunction 1) [num 6] = CallErr fl (heap L)
  /\ with_traceback (raw_error fl) (active_at fl) = Some msg
  /\ PCall_EF 1 1 L
     = Ok LUA_ERRRUN
         (set_stack [num 5; msg] (set_heap (heap L) (log_call (VFunction 1) [num 6] L))).
Proof.
  intros L fl msg.
  assert (H1 : run_callable (heap L) (VFunction 1) [num 6] = CallErr fl (heap L))
    by reflexivity.
  assert (H2 : with_traceback (raw_error fl) (active_at fl) = Some msg) by reflexivity.
  repeat (split; [assumption|]).
  exact (PCall_EF_failure_traceback L [num 5] (VFunction 1) [num 6] 1 1 _ 4%nat
           {| cl_fn := fn_ErrorFunc; cl_upvalues := [] |} fl (heap L) msg
           eq_refl eq_refl eq_refl eq_refl H1 eq_refl eq_refl H2).
Defined.

Lemma luaT_boxed_set_get_witness :
  let L := tL example_refs in
  lua_isuserdata L 1 = true
  /\ lua_touserdata L 1 = 8448
  /\ exists L1,
       luaT_boxed_set 1 12288 L = Ok 0 L1
       /\ luaT_boxed_get 1 L1 = Ok 12288 L1
       /\ stack L1 = stack L
       /\ forall x, x < 8448 \/ 8448 + 4 <= x -> memory (heap L1) !! x = memory (heap L) !! x.
Proof.
  intros L.
  assert (H1 : lua_isuserdata L 1 = true) by reflexivity.
  assert (H2 : lua_touserdata L 1 = 8448) by reflexivity.
  repeat (split; [assumption|]).
  exact (luaT_boxed_set_get L 1 12288 H1 ltac:(vm_compute; eexists; reflexivity)
           ltac:(vm_compute; split; [discriminate|reflexivity])).
Defined.

Lemma luaT_gc_ref_releases_once_witness :
  lua_isuserdata (tL example_refs) 1 = true
  /\ load_pointer (memory (heap (tL example_refs))) 8448 = Some 8192
  /\ counts (tRefs example_refs) !! 8192 = Some 1%nat
  /\ exists t1,
       luaT_gc_ref example_refs = Ok 0 t1
       /\ load_pointer (memory (heap (tL t1))) 8448 = Some 0
       /\ history (tRefs t1) = [Release_called 8192; destroyed 8192]
       /\ luaT_gc_ref t1 = Ok 0 t1.
Proof.
  assert (H1 : lua_isuserdata (tL example_refs) 1 = true) by reflexivity.
  assert (H2 : load_pointer (memory (heap (tL example_refs))) 8448 = Some 8192)
    by (vm_compute; reflexivity).
  assert (H3 : counts (tRefs example_refs) !! 8192 = Some 1%nat) by (vm_compute; reflexivity).
  repeat (split; [assumption|]).
  exact (luaT_gc_ref_releases_once example_refs 8192 0 H1 H2 (fun _ => H3)).
Defined.

Lemma luaT_cons_set_ref_keeps_old_witness :
  lua_isuserdata (tL example_refs) 1 = true
  /\ counts (tRefs example_refs) !! 12288 = Some 1%nat
  /\ exists t',
       luaT_cons_set_ref 12288 example_refs = Ok 0 t'
       /\ load_pointer (memory (heap (tL t'))) 8448 = Some 12288
       /\ history (tRefs t') = [AddRef_called 12288]
       /\ counts (tRefs t') !! 12288 = Some 2%nat
       /\ counts (tRefs t') !! 8192 = Some 1%nat.
Proof.
  assert (H1 : lua_isuserdata (tL example_refs) 1 = true) by reflexivity.
  assert (H2 : counts (tRefs example_refs) !! 12288 = Some 1%nat) by (vm_compute; reflexivity).
  repeat (split; [assumption|]).
  destruct (luaT_cons_set_ref_keeps_old example_refs 12288 1 H1
              ltac:(vm_compute; eexists; reflexivity)
              ltac:(vm_compute; split; [discriminate|reflexivity]) (fun _ => H2))
    as (t' & Hrun & Hptr & Hhist & Hnew & Hother).
  exists t'. split; [exact Hrun|]. split; [exact Hptr|]. split; [exact Hhist|].
  split; [apply Hnew; discriminate|].
  rewrite (Hother 8192) by discriminate. vm_compute. reflexivity.
Defined.

Lemma NewIndex_writes_only_member_witness :
  let h := example_bridge true in
  let object := VUserdata 8448 4 in
  fits eSInt (num (-5))
  /\ struct_address h true object = Some 8192
  /\ descriptor h (example_table h 3) (VString "x") 0 eSInt
  /\ exists L1,
       NewIndex (enter h (example_closure h 7) [object; VString "x"; num (-5)] []) = Ok 0 L1
       /\ calls L1 = []
       /\ tables (heap L1) = tables h
       /\ closures (heap L1) = closures h
       /\ load_cells (memory (heap L1)) 8192 4 = Some (member_cells eSInt (num (-5)))
       /\ forall x, x < 8192 \/ 8196 <= x -> memory (heap L1) !! x = memory h !! x.
Proof.
  intros h object.
  assert (Hfits : fits eSInt (num (-5))).
  { exists (-5). vm_compute. repeat split; discriminate. }
  assert (Haddr : struct_address h true object = Some 8192) by (vm_compute; reflexivity).
  assert (Hdesc : descriptor h (example_table h 3) (VString "x") 0 eSInt).
  { exists 4%nat, (example_table h 4). vm_compute. repeat split. }
  repeat (split; [assumption|]).
  apply (NewIndex_writes_only_member h (example_closure h 7) true (example_table h 7)
           (example_table h 3) object (VString "x") (num (-5)) eSInt 0 8192 []).
  - exists 2%nat, 7%nat, (example_table h 2). vm_compute. repeat split.
  - exists 2%nat, (example_table h 2), 3%nat. vm_compute. repeat split.
  - vm_compute. reflexivity.
  - exact Hdesc.
  - vm_compute. split; [discriminate|reflexivity].
  - exact Haddr.
  - vm_compute. eexists. reflexivity.
  - exact Hfits.
Defined.

Lemma Index_reads_member_witness :
  let h := example_bridge true in
  let object := VUserdata 8448 4 in
  struct_address h true object = Some 8192
  /\ descriptor h (example_table h 3) (VString "mass") 4 eUInt
  /\ load_cells (memory h) (8192 + 4) 4 = Some (member_cells eUInt (num 0))
  /\ exists L2,
       Index (enter h (example_closure h 5) [object; VString "mass"] []) = Ok 1 L2
       /\ value_at L2 (-1) = num 0
       /\ heap L2 = h
       /\ calls L2 = [].
Proof.
  intros h object.
  assert (Haddr : struct_address h true object = Some 8192) by (vm_compute; reflexivity).
  assert (Hdesc : descriptor h (example_table h 3) (VString "mass") 4 eUInt).
  { exists 5%nat, (example_table h 5). vm_compute. repeat split. }
  assert (Hmem : load_cells (memory h) (8192 + 4) 4 = Some (member_cells eUInt (num 0)))
    by (vm_compute; reflexivity).
  repeat (split; [assumption|]).
  apply (Index_reads_member h (example_closure h 5) true (example_table h 6)
           (example_table h 3) object (VString "mass") (num 0) eUInt 4 8192 []).
  - exists 2%nat, 6%nat, (example_table h 2). vm_compute. repeat split.
  - exists 2%nat, (example_table h 2), 3%nat. vm_compute. repeat split.
  - vm_compute. reflexivity.
  - exact Hdesc.
  - vm_compute. split; [discriminate|reflexivity].
  - exact Haddr.
  - exists 0. vm_compute. repeat split; discriminate.
  - exact Hmem.
Defined.

Lemma NewIndex_setter_called_witness :
  let h := example_bridge true in
  let object := VUserdata 8448 4 in
  let base := VLightUserdata 8192 in
  tbl_get (example_table h 7) (VString "name") = VFunction 6
  /\ base_value h true object = Some base
  /\ exists L',
       NewIndex (enter h (example_closure h 7) [object; VString "name"; VString "ant"] [])
       = Ok 0 L'
       /\ stack L' = []
       /\ heap L' = h
       /\ calls L' = [(VFunction 6, [object; VString "name"; VString "ant"; base])].
Proof.
  intros h object base.
  assert (Hset : tbl_get (example_table h 7) (VString "name") = VFunction 6)
    by (vm_compute; reflexivity).
  assert (Hbase : base_value h true object = Some base) by (vm_compute; reflexivity).
  repeat (split; [assumption|]).
  pose proof (NewIndex_setter_called h (example_closure h 7) true (example_table h 7)
                object (VString "name") (VString "ant") base []) as Hc.
  rewrite Hset in Hc. apply Hc.
  - exists 2%nat, 7%nat, (example_table h 2). vm_compute. repeat split.
  - exact Hbase.
  - discriminate.
Defined.

Lemma NewIndex_rejects_ill_typed_witness :
  let h := example_bridge true in
  let object := VUserdata 8448 4 in
  rejects eSInt (VBoolean true)
  /\ descriptor h (example_table h 3) (VString "x") 0 eSInt
  /\ exists e L',
       NewIndex (enter h (example_closure h 7) [object; VString "x"; VBoolean true] [])
       = Raise e L'
       /\ heap L' = h
       /\ calls L' = [].
Proof.
  intros h object.
  assert (Hrej : rejects eSInt (VBoolean true)) by (split; intros; discriminate).
  assert (Hdesc : descriptor h (example_table h 3) (VString "x") 0 eSInt).
  { exists 4%nat, (example_table h 4). vm_compute. repeat split. }
  repeat (split; [assumption|]).
  apply (NewIndex_rejects_ill_typed h (example_closure h 7) true (example_table h 7)
           (example_table h 3) object (VString "x") (VBoolean true) eSInt 0 8192 []).
  - exists 2%nat, 7%nat, (example_table h 2). vm_compute. repeat split.
  - exists 2%nat, (example_table h 2), 3%nat. vm_compute. repeat split.
  - vm_compute. reflexivity.
  - exact Hdesc.
  - vm_compute. split; [discriminate|reflexivity].
  - vm_compute. reflexivity.
  - exact Hrej.
Defined.

Lemma marshal_flat_format_witness :
  let L := example_state [VFunction 0] in
  flat_spaces example_items = true
  /\ flat_params example_items " " = " i C s T "
  /\ marshal L 0 " i C s T " [va_int 3; va_bool false; va_string (Some "x")]
     = Ok 2 (new_Reader [] (set_stack [VFunction 0; num 3; VBoolean true] L) EmptyString 1).
Proof.
  intros L.
  assert (H1 : flat_spaces example_items = true) by reflexivity.
  assert (H2 : flat_params example_items " " = " i C s T ") by reflexivity.
  repeat (split; [assumption|]).
  exact (marshal_flat_format L 0 example_items " " [] H1 eq_refl).
Defined.

Lemma marshal_table_literal_witness :
  let L := example_state [VFunction 0] in
  let t := [(num 2, num 20); (VString "k", VBoolean true); (num 1, num 10)] in
  body_spaces example_entries = true
  /\ table_params example_entries " " EmptyString = "{ i K s T i }"
  /\ literal_table example_entries = t
  /\ marshal L 0 "{ i K s T i }" [va_int 10; va_string (Some "k"); va_int 20]
     = Ok 1 (new_Reader []
               (set_stack [VFunction 0; VTable 2]
                  (set_heap (set_tables (tables (heap L) ++ [t]) (heap L)) L))
               EmptyString 1)
  /\ sequence t 2.
Proof.
  intros L t.
  assert (H1 : body_spaces example_entries = true) by reflexivity.
  assert (H2 : table_params example_entries " " EmptyString = "{ i K s T i }") by reflexivity.
  assert (H3 : literal_table example_entries = t) by reflexivity.
  repeat (split; [assumption|]).
  exact (marshal_table_literal L 0 [] EmptyString example_entries " " [] EmptyString []
           eq_refl eq_refl H1 eq_refl eq_refl eq_refl ltac:(simpl; lia)).
Defined.

Lemma CallCore_flat_call_returns_witness :
  let L := list_state [num 5; VFunction 0; num 6] in
  let args := [num 6; num 3; VBoolean true] in
  run_callable (heap L) (VFunction 0) args = CallOk args (heap L)
  /\ CallCore L 1 LUA_MULTRET " i C s T " [va_int 3; va_bool false; va_string (Some "x")] true
     = Returned 3 (set_stack (num 5 :: args)
                     (set_heap (heap L) (log_call (VFunction 0) args L))).
Proof.
  intros L args.
  assert (H1 : run_callable (heap L) (VFunction 0) args = CallOk args (heap L)) by reflexivity.
  split; [assumption|].
  exact (CallCore_flat_call_returns L [num 5] (VFunction 0) [num 6] 1 LUA_MULTRET
           example_items " " [] _ args (heap L)
           eq_refl eq_refl eq_refl ltac:(discriminate) eq_refl eq_refl H1).
Defined.

Lemma CallCore_flat_call_throws_witness :
  let L := list_state [num 5; VFunction 1; num 6] in
  let args := [num 6; num 3; VBoolean true] in
  let fl := ErrorCall (VString "boom") example_frame [] in
  let text := "boom" +:+ newline +:+ "@boot.lua:7" in
  run_callable (heap L) (VFunction 1) args = CallErr fl (heap L)
  /\ with_traceback (raw_error fl) (active_at fl) = Some (VString text)
  /\ CallCore L 1 LUA_MULTRET " i C s T " [va_int 3; va_bool false; va_string (Some "x")] true
     = Thrown text (set_stack [num 5] (set_heap (heap L) (log_call (VFunction 1) args L))).
Proof.
  intros L args fl text.
  assert (H1 : run_callable (heap L) (VFunction 1) args = CallErr fl (heap L)) by reflexivity.
  assert (H2 : with_traceback (raw_error fl) (active_at fl) = Some (VString text))
    by reflexivity.
  repeat (split; [assumption|]).
  exact (CallCore_flat_call_throws L [num 5] (VFunction 1) [num 6] 1 LUA_MULTRET
           example_items " " [] _ 4%nat {| cl_fn := fn_ErrorFunc; cl_upvalues := [] |}
           fl (heap L) text
           eq_refl eq_refl eq_refl eq_refl eq_refl eq_refl H1 eq_refl eq_refl H2).
Defined.

Lemma BindPeer_builds_bridge_witness :
  let L := example_state [] in
  let getters := Some [("name", fn_extern 1)] in
  let setters := Some [("name", fn_extern 4)] in
  NoDup (mName <$> example_members)
  /\ exists L' i n clI clN getT setT descT,
       BindPeer getters setters (Some example_members) true L = Ok tt L'
       /\ stack L' = [VFunction i; VFunction n]
       /\ closures (heap L') !! i = Some clI /\ cl_fn clI = fn_Index
       /\ closures (heap L') !! n = Some clN /\ cl_fn clN = fn_NewIndex
       /\ bridge_data (heap L') clI true getT
       /\ bridge_data (heap L') clN true setT
       /\ bridge_descriptors (heap L') clI descT
       /\ bridge_descriptors (heap L') clN descT
       /\ descriptor (heap L') descT (VString "mass") 4 eUInt.
Proof.
  intros L getters setters.
  assert (Hnd : NoDup (mName <$> example_members)).
  { apply NoDup_cons_2; [|apply NoDup_singleton].
    intros Hin. apply list_elem_of_singleton in Hin. discriminate. }
  split; [exact Hnd|].
  destruct (BindPeer_builds_bridge L getters setters (Some example_members) true
              (or_introl (mk_is_Some _ _ eq_refl)) Hnd)
    as (L' & i & n & clI & clN & getT & setT & descT & Hrun & Hs & HI & HfI & HN & HfN
        & HdI & HdN & HmI & HmN & Hdesc & _).
  exists L', i, n, clI, clN, getT, setT, descT.
  repeat (split; [assumption|]).
  apply (Hdesc {| mOffset := 4; mName := "mass"; mType := eUInt |}).
  apply list_elem_of_further, list_elem_of_here.
Defined.

End MoreExamples.
